(** * docusaurus-plugin-git-docs-sync: the synchronisation engine

    A shallow embedding of the orchestration core of the plugin
    (retry-manager, circuit breaker, operation queue, debounced queue,
    webhook queue, webhook listener, and the pull / push / bidirectional
    sync sequences of the sync manager), followed by the properties
    established about it.

    Conventions of the embedding.
    - JavaScript numbers are integers ([Z]); every quantity the engine
      computes with (counters, millisecond delays, timestamps) is an
      integer in the safe range where doubles are exact.
    - Strings are byte strings ([string]); [toLowerCase] acts on ASCII
      letters.
    - A value thrown by JavaScript code is a [thrown]: either an instance
      of [GitSyncError] or some other object, of which only the optional
      [message] is ever inspected by the engine.
    - Asynchronous code that runs to completion between two suspension
      points is a function on an explicit [World]; code whose
      interleaving matters (the queues, the debounce timer) is a
      transition system whose steps are the event-loop turns. *)

From Stdlib Require Import ZArith List String Ascii Bool Lia DecimalString.
Import ListNotations.

Local Open Scope string_scope.
Local Open Scope Z_scope.

(* ===================================================================== *)
(** ** JavaScript string primitives used by the engine *)
(* ===================================================================== *)

Module Js.

(** [s.startsWith(p)] *)
Definition startsWith (s p : string) : bool := String.prefix p s.

(** [s.includes(needle)] *)
Fixpoint includes (s needle : string) : bool :=
  if String.prefix needle s then true
  else match s with
       | EmptyString => false
       | String _ rest => includes rest needle
       end.

(** [s.endsWith(suffix)] *)
Definition endsWith (s suffix : string) : bool :=
  let n := String.length s in
  let k := String.length suffix in
  (k <=? n)%nat && String.eqb (substring (n - k) k s) suffix.

Definition lower_ascii (c : ascii) : ascii :=
  let n := nat_of_ascii c in
  if ((65 <=? n) && (n <=? 90))%nat then ascii_of_nat (n + 32) else c.

(** [s.toLowerCase()] *)
Fixpoint toLowerCase (s : string) : string :=
  match s with
  | EmptyString => EmptyString
  | String c rest => String (lower_ascii c) (toLowerCase rest)
  end.

(** Template-literal rendering of an integer. *)
Definition show (z : Z) : string := NilZero.string_of_int (Z.to_int z).

(** Truthiness of a string: the empty string is falsy. *)
Definition truthy (s : string) : bool := negb (String.eqb s "").

(** [a || b] on optional strings ([None] is [undefined]). *)
Definition or_else (a : option string) (b : string) : string :=
  match a with
  | Some s => if truthy s then s else b
  | None => b
  end.

End Js.

(* ===================================================================== *)
(** ** errors.ts: the error taxonomy and its classifier *)
(* ===================================================================== *)

Inductive ErrorCode : Type :=
| INVALID_CONFIG | MISSING_CREDENTIALS | INVALID_CREDENTIALS
| GIT_INIT_FAILED | GIT_REMOTE_FAILED | GIT_PULL_FAILED | GIT_PUSH_FAILED
| GIT_COMMIT_FAILED | GIT_MERGE_CONFLICT
| NETWORK_ERROR | AUTHENTICATION_FAILED | REMOTE_NOT_FOUND
| PATH_NOT_FOUND | PERMISSION_DENIED | DISK_FULL
| WEBHOOK_START_FAILED | WEBHOOK_VALIDATION_FAILED
| SYNC_IN_PROGRESS | UNKNOWN_ERROR
| CIRCUIT_BREAKER_OPEN (* not a member of the enum: the breaker casts the literal *).

Definition ErrorCode_eqb (a b : ErrorCode) : bool :=
  match a, b with
  | INVALID_CONFIG, INVALID_CONFIG | MISSING_CREDENTIALS, MISSING_CREDENTIALS
  | INVALID_CREDENTIALS, INVALID_CREDENTIALS | GIT_INIT_FAILED, GIT_INIT_FAILED
  | GIT_REMOTE_FAILED, GIT_REMOTE_FAILED | GIT_PULL_FAILED, GIT_PULL_FAILED
  | GIT_PUSH_FAILED, GIT_PUSH_FAILED | GIT_COMMIT_FAILED, GIT_COMMIT_FAILED
  | GIT_MERGE_CONFLICT, GIT_MERGE_CONFLICT | NETWORK_ERROR, NETWORK_ERROR
  | AUTHENTICATION_FAILED, AUTHENTICATION_FAILED | REMOTE_NOT_FOUND, REMOTE_NOT_FOUND
  | PATH_NOT_FOUND, PATH_NOT_FOUND | PERMISSION_DENIED, PERMISSION_DENIED
  | DISK_FULL, DISK_FULL | WEBHOOK_START_FAILED, WEBHOOK_START_FAILED
  | WEBHOOK_VALIDATION_FAILED, WEBHOOK_VALIDATION_FAILED
  | SYNC_IN_PROGRESS, SYNC_IN_PROGRESS | UNKNOWN_ERROR, UNKNOWN_ERROR
  | CIRCUIT_BREAKER_OPEN, CIRCUIT_BREAKER_OPEN => true
  | _, _ => false
  end.

(** [GitSyncError] and its subclasses; [details] carries no behaviour and
    is left out. *)
Record GitSyncError : Type := mkGitSyncError {
  code : ErrorCode;
  message : string;
  isRecoverable : bool
}.

(** Anything a [throw] or a rejected promise can carry. *)
Inductive thrown : Type :=
| ThrowGitSync (e : GitSyncError)
| ThrowOther (msg : option string).

(** [error.message] *)
Definition message_of (t : thrown) : option string :=
  match t with
  | ThrowGitSync e => Some (message e)
  | ThrowOther m => m
  end.

(** [error.message?.includes(needle)], with [undefined] falsy. *)
Definition message_includes (t : thrown) (needle : string) : bool :=
  match message_of t with
  | Some m => Js.includes m needle
  | None => false
  end.

Module ErrorHandler.

Definition AuthenticationError (m : string) : GitSyncError :=
  mkGitSyncError AUTHENTICATION_FAILED m false.
Definition NetworkError (m : string) : GitSyncError :=
  mkGitSyncError NETWORK_ERROR m true.

(** The string-matching chain applied to a message that is present and
    non-empty; [None] when no pattern matches. *)
Definition classify_message (raw : string) : option GitSyncError :=
  let message := Js.toLowerCase raw in
  let has := Js.includes message in
  if has "authentication failed" || has "invalid username or password"
     || (has "permission denied" && (has "git" || has "remote"))
  then Some (AuthenticationError "Git authentication failed. Please check your credentials.")
  else if has "could not resolve host" || has "network is unreachable"
          || has "connection refused"
  then Some (NetworkError "Network error occurred while syncing.")
  else if has "repository not found" || has "does not exist"
  then Some (mkGitSyncError REMOTE_NOT_FOUND "Remote repository not found." false)
  else if has "merge conflict" || has "automatic merge failed"
  then Some (mkGitSyncError GIT_MERGE_CONFLICT
               "Merge conflict detected. Manual resolution required." false)
  else if has "enoent" || has "no such file"
  then Some (mkGitSyncError PATH_NOT_FOUND "Path not found." true)
  else if has "eacces" || has "permission denied"
  then Some (mkGitSyncError PERMISSION_DENIED
               "Permission denied accessing file system." false)
  else if has "enospc" || has "no space left"
  then Some (mkGitSyncError DISK_FULL "Disk space full." false)
  else if has "spawn eio" || has "spawn EIO"
  then Some (mkGitSyncError UNKNOWN_ERROR
               "Process spawn error (EIO). This often occurs in Docker environments."
               false)
  else None.

Definition unknown (t : thrown) : GitSyncError :=
  mkGitSyncError UNKNOWN_ERROR
    (Js.or_else (message_of t) "An unknown error occurred.") true.

(** [ErrorHandler.handle] *)
Definition handle (error : thrown) : GitSyncError :=
  match error with
  | ThrowGitSync e => e
  | ThrowOther None => unknown error
  | ThrowOther (Some raw) =>
      if Js.truthy raw then
        match classify_message raw with
        | Some e => e
        | None => unknown error
        end
      else unknown error
  end.

Definition retryableCodes : list ErrorCode :=
  [NETWORK_ERROR; GIT_PULL_FAILED; GIT_PUSH_FAILED].

(** [ErrorHandler.shouldRetry] *)
Definition shouldRetry (error : GitSyncError) : bool :=
  isRecoverable error && existsb (ErrorCode_eqb (code error)) retryableCodes.

End ErrorHandler.

(* ===================================================================== *)
(** ** The world the synchronous stretches of the engine run in *)
(* ===================================================================== *)

(** The commands the engine sends to the Git client. *)
Inductive GitCmd : Type :=
| GitStatus
| GitStash (args : list string)
| GitRaw (args : list string)
| GitFetch (remote branch : string)
| GitRevparse (args : list string)
| GitReset (args : list string)
| GitAdd (pathspec : string)
| GitCommit (msg : string)
| GitPush (args : list string).

(** What a successful Git command hands back: the paths of
    [status.files] and the textual output; each command reads the part it
    needs. *)
Record GitData : Type := mkGitData {
  status_files : list string;
  output : string
}.

Inductive GitReply : Type :=
| GitOk (d : GitData)
| GitThrows (t : thrown).

(** One validator verdict: [{ valid, errors: [{file, error}] }]. *)
Record Validation : Type := mkValidation {
  valid : bool;
  errors : list (string * string)
}.

Inductive Event : Type :=
| EvGit (c : GitCmd)
| EvSleep (ms : Z)
| EvValidate (paths : list string).

(** What the file system holds at a path: nothing; a file whose text can
    be read; or something that exists but on which [readFileSync] throws
    (a directory, a file without read permission, a file removed right
    after [existsSync] saw it). *)
Inductive FileState : Type :=
| Missing
| Readable (text : string)
| Unreadable (error : thrown).

(** The environment is an oracle indexed by the number of effects
    performed so far, so that answers may change as the run proceeds. *)
Record World : Type := mkWorld {
  clock : Z;                                    (* Date.now() *)
  trace : list Event;                           (* effects performed so far *)
  git_reply : nat -> GitCmd -> GitReply;        (* the Git client *)
  file_at : nat -> string -> FileState;         (* existsSync / readFileSync *)
  validator_reply : nat -> list string -> Validation;  (* mdxValidator.validateFiles *)
  placeholder_state : bool                      (* PlaceholderStateManager.hasPlaceholders() *)
}.

Definition with_trace (w : World) (t : list Event) : World :=
  mkWorld (clock w) t (git_reply w) (file_at w) (validator_reply w) (placeholder_state w).

Definition with_clock (w : World) (c : Z) : World :=
  mkWorld c (trace w) (git_reply w) (file_at w) (validator_reply w) (placeholder_state w).

Definition record (ev : Event) (w : World) : World :=
  with_trace w (trace w ++ [ev]).

(** Outcome of an awaited computation. *)
Inductive Res (T : Type) : Type :=
| Return (v : T)
| Raise (t : thrown).
Arguments Return {T} v.
Arguments Raise {T} t.

Definition M (T : Type) : Type := World -> Res T * World.

Definition ret {T} (v : T) : M T := fun w => (Return v, w).
Definition throw {T} (t : thrown) : M T := fun w => (Raise t, w).

Definition bind {A B} (m : M A) (k : A -> M B) : M B :=
  fun w => match m w with
           | (Return a, w1) => k a w1
           | (Raise t, w1) => (Raise t, w1)
           end.

(** [try { m } catch (error) { handler(error) }] *)
Definition try_catch {A} (m : M A) (handler : thrown -> M A) : M A :=
  fun w => match m w with
           | (Return a, w1) => (Return a, w1)
           | (Raise t, w1) => handler t w1
           end.

Declare Scope js_scope.
Delimit Scope js_scope with js.
Notation "x <- m ;; k" := (bind m (fun x => k))
  (at level 61, m at next level, right associativity) : js_scope.
Notation "m ;; k" := (bind m (fun _ => k))
  (at level 61, right associativity) : js_scope.
Local Open Scope js_scope.

(** One call into the Git client. *)
Definition git (c : GitCmd) : M GitData :=
  fun w =>
    let w1 := record (EvGit c) w in
    match git_reply w (List.length (trace w)) c with
    | GitOk d => (Return d, w1)
    | GitThrows t => (Raise t, w1)
    end.

(** [await sleep(ms)] *)
Definition sleep (ms : Z) : M unit :=
  fun w => (Return tt, with_clock (record (EvSleep ms) w) (clock w + ms)).

(** [if (fsSync.existsSync(p)) { content = fsSync.readFileSync(p, 'utf-8') }]:
    [None] when nothing is there; the read is not guarded, so what it
    throws is thrown. *)
Definition readIfExists (p : string) : M (option string) :=
  fun w => match file_at w (List.length (trace w)) p with
           | Missing => (Return None, w)
           | Readable text => (Return (Some text), w)
           | Unreadable error => (Raise error, w)
           end.

Definition validateFiles (paths : list string) : M Validation :=
  fun w => (Return (validator_reply w (List.length (trace w)) paths),
            record (EvValidate paths) w).

Definition git_commands (t : list Event) : list GitCmd :=
  flat_map (fun ev => match ev with EvGit c => [c] | _ => [] end) t.

(* ===================================================================== *)
(** ** retry-manager.ts: RetryManager *)
(* ===================================================================== *)

Module RetryManager.

Record RetryOptions : Type := mkRetryOptions {
  maxRetries : Z;
  initialDelay : Z;
  maxDelay : Z;
  backoffFactor : Z;
  onRetry : option (GitSyncError -> Z -> M unit)
}.

(** [Partial<RetryOptions>]: an absent key is [None]. *)
Record PartialRetryOptions : Type := mkPartial {
  p_maxRetries : option Z;
  p_initialDelay : option Z;
  p_maxDelay : option Z;
  p_backoffFactor : option Z;
  p_onRetry : option (GitSyncError -> Z -> M unit)
}.

Definition no_overrides : PartialRetryOptions :=
  mkPartial None None None None None.

Definition DEFAULT_RETRY_OPTIONS : RetryOptions :=
  mkRetryOptions 3 1000 30000 2 None.

Definition pick {A} (override : option A) (base : A) : A :=
  match override with Some v => v | None => base end.

(** [{ ...base, ...custom }] *)
Definition merge (base : RetryOptions) (custom : PartialRetryOptions) : RetryOptions :=
  mkRetryOptions
    (pick (p_maxRetries custom) (maxRetries base))
    (pick (p_initialDelay custom) (initialDelay base))
    (pick (p_maxDelay custom) (maxDelay base))
    (pick (p_backoffFactor custom) (backoffFactor base))
    (match p_onRetry custom with Some f => Some f | None => onRetry base end).

(** [new RetryManager(options)] keeps the merged options. *)
Definition construct (options : PartialRetryOptions) : RetryOptions :=
  merge DEFAULT_RETRY_OPTIONS options.

(** The backoff pause after a failed attempt. *)
Definition delay_for (options : RetryOptions) (attempt : Z) : Z :=
  Z.min (initialDelay options * backoffFactor options ^ attempt) (maxDelay options).

(** Bookkeeping of one [executeWithRetry] run: how often [operation()]
    was called and which pauses were slept, in order. *)
Record Tally : Type := mkTally {
  calls : nat;
  pauses : list Z
}.

Definition exhausted_message (operationName : string) (options : RetryOptions) : string :=
  (operationName ++ " failed after " ++ Js.show (maxRetries options) ++ " retries")%string.

(** The [for] loop; [iterations] is the number of values of [attempt]
    that still satisfy [attempt <= maxRetries]. *)
Fixpoint loop {T} (iterations : nat) (attempt : Z) (lastError : option GitSyncError)
    (options : RetryOptions) (operation : M T) (operationName : string)
    (tally : Tally) (w : World) : (Res T * Tally) * World :=
  match iterations with
  | O =>
      let err := match lastError with
                 | Some e => ThrowGitSync e
                 | None => ThrowOther (Some (exhausted_message operationName options))
                 end in
      ((Raise err, tally), w)
  | S remaining =>
      let tally1 := mkTally (S (calls tally)) (pauses tally) in
      match operation w with
      | (Return v, w1) => ((Return v, tally1), w1)
      | (Raise error, w1) =>
          let lastError := ErrorHandler.handle error in
          if negb (ErrorHandler.shouldRetry lastError)
          then ((Raise (ThrowGitSync lastError), tally1), w1)
          else if attempt =? maxRetries options
          then ((Raise (ThrowGitSync lastError), tally1), w1)
          else
            let delay := delay_for options attempt in
            let notified :=
              match onRetry options with
              | Some callback => callback lastError (attempt + 1) w1
              | None => (Return tt, w1)
              end in
            match notified with
            | (Raise t, w2) => ((Raise t, tally1), w2)
            | (Return _, w2) =>
                let '(_, w3) := sleep delay w2 in
                loop remaining (attempt + 1) (Some lastError) options operation
                     operationName (mkTally (calls tally1) (pauses tally1 ++ [delay])) w3
            end
      end
  end.

Definition executeWithRetry_tally {T} (this_options : RetryOptions) (operation : M T)
    (operationName : string) (customOptions : PartialRetryOptions)
    (w : World) : (Res T * Tally) * World :=
  let options := merge this_options customOptions in
  loop (Z.to_nat (maxRetries options + 1)) 0 None options operation operationName
       (mkTally 0 []) w.

(** [RetryManager.executeWithRetry] *)
Definition executeWithRetry {T} (this_options : RetryOptions) (operation : M T)
    (operationName : string) (customOptions : PartialRetryOptions) : M T :=
  fun w => let '((r, _), w1) :=
             executeWithRetry_tally this_options operation operationName customOptions w in
           (r, w1).

End RetryManager.

(* ===================================================================== *)
(** ** retry-manager.ts: CircuitBreaker *)
(* ===================================================================== *)

Module CircuitBreaker.

Inductive State : Type := CLOSED | OPEN | HALF_OPEN.

Record t : Type := mk {
  failureCount : Z;
  lastFailureTime : option Z;
  state : State;
  failureThreshold : Z;
  resetTimeout : Z
}.

(** [new CircuitBreaker(failureThreshold = 5, resetTimeout = 60000)] *)
Definition construct (failureThreshold resetTimeout : Z) : t :=
  mk 0 None CLOSED failureThreshold resetTimeout.

Definition default : t := construct 5 60000.

Definition set_state (cb : t) (s : State) : t :=
  mk (failureCount cb) (lastFailureTime cb) s (failureThreshold cb) (resetTimeout cb).

Definition onSuccess (cb : t) : t :=
  mk 0 (lastFailureTime cb) CLOSED (failureThreshold cb) (resetTimeout cb).

Definition onFailure (cb : t) (now : Z) : t :=
  let count := failureCount cb + 1 in
  mk count (Some now)
     (if failureThreshold cb <=? count then OPEN else state cb)
     (failureThreshold cb) (resetTimeout cb).

Definition shouldAttemptReset (cb : t) (now : Z) : bool :=
  match lastFailureTime cb with
  | Some last => resetTimeout cb <=? now - last
  | None => false
  end.

Definition circuit_open_error : GitSyncError :=
  mkGitSyncError CIRCUIT_BREAKER_OPEN
    "Circuit breaker is open due to repeated failures" false.

(** The guard at the top of [execute]: [None] when the call is refused. *)
Definition gate (cb : t) (now : Z) : option t :=
  match state cb with
  | OPEN => if shouldAttemptReset cb now then Some (set_state cb HALF_OPEN) else None
  | _ => Some cb
  end.

(** [CircuitBreaker.execute] when no other call of the breaker runs
    between its guard and the settlement of its operation; the breaker
    is threaded next to the world. *)
Definition execute {T} (operation : M T) (cb : t) (w : World) : (Res T * t) * World :=
  match gate cb (clock w) with
  | None => ((Raise (ThrowGitSync circuit_open_error), cb), w)
  | Some cb1 =>
      match operation w with
      | (Return result, w1) => ((Return result, onSuccess cb1), w1)
      | (Raise error, w1) => ((Raise error, onFailure cb1 (clock w1)), w1)
      end
  end.

(** [execute] awaits its operation, so the event loop may run other
    calls of the same breaker between the guard of a call and the
    bookkeeping that follows its operation.  A state holds the breaker,
    the number of calls that passed the guard and whose operation has
    not settled yet, and the number of calls the guard has refused. *)
Record Run : Type := mkRun {
  breaker : t;
  in_flight : nat;
  refused : nat
}.

Definition start (failureThreshold resetTimeout : Z) : Run :=
  mkRun (construct failureThreshold resetTimeout) 0 0.

(** The turns of the event loop that reach the breaker; [now] is what
    [Date.now()] returns in the turn. *)
Inductive Turn : Type :=
| TCall (now : Z)                   (* [execute(operation)] up to [await operation()] *)
| TSettles (ok : bool) (now : Z).   (* the operation of a call under way settles *)

Definition turn (e : Turn) (s : Run) : option Run :=
  match e with
  | TCall now =>
      match gate (breaker s) now with
      | None => Some (mkRun (breaker s) (in_flight s) (S (refused s)))
      | Some cb1 => Some (mkRun cb1 (S (in_flight s)) (refused s))
      end
  | TSettles ok now =>
      match in_flight s with
      | O => None
      | S others =>
          Some (mkRun (if ok then onSuccess (breaker s) else onFailure (breaker s) now)
                      others (refused s))
      end
  end.

(** Runs a schedule of turns; a turn that is not enabled is skipped. *)
Fixpoint run (es : list Turn) (s : Run) : Run :=
  match es with
  | [] => s
  | e :: rest => run rest (match turn e s with Some s1 => s1 | None => s end)
  end.

End CircuitBreaker.

(* ===================================================================== *)
(** ** sync-queue.ts: SyncQueue

    The queue is driven by the event loop.  A state records the queue
    itself, the activations of [process()] that are suspended at an
    [await] (the drains), the promises handed out by [enqueue] together
    with the id their listeners answer to, and the events emitted so far.
    Each function below is one turn of the event loop: it runs the code
    up to its next suspension point.  Operations are asynchronous
    closures, so an operation started in a turn settles in a later one. *)
(* ===================================================================== *)

Module SyncQueue.
Section Queue.

Variable Op : Type.   (* the closure passed to [enqueue] *)
Variable Val : Type.  (* what an operation resolves to *)

Record QueueItem : Type := mkItem {
  id : string;
  operation : Op;
  priority : Z;
  timestamp : Z;
  retries : Z
}.

Inductive Settlement : Type :=
| Pending
| Resolved (v : Val)
| Rejected (t : thrown).

(** The promise returned by an accepted [enqueue]: its two listeners
    react to the first completion or failure event whose id is
    [listens_to], then remove themselves. *)
Record Waiter : Type := mkWaiter {
  listens_to : string;
  promise : Settlement
}.

(** Where an activation of [process()] is suspended. *)
Inductive Drain : Type :=
| AwaitingOperation (item : QueueItem)   (* await item.operation() *)
| Backoff (ms : Z).                      (* await this.sleep(ms) *)

Inductive Emitted : Type :=
| EDuplicate (i : string)
| EEnqueued (i : string) (queueLength : nat)
| EProcessingStarted
| EOperationStarted (i : string)
| EOperationComplete (i : string) (result : Val)
| EOperationFailed (i : string) (error : thrown) (attempts : Z) (spawn_error : bool)
| EOperationRetry (i : string) (attempt : Z) (error : thrown)
| EProcessingComplete
| EQueueCleared (clearedCount : nat)
| EOperationRemoved (i : string).

Record t : Type := mk {
  queue : list QueueItem;
  processing : bool;
  maxRetries : Z;
  drains : list Drain;
  waiters : list Waiter;
  emitted : list Emitted
}.

(** [new SyncQueue(maxRetries = 3)] *)
Definition construct (maxRetries : Z) : t := mk [] false maxRetries [] [] [].

Definition emit (ev : Emitted) (q : t) : t :=
  mk (queue q) (processing q) (maxRetries q) (drains q) (waiters q) (emitted q ++ [ev]).

Definition set_queue (l : list QueueItem) (q : t) : t :=
  mk l (processing q) (maxRetries q) (drains q) (waiters q) (emitted q).

Definition set_processing (b : bool) (q : t) : t :=
  mk (queue q) b (maxRetries q) (drains q) (waiters q) (emitted q).

Definition set_drains (l : list Drain) (q : t) : t :=
  mk (queue q) (processing q) (maxRetries q) l (waiters q) (emitted q).

Definition set_waiters (l : list Waiter) (q : t) : t :=
  mk (queue q) (processing q) (maxRetries q) (drains q) l (emitted q).

Definition is_pending (s : Settlement) : bool :=
  match s with Pending => true | _ => false end.

(** What the listeners of the pending promises do with an event
    carrying id [i]. *)
Definition settle (i : string) (s : Settlement) (ws : list Waiter) : list Waiter :=
  map (fun w => if is_pending (promise w) && String.eqb (listens_to w) i
                then mkWaiter (listens_to w) s else w) ws.

Definition emit_complete (i : string) (result : Val) (q : t) : t :=
  set_waiters (settle i (Resolved result) (waiters q)) (emit (EOperationComplete i result) q).

Definition emit_failed (i : string) (error : thrown) (attempts : Z) (spawn : bool) (q : t) : t :=
  set_waiters (settle i (Rejected error) (waiters q))
              (emit (EOperationFailed i error attempts spawn) q).

Definition has_id (i : string) (l : list QueueItem) : bool :=
  existsb (fun item => String.eqb (id item) i) l.

(** [findIndex(item => item.priority < priority)] followed by the
    [push] or [splice]. *)
Fixpoint insert (item : QueueItem) (l : list QueueItem) : list QueueItem :=
  match l with
  | [] => [item]
  | x :: rest => if priority x <? priority item then item :: x :: rest
                 else x :: insert item rest
  end.

(** The head of the [while] loop of [process()], entered by the drain
    that is running: take the next item and start it, or finish. *)
Definition drain_next (q : t) : t :=
  match queue q with
  | [] => emit EProcessingComplete (set_processing false q)
  | item :: rest =>
      set_drains (drains q ++ [AwaitingOperation item])
                 (emit (EOperationStarted (id item)) (set_queue rest q))
  end.

(** [process()] up to its first [await]. *)
Definition process (q : t) : t :=
  if processing q || (match queue q with [] => true | _ => false end) then q
  else drain_next (emit EProcessingStarted (set_processing true q)).

Inductive EnqueueResult : Type :=
| Refused (error : thrown)       (* Promise.reject(...) *)
| Accepted (waiter : nat).       (* index of the promise among [waiters] *)

Definition duplicate_error (i : string) : thrown :=
  ThrowOther (Some ("Operation with ID " ++ i ++ " already in queue")%string).

Definition generated_id (now : Z) (random : string) : string :=
  ("op-" ++ Js.show now ++ "-" ++ random)%string.

(** [enqueue(operation, priority, id?)]; [now] and [random] are what
    [Date.now()] and [Math.random()] return in this call. *)
Definition enqueue (operation : Op) (priority : Z) (id : option string)
    (now : Z) (random : string) (q : t) : EnqueueResult * t :=
  let key := Js.or_else id (generated_id now random) in
  let item := mkItem key operation priority now 0 in
  let duplicate := match id with
                   | Some i => Js.truthy i && has_id i (queue q)
                   | None => false
                   end in
  if duplicate
  then (Refused (duplicate_error key), emit (EDuplicate key) q)
  else
    let q1 := set_queue (insert item (queue q)) q in
    let q2 := emit (EEnqueued key (List.length (queue q1))) q1 in
    let q3 := process q2 in
    (Accepted (List.length (waiters q3)),
     set_waiters (waiters q3 ++ [mkWaiter key Pending]) q3).

(** [clear()] *)
Definition clear (q : t) : t :=
  emit (EQueueCleared (List.length (queue q))) (set_queue [] q).

Fixpoint remove_first (i : string) (l : list QueueItem) : option (list QueueItem) :=
  match l with
  | [] => None
  | x :: rest => if String.eqb (id x) i then Some rest
                 else option_map (cons x) (remove_first i rest)
  end.

(** [remove(id)] *)
Definition remove (i : string) (q : t) : bool * t :=
  match remove_first i (queue q) with
  | Some l => (true, emit (EOperationRemoved i) (set_queue l q))
  | None => (false, q)
  end.

Definition isSpawnError (error : thrown) : bool :=
  let errorMessage := match message_of error with
                      | Some m => Js.toLowerCase m
                      | None => ""
                      end in
  Js.includes errorMessage "spawn eio" || Js.includes errorMessage "spawn EIO".

Fixpoint drop_nth {A} (k : nat) (l : list A) : list A :=
  match k, l with
  | _, [] => []
  | O, _ :: rest => rest
  | S k', x :: rest => x :: drop_nth k' rest
  end.

Fixpoint replace_nth {A} (k : nat) (a : A) (l : list A) : list A :=
  match k, l with
  | _, [] => []
  | O, _ :: rest => a :: rest
  | S k', x :: rest => x :: replace_nth k' a rest
  end.

(** The body of the loop after [await item.operation()] has settled,
    for the drain at position [k]. *)
Definition after_operation (k : nat) (item : QueueItem) (outcome : Res Val) (q : t) : t :=
  match outcome with
  | Return result =>
      drain_next (set_drains (drop_nth k (drains q)) (emit_complete (id item) result q))
  | Raise error =>
      if isSpawnError error then
        let q1 := emit_failed (id item) error (retries item) true q in
        let q2 := clear q1 in
        drain_next (set_drains (drop_nth k (drains q2)) q2)
      else
        let item1 := mkItem (id item) (operation item) (priority item) (timestamp item)
                            (retries item + 1) in
        if retries item1 <? maxRetries q then
          let q1 := set_queue (item1 :: queue q) q in
          let q2 := emit (EOperationRetry (id item1) (retries item1) error) q1 in
          set_drains (replace_nth k (Backoff (2 ^ retries item1 * 1000)) (drains q2)) q2
        else
          let q1 := emit_failed (id item1) error (retries item1) false q in
          drain_next (set_drains (drop_nth k (drains q1)) q1)
  end.

(** The operation awaited by drain [k] settles with [outcome]. *)
Definition operation_settles (k : nat) (outcome : Res Val) (q : t) : option t :=
  match nth_error (drains q) k with
  | Some (AwaitingOperation item) => Some (after_operation k item outcome q)
  | _ => None
  end.

(** The backoff sleep of drain [k] is over: back to the loop head. *)
Definition backoff_over (k : nat) (q : t) : option t :=
  match nth_error (drains q) k with
  | Some (Backoff _) => Some (drain_next (set_drains (drop_nth k (drains q)) q))
  | _ => None
  end.

(** Number of operations that are executing. *)
Definition in_flight (q : t) : nat :=
  List.length (filter (fun d => match d with AwaitingOperation _ => true | _ => false end)
                      (drains q)).

Definition promise_of (w : nat) (q : t) : Settlement :=
  match nth_error (waiters q) w with
  | Some x => promise x
  | None => Pending
  end.

(** The turns of the event loop that concern one queue. *)
Inductive Turn : Type :=
| TEnqueue (operation : Op) (priority : Z) (id : option string) (now : Z) (random : string)
| TSettles (k : nat) (outcome : Res Val)
| TBackoffOver (k : nat)
| TClear
| TRemove (i : string).

Definition turn (e : Turn) (q : t) : option t :=
  match e with
  | TEnqueue op p i now random => Some (snd (enqueue op p i now random q))
  | TSettles k outcome => operation_settles k outcome q
  | TBackoffOver k => backoff_over k q
  | TClear => Some (clear q)
  | TRemove i => Some (snd (remove i q))
  end.

(** Runs a schedule of turns; a turn that is not enabled is skipped. *)
Fixpoint run (es : list Turn) (q : t) : t :=
  match es with
  | [] => q
  | e :: rest => run rest (match turn e q with Some q1 => q1 | None => q end)
  end.

Definition reachable (maxRetries : Z) (q : t) : Prop :=
  exists es, q = run es (construct maxRetries).

End Queue.

Arguments mkItem {Op}.
Arguments id {Op}.
Arguments operation {Op}.
Arguments priority {Op}.
Arguments timestamp {Op}.
Arguments retries {Op}.
Arguments Pending {Val}.
Arguments Resolved {Val}.
Arguments Rejected {Val}.
Arguments mkWaiter {Val}.
Arguments listens_to {Val}.
Arguments promise {Val}.
Arguments AwaitingOperation {Op}.
Arguments EDuplicate {Val}.
Arguments EEnqueued {Val}.
Arguments EProcessingStarted {Val}.
Arguments EOperationStarted {Val}.
Arguments EOperationComplete {Val}.
Arguments EOperationFailed {Val}.
Arguments EOperationRetry {Val}.
Arguments EProcessingComplete {Val}.
Arguments EQueueCleared {Val}.
Arguments EOperationRemoved {Val}.
Arguments Backoff {Op}.
Arguments mk {Op Val}.
Arguments queue {Op Val}.
Arguments processing {Op Val}.
Arguments maxRetries {Op Val}.
Arguments drains {Op Val}.
Arguments waiters {Op Val}.
Arguments emitted {Op Val}.
Arguments construct {Op Val}.
Arguments emit {Op Val}.
Arguments set_queue {Op Val}.
Arguments set_processing {Op Val}.
Arguments set_drains {Op Val}.
Arguments set_waiters {Op Val}.
Arguments is_pending {Val}.
Arguments settle {Val}.
Arguments emit_complete {Op Val}.
Arguments emit_failed {Op Val}.
Arguments has_id {Op}.
Arguments insert {Op}.
Arguments drain_next {Op Val}.
Arguments process {Op Val}.
Arguments enqueue {Op Val}.
Arguments clear {Op Val}.
Arguments remove_first {Op}.
Arguments remove {Op Val}.
Arguments after_operation {Op Val}.
Arguments operation_settles {Op Val}.
Arguments backoff_over {Op Val}.
Arguments in_flight {Op Val}.
Arguments promise_of {Op Val}.
Arguments TEnqueue {Op Val}.
Arguments TSettles {Op Val}.
Arguments TBackoffOver {Op Val}.
Arguments TClear {Op Val}.
Arguments TRemove {Op Val}.
Arguments turn {Op Val}.
Arguments run {Op Val}.
Arguments reachable {Op Val}.

End SyncQueue.

(* ===================================================================== *)
(** ** sync-queue.ts: DebouncedSyncQueue (extends SyncQueue) *)
(* ===================================================================== *)

Module DebouncedSyncQueue.
Section Debounced.

Variable Op : Type.
Variable Val : Type.

(** What became of one [enqueueDebounced] call, i.e. of the timer it
    armed and of the promise it returned. *)
Inductive Call : Type :=
| Armed                                    (* the timer is still to fire *)
| Cancelled                                (* clearTimeout got there first *)
| Forwarded (waiter : nat) (finished : bool)  (* awaiting this.enqueue(...) *)
| Bounced (error : thrown)                 (* this.enqueue(...) rejected *)
| Lapsed.                                  (* fired with no pendingOperation *)

Record t : Type := mk {
  base : SyncQueue.t Op Val;
  debounceMs : Z;
  debounceTimer : option nat;
  pendingOperation : option Op;
  calls : list Call
}.

(** [new DebouncedSyncQueue(debounceMs = 5000, maxRetries = 3)] *)
Definition construct (debounceMs maxRetries : Z) : t :=
  mk (SyncQueue.construct maxRetries) debounceMs None None [].

Definition reserved_id : string := "debounced-sync".

(** [clearTimeout(handle)]: only a timer that has not fired is affected. *)
Definition clearTimeout (handle : nat) (l : list Call) : list Call :=
  match nth_error l handle with
  | Some Armed => SyncQueue.replace_nth handle Cancelled l
  | _ => l
  end.

(** [enqueueDebounced(operation)]: returns the index of the new call. *)
Definition enqueueDebounced (operation : Op) (d : t) : nat * t :=
  let cleared := match debounceTimer d with
                 | Some handle => clearTimeout handle (calls d)
                 | None => calls d
                 end in
  let handle := List.length cleared in
  (handle, mk (base d) (debounceMs d) (Some handle) (Some operation) (cleared ++ [Armed])).

(** The [finally] clause of every callback whose awaited promise has
    settled by now. *)
Definition settled_now (b : SyncQueue.t Op Val) (c : Call) : bool :=
  match c with
  | Forwarded w false => negb (SyncQueue.is_pending (SyncQueue.promise_of w b))
  | _ => false
  end.

Definition finish (c : Call) : Call :=
  match c with
  | Forwarded w _ => Forwarded w true
  | other => other
  end.

Definition run_finally (d : t) : t :=
  if existsb (settled_now (base d)) (calls d)
  then mk (base d) (debounceMs d) (debounceTimer d) None
          (map (fun c => if settled_now (base d) c then finish c else c) (calls d))
  else d.

(** The timer of call [n] fires and its callback runs. *)
Definition timer_fires (n : nat) (now : Z) (random : string) (d : t) : option t :=
  match nth_error (calls d) n with
  | Some Armed =>
      match pendingOperation d with
      | Some operation =>
          match SyncQueue.enqueue operation 0 (Some reserved_id) now random (base d) with
          | (SyncQueue.Refused error, b) =>
              Some (mk b (debounceMs d) (debounceTimer d) None
                       (SyncQueue.replace_nth n (Bounced error) (calls d)))
          | (SyncQueue.Accepted w, b) =>
              Some (mk b (debounceMs d) (debounceTimer d) (pendingOperation d)
                       (SyncQueue.replace_nth n (Forwarded w false) (calls d)))
          end
      | None =>
          Some (mk (base d) (debounceMs d) (debounceTimer d) None
                   (SyncQueue.replace_nth n Lapsed (calls d)))
      end
  | _ => None
  end.

(** A turn of the inherited queue, followed by the callbacks it wakes. *)
Definition base_turn (e : SyncQueue.Turn Op Val) (d : t) : option t :=
  match SyncQueue.turn e (base d) with
  | Some b => Some (run_finally (mk b (debounceMs d) (debounceTimer d)
                                    (pendingOperation d) (calls d)))
  | None => None
  end.

(** The promise returned by call [n]. *)
Definition promise_of (n : nat) (d : t) : SyncQueue.Settlement Val :=
  match nth_error (calls d) n with
  | Some (Forwarded w _) => SyncQueue.promise_of w (base d)
  | Some (Bounced error) => SyncQueue.Rejected error
  | _ => SyncQueue.Pending
  end.

Inductive Turn : Type :=
| TCall (operation : Op)
| TFire (n : nat) (now : Z) (random : string)
| TBase (e : SyncQueue.Turn Op Val).

Definition turn (e : Turn) (d : t) : option t :=
  match e with
  | TCall operation => Some (snd (enqueueDebounced operation d))
  | TFire n now random => timer_fires n now random d
  | TBase b => base_turn b d
  end.

Fixpoint run (es : list Turn) (d : t) : t :=
  match es with
  | [] => d
  | e :: rest => run rest (match turn e d with Some d1 => d1 | None => d end)
  end.

End Debounced.

Arguments mk {Op Val}.
Arguments base {Op Val}.
Arguments debounceMs {Op Val}.
Arguments debounceTimer {Op Val}.
Arguments pendingOperation {Op Val}.
Arguments calls {Op Val}.
Arguments construct {Op Val}.
Arguments enqueueDebounced {Op Val}.
Arguments settled_now {Op Val}.
Arguments run_finally {Op Val}.
Arguments timer_fires {Op Val}.
Arguments base_turn {Op Val}.
Arguments promise_of {Op Val}.
Arguments TCall {Op Val}.
Arguments TFire {Op Val}.
Arguments TBase {Op Val}.
Arguments turn {Op Val}.
Arguments run {Op Val}.

End DebouncedSyncQueue.

(* ===================================================================== *)
(** ** git-sync-manager.ts: GitSyncManager *)
(* ===================================================================== *)

Module GitSyncManager.

Inductive SyncDirection : Type := pull_direction | push_direction | sync_direction.
Inductive ConflictResolution : Type := ours | theirs | manual.

(** The part of [Required<PluginOptions>] the sync sequences read. *)
Record Options : Type := mkOptions {
  branch : string;
  syncDirection : SyncDirection;
  commitMessage : string;
  conflictResolution : ConflictResolution;
  validateBeforeCommit : bool;
  skipInvalidFiles : bool
}.

Definition conflictResolution_name (c : ConflictResolution) : string :=
  match c with ours => "ours" | theirs => "theirs" | manual => "manual" end.

(** The retry manager built by the constructor; its [onRetry] only
    writes to the console. *)
Definition retryManager : RetryManager.RetryOptions :=
  RetryManager.construct
    (RetryManager.mkPartial (Some 3) (Some 1000) (Some 10000) None
                            (Some (fun _ _ => ret tt))).

Definition GitOperationError (c : ErrorCode) (m : string) (recoverable : bool) : thrown :=
  ThrowGitSync (mkGitSyncError c m recoverable).

Definition PLACEHOLDER_MARKER : string := "DOCUSAURUS_PLACEHOLDER_DO_NOT_COMMIT".

Definition is_markdown (file : string) : bool :=
  Js.endsWith file ".md" || Js.endsWith file ".mdx".

(** The loop shared by [hasPlaceholderFiles] and
    [hasAnyPlaceholderFiles]; paths are relative to the content
    directory. *)
Fixpoint scan_for_placeholder (mdxFiles : list string) : M bool :=
  match mdxFiles with
  | [] => ret false
  | file :: rest =>
      content <- readIfExists file ;;
      match content with
      | Some text => if Js.includes text PLACEHOLDER_MARKER then ret true
                     else scan_for_placeholder rest
      | None => scan_for_placeholder rest
      end
  end.

(** [hasPlaceholderFiles(files)] *)
Definition hasPlaceholderFiles (files : list string) : M bool :=
  scan_for_placeholder (filter is_markdown files).

(** [text.split('\n')] *)
Fixpoint split_lines (text : string) : list string :=
  match text with
  | EmptyString => [EmptyString]
  | String c rest =>
      if Ascii.eqb c "010"%char then EmptyString :: split_lines rest
      else match split_lines rest with
           | line :: others => String c line :: others
           | [] => [String c EmptyString]
           end
  end.

(** [[...new Set(l)]]: first occurrences, in order. *)
Fixpoint dedupe_from (seen l : list string) : list string :=
  match l with
  | [] => []
  | x :: rest => if existsb (String.eqb x) seen then dedupe_from seen rest
                 else x :: dedupe_from (x :: seen) rest
  end.

(** [hasAnyPlaceholderFiles()] *)
Definition hasAnyPlaceholderFiles : M bool :=
  try_catch
    (status <- git GitStatus ;;
     trackedFiles <- git (GitRaw ["ls-files"]) ;;
     let allFiles := status_files status in
     let trackedFilesList := filter Js.truthy (split_lines (output trackedFiles)) in
     let filesToCheck := dedupe_from [] (allFiles ++ trackedFilesList) in
     scan_for_placeholder (filter is_markdown filesToCheck))
    (fun _ => ret false).

Definition has_files (d : GitData) : bool :=
  match status_files d with [] => false | _ => true end.

(** The handler of a failed [git stash pop] after a successful pull. *)
Definition on_pop_failure (o : Options) (error : thrown) : M unit :=
  if message_includes error "No stash entries found" then ret tt
  else if message_includes error "conflict" then
    throw (GitOperationError GIT_MERGE_CONFLICT
             "Conflict when applying local changes after pull" false)
  else throw error.

Definition pull_strategy (o : Options) : list string :=
  match conflictResolution o with
  | theirs => ["--rebase=false"; "--strategy=recursive"; "--strategy-option=theirs"]
  | ours => ["--rebase=true"; "--strategy-option=ours"]
  | manual => ["--rebase=true"]
  end.

Definition stash_push_for_pull : GitCmd :=
  GitStash ["push"; "-m"; "Git sync: temporary stash for pull"].
Definition stash_pop : GitCmd := GitStash ["pop"].

(** The operation [pull] hands to the retry manager. *)
Definition pull_operation (o : Options) : M unit :=
  status <- git GitStatus ;;
  let hasLocalChanges := has_files status in
  stashed <- (if hasLocalChanges
              then (git stash_push_for_pull ;; ret true)
              else ret false) ;;
  try_catch
    (git (GitRaw (["pull"; "origin"; branch o] ++ pull_strategy o)) ;;
     if stashed : bool
     then try_catch (git stash_pop ;; ret tt) (on_pop_failure o)
     else ret tt)
    (fun error =>
       (if stashed : bool
        then try_catch (git stash_pop ;; ret tt) (fun _ => ret tt)
        else ret tt) ;;
       if message_includes error "merge conflict"
       then throw (GitOperationError GIT_MERGE_CONFLICT
                     "Merge conflict during pull operation" false)
       else throw error).

(** [pull()] *)
Definition pull (o : Options) : M unit :=
  RetryManager.executeWithRetry retryManager (pull_operation o)
    "Git pull operation" RetryManager.no_overrides.

Definition pull_tally (o : Options) (w : World) : (Res unit * RetryManager.Tally) * World :=
  RetryManager.executeWithRetry_tally retryManager (pull_operation o)
    "Git pull operation" RetryManager.no_overrides w.

(** [for (const error of validation.errors) await git.reset(['HEAD', error.file])] *)
Fixpoint unstage_invalid (errs : list (string * string)) : M unit :=
  match errs with
  | [] => ret tt
  | (file, _) :: rest => git (GitReset ["HEAD"; file]) ;; unstage_invalid rest
  end.

Definition validation_failed_message (errs : list (string * string)) : string :=
  ("MDX validation failed:" ++ String "010"%char
     (String.concat (String "010"%char EmptyString)
        (map (fun e => fst e ++ ": " ++ snd e) errs)))%string.

(** How a block of [push]'s operation ends: fall through to the next
    statement, or [return] from the operation. *)
Inductive Flow : Type := Proceed | ReturnEarly.

(** The validation block of [push]. *)
Definition push_validation (o : Options) (status : GitData) : M Flow :=
  if validateBeforeCommit o then
    let filesToValidate := filter is_markdown (status_files status) in
    match filesToValidate with
    | [] => ret Proceed
    | _ =>
        validation <- validateFiles filesToValidate ;;
        if valid validation then ret Proceed
        else if skipInvalidFiles o then
          unstage_invalid (errors validation) ;;
          newStatus <- git GitStatus ;;
          if has_files newStatus then ret Proceed else ret ReturnEarly
        else
          throw (GitOperationError GIT_COMMIT_FAILED
                   (validation_failed_message (errors validation)) false)
    end
  else ret Proceed.

(** The commit block of [push]. *)
Definition push_commit (o : Options) (status : GitData) : M Flow :=
  try_catch
    (placeholder <- hasPlaceholderFiles (status_files status) ;;
     if placeholder : bool then ret ReturnEarly
     else (git (GitAdd ".") ;; git (GitCommit (commitMessage o)) ;; ret Proceed))
    (fun _ => throw (GitOperationError GIT_COMMIT_FAILED "Failed to commit changes" false)).

Definition push_to_remote (o : Options) : M unit :=
  try_catch
    (git (GitPush ["origin"; branch o]) ;; ret tt)
    (fun error =>
       if message_includes error "non-fast-forward"
       then throw (GitOperationError GIT_PUSH_FAILED
                     "Push rejected: remote contains work that you do not have locally" true)
       else throw error).

(** The operation [push] hands to the retry manager. *)
Definition push_operation (o : Options) : M unit :=
  status <- git GitStatus ;;
  flow <- (if has_files status then
             validated <- push_validation o status ;;
             match validated with
             | ReturnEarly => ret ReturnEarly
             | Proceed => push_commit o status
             end
           else ret Proceed) ;;
  match flow with
  | ReturnEarly => ret tt
  | Proceed => push_to_remote o
  end.

(** [push()] *)
Definition push (o : Options) : M unit :=
  RetryManager.executeWithRetry retryManager (push_operation o)
    "Git push operation" RetryManager.no_overrides.

(** "Check for placeholder files before committing", as it occurs four
    times in [syncBidirectional]; the result is [shouldPush]. *)
Definition commit_unless_placeholder (o : Options) (files : list string) : M bool :=
  placeholder <- hasPlaceholderFiles files ;;
  if placeholder : bool then ret false
  else (git (GitAdd ".") ;; git (GitCommit (commitMessage o)) ;; ret true).

Definition sync_pull_args (o : Options) : list string :=
  ["pull"; "origin"; branch o] ++
  match conflictResolution o with
  | manual => ["--rebase=false"]
  | c => ["--rebase=false"; "--strategy=recursive";
          ("--strategy-option=" ++ conflictResolution_name c)%string]
  end.

(** Step 6 of [syncBidirectional]. *)
Definition sync_commit_step (o : Options) (statusAfterPull : GitData) : M bool :=
  if has_files statusAfterPull then
    if validateBeforeCommit o then
      let filesToValidate := filter is_markdown (status_files statusAfterPull) in
      match filesToValidate with
      | [] => commit_unless_placeholder o (status_files statusAfterPull)
      | _ =>
          validation <- validateFiles filesToValidate ;;
          if valid validation
          then commit_unless_placeholder o (status_files statusAfterPull)
          else if skipInvalidFiles o then
            unstage_invalid (errors validation) ;;
            newStatus <- git GitStatus ;;
            if has_files newStatus
            then commit_unless_placeholder o (status_files newStatus)
            else ret false
          else
            throw (ThrowOther (Some (validation_failed_message (errors validation))))
      end
    else commit_unless_placeholder o (status_files statusAfterPull)
  else ret false.

(** [syncBidirectional()]; the outer [try/catch] only logs and rethrows. *)
Definition syncBidirectional (o : Options) : M unit :=
  (* Step 1 *)
  let hasPlaceholderState := fun w : World => (Return (placeholder_state w), w) in
  _ <- hasPlaceholderState ;;
  _ <- hasAnyPlaceholderFiles ;;
  (* Step 2 *)
  git (GitFetch "origin" (branch o)) ;;
  (* Step 3 *)
  status <- git GitStatus ;;
  stashed <- (if has_files status
              then (git (GitStash ["push"; "-m"; "Git sync: temporary stash"]) ;; ret true)
              else ret false) ;;
  (* Step 4 *)
  try_catch
    (localRef <- git (GitRevparse ["HEAD"]) ;;
     remoteRef <- git (GitRevparse [("origin/" ++ branch o)%string]) ;;
     if String.eqb (output localRef) (output remoteRef) then ret tt
     else (git (GitRaw (sync_pull_args o)) ;; ret tt))
    (fun _ => ret tt) ;;
  (* Step 5 *)
  (if stashed : bool
   then try_catch (git stash_pop ;; ret tt) (on_pop_failure o)
   else ret tt) ;;
  (* Step 6 *)
  statusAfterPull <- git GitStatus ;;
  shouldPush <- sync_commit_step o statusAfterPull ;;
  (* Step 7 *)
  if shouldPush : bool
  then (git (GitPush ["--set-upstream"; "origin"; branch o]) ;; ret tt)
  else ret tt.

(** *** performSync and the two queues *)

(** The closure [syncOperation] built by one [performSync] call; all it
    captures besides the manager is the override. *)
Record SyncOperation : Type := mkSyncOperation {
  overrideSyncDirection : option SyncDirection
}.

(** The body handed to the circuit breaker by [syncOperation]. *)
Definition sync_body (o : Options) (op : SyncOperation) : M unit :=
  match match overrideSyncDirection op with
        | Some d => d
        | None => syncDirection o
        end with
  | pull_direction => pull o
  | push_direction => push o
  | sync_direction => syncBidirectional o
  end.

Record t : Type := mk {
  isDisabled : bool;
  syncQueue : SyncQueue.t SyncOperation unit;
  debouncedQueue : DebouncedSyncQueue.t SyncOperation unit
}.

(** The queues as the constructor builds them. *)
Definition construct : t :=
  mk false (SyncQueue.construct 3) (DebouncedSyncQueue.construct 5000 3).

Definition disable (m : t) : t := mk true (syncQueue m) (debouncedQueue m).

(** [performSync(priority = 0, debounced = false, overrideSyncDirection?)] *)
Definition performSync (priority : Z) (debounced : bool)
    (override : option SyncDirection) (now : Z) (random : string) (m : t) : t :=
  if isDisabled m then m
  else
    let syncOperation := mkSyncOperation override in
    if debounced
    then mk (isDisabled m) (syncQueue m)
            (snd (DebouncedSyncQueue.enqueueDebounced syncOperation (debouncedQueue m)))
    else mk (isDisabled m)
            (snd (SyncQueue.enqueue syncOperation priority
                    (Some ("sync-" ++ Js.show now)%string) now random (syncQueue m)))
            (debouncedQueue m).

(** The tail of [shutdown()] that concerns the queues. *)
Definition shutdown (m : t) : t :=
  mk (isDisabled m) (SyncQueue.clear (syncQueue m))
     (DebouncedSyncQueue.mk (SyncQueue.clear (DebouncedSyncQueue.base (debouncedQueue m)))
        (DebouncedSyncQueue.debounceMs (debouncedQueue m))
        (DebouncedSyncQueue.debounceTimer (debouncedQueue m))
        (DebouncedSyncQueue.pendingOperation (debouncedQueue m))
        (DebouncedSyncQueue.calls (debouncedQueue m))).

(** The turns of the event loop that reach the manager's queues: the
    triggers (timer tick, webhook, manual command, file change) all
    arrive as [performSync]. *)
Inductive Turn : Type :=
| TPerformSync (priority : Z) (debounced : bool) (override : option SyncDirection)
               (now : Z) (random : string)
| TDebounceFires (n : nat) (now : Z) (random : string)
| TSyncQueue (k : nat) (outcome : option (Res unit))        (* Some: the operation of drain k
                                                             settles; None: its backoff ends *)
| TDebouncedQueue (k : nat) (outcome : option (Res unit))
| TDisable
| TShutdown.

Definition queue_turn (k : nat) (outcome : option (Res unit)) : SyncQueue.Turn SyncOperation unit :=
  match outcome with
  | Some r => SyncQueue.TSettles k r
  | None => SyncQueue.TBackoffOver k
  end.

Definition turn (e : Turn) (m : t) : option t :=
  match e with
  | TPerformSync p d o now random => Some (performSync p d o now random m)
  | TDebounceFires n now random =>
      option_map (mk (isDisabled m) (syncQueue m))
                 (DebouncedSyncQueue.timer_fires n now random (debouncedQueue m))
  | TSyncQueue k outcome =>
      option_map (fun q => mk (isDisabled m) q (debouncedQueue m))
                 (SyncQueue.turn (queue_turn k outcome) (syncQueue m))
  | TDebouncedQueue k outcome =>
      option_map (mk (isDisabled m) (syncQueue m))
                 (DebouncedSyncQueue.base_turn (queue_turn k outcome) (debouncedQueue m))
  | TDisable => Some (disable m)
  | TShutdown => Some (shutdown m)
  end.

Fixpoint run (es : list Turn) (m : t) : t :=
  match es with
  | [] => m
  | e :: rest => run rest (match turn e m with Some m1 => m1 | None => m end)
  end.

Definition reachable (m : t) : Prop := exists es, m = run es construct.

(** Number of sync operations (Git mutation sequences) executing. *)
Definition executing (m : t) : nat :=
  (SyncQueue.in_flight (syncQueue m)
   + SyncQueue.in_flight (DebouncedSyncQueue.base (debouncedQueue m)))%nat.

End GitSyncManager.

(* ===================================================================== *)
(** ** JSON values as JavaScript sees them after [JSON.parse] *)
(* ===================================================================== *)

Module Json.

#[local] Unset Elimination Schemes.
Inductive json : Type :=
| JNull
| JBool (b : bool)
| JNumber (z : Z)
| JString (s : string)
| JArray (items : list json)
| JObject (fields : list (string * json)).
#[local] Set Elimination Schemes.

(** A JavaScript value reachable from parsed JSON: [None] is [undefined]. *)
Definition value : Type := option json.

Definition truthy (v : value) : bool :=
  match v with
  | None | Some JNull | Some (JBool false) => false
  | Some (JNumber z) => negb (z =? 0)
  | Some (JString s) => Js.truthy s
  | Some _ => true
  end.

Definition nullish (v : value) : bool :=
  match v with None | Some JNull => true | _ => false end.

Fixpoint lookup (k : string) (fields : list (string * json)) : value :=
  match fields with
  | [] => None
  | (name, v) :: rest => if String.eqb name k then Some v else lookup k rest
  end.

(** [v.k] for the property names the listener reads (none of which is
    a built-in of strings or arrays); [None] is a [TypeError]. *)
Definition prop (v : value) (k : string) : option value :=
  match v with
  | None | Some JNull => None
  | Some (JObject fields) => Some (lookup k fields)
  | Some _ => Some None
  end.

(** [v?.k] *)
Definition opt_prop (v : value) (k : string) : option value :=
  if nullish v then Some None else prop v k.

(** [v?.[0]] *)
Definition opt_first (v : value) : option value :=
  match v with
  | None | Some JNull => Some None
  | Some (JArray items) => Some (hd_error items)
  | Some (JString s) =>
      Some (match s with
            | EmptyString => None
            | String c _ => Some (JString (String c EmptyString))
            end)
  | Some (JObject fields) => Some (lookup "0" fields)
  | Some _ => Some None
  end.

(** [a || b] *)
Definition or (a b : value) : value := if truthy a then a else b.

(** [[...(v || [])]]: the spread of an iterable; [None] is a
    [TypeError]. *)
Definition spread_or_empty (v : value) : option (list json) :=
  if truthy v then
    match v with
    | Some (JArray items) => Some items
    | Some (JString s) =>
        Some (map (fun c => JString (String c EmptyString)) (list_ascii_of_string s))
    | _ => None
    end
  else Some [].

End Json.

(* ===================================================================== *)
(** ** webhook-server-improved.ts: the normalised event *)
(* ===================================================================== *)

Inductive Provider : Type := github | bitbucket | unknown.

Definition Provider_name (p : Provider) : string :=
  match p with github => "github" | bitbucket => "bitbucket" | unknown => "unknown" end.

Record Commit : Type := mkCommit {
  commit_id : Json.value;
  commit_message : Json.value;
  commit_author : Json.value;
  commit_files : list Json.json
}.

Record WebhookPayload : Type := mkWebhookPayload {
  provider : Provider;
  event : string;
  payload_branch : Json.value;
  repository : Json.value;
  commits : option (list Commit);
  raw : Json.json
}.

(* ===================================================================== *)
(** ** webhook-queue.ts: WebhookQueue *)
(* ===================================================================== *)

Module WebhookQueue.

Inductive Status : Type := pending | in_processing | completed | failed.

Record QueuedWebhook : Type := mkQueued {
  id : string;
  payload : WebhookPayload;
  timestamp : Z;
  retries : Z;
  status : Status;
  error : option string   (* the message of the last failure, when it has one *)
}.

Record t : Type := mk {
  queue : list QueuedWebhook;
  processing : bool;
  maxQueueSize : Z;
  maxRetries : Z;
  processInterval : Z;
  timer : bool;                           (* the interval is armed *)
  processor_calls : list WebhookPayload   (* calls of [processor] so far *)
}.

(** [option || fallback] on an optional number. *)
Definition number_or (v : option Z) (fallback : Z) : Z :=
  match v with
  | Some z => if z =? 0 then fallback else z
  | None => fallback
  end.

Definition construct (maxQueueSize maxRetries processInterval : option Z) : t :=
  mk [] false (number_or maxQueueSize 100) (number_or maxRetries 3)
     (number_or processInterval 1000) false [].

Definition generateId (now : Z) (random : string) : string :=
  ("wh_" ++ Js.show now ++ "_" ++ random)%string.

Definition set_queue (l : list QueuedWebhook) (q : t) : t :=
  mk l (processing q) (maxQueueSize q) (maxRetries q) (processInterval q) (timer q)
     (processor_calls q).

(** [stop()] *)
Definition stop (q : t) : t :=
  mk (queue q) false (maxQueueSize q) (maxRetries q) (processInterval q) false
     (processor_calls q).

Definition is_pending (w : QueuedWebhook) : bool :=
  match status w with pending => true | _ => false end.
Definition is_in_processing (w : QueuedWebhook) : bool :=
  match status w with in_processing => true | _ => false end.

Definition with_status (w : QueuedWebhook) (s : Status) : QueuedWebhook :=
  mkQueued (id w) (payload w) (timestamp w) (retries w) s (error w).

(** Marks the first pending webhook as being processed. *)
Fixpoint claim_first_pending (l : list QueuedWebhook)
  : option (QueuedWebhook * list QueuedWebhook) :=
  match l with
  | [] => None
  | w :: rest =>
      if is_pending w then Some (w, with_status w in_processing :: rest)
      else match claim_first_pending rest with
           | Some (found, rest1) => Some (found, w :: rest1)
           | None => None
           end
  end.

(** [processNext()] up to [await this.processor(...)]. *)
Definition processNext (q : t) : t :=
  match claim_first_pending (queue q) with
  | None => if existsb is_in_processing (queue q) then q else stop q
  | Some (webhook, l) =>
      mk l (processing q) (maxQueueSize q) (maxRetries q) (processInterval q) (timer q)
         (processor_calls q ++ [payload webhook])
  end.

(** [startProcessing()] *)
Definition startProcessing (q : t) : t :=
  if processing q then q
  else processNext (mk (queue q) true (maxQueueSize q) (maxRetries q) (processInterval q)
                       true (processor_calls q)).

(** [enqueue(payload)]: [None] is [null]. *)
Definition enqueue (p : WebhookPayload) (now : Z) (random : string) (q : t)
  : option string * t :=
  if maxQueueSize q <=? Z.of_nat (List.length (queue q)) then (None, q)
  else
    let webhook := mkQueued (generateId now random) p now 0 pending None in
    (Some (id webhook), startProcessing (set_queue (queue q ++ [webhook]) q)).

(** [cleanup()] *)
Definition cleanup (now : Z) (q : t) : t :=
  let oneHourAgo := now - 60 * 60 * 1000 in
  set_queue (filter (fun webhook =>
                       match status webhook with
                       | pending | in_processing => true
                       | _ => oneHourAgo <? timestamp webhook
                       end) (queue q)) q.

(** The processor call made for the webhook with id [i] settles;
    [roll] tells whether [Math.random() < 0.1]. *)
Definition processor_settles (i : string) (outcome : Res unit) (roll : bool) (now : Z)
    (q : t) : t :=
  let update (w : QueuedWebhook) :=
    if String.eqb (id w) i && is_in_processing w then
      match outcome with
      | Return _ => with_status w completed
      | Raise e =>
          let n := retries w + 1 in
          mkQueued (id w) (payload w) (timestamp w) n
                   (if n <? maxRetries q then pending else failed)
                   (message_of e)
      end
    else w in
  let q1 := set_queue (map update (queue q)) q in
  match outcome with
  | Return _ => if roll then cleanup now q1 else q1
  | Raise _ => q1
  end.

Definition Status_eqb (a b : Status) : bool :=
  match a, b with
  | pending, pending | in_processing, in_processing
  | completed, completed | failed, failed => true
  | _, _ => false
  end.

(** [this.queue.filter(w => w.status === s).length] *)
Definition count (s : Status) (l : list QueuedWebhook) : nat :=
  List.length (filter (fun w => Status_eqb (status w) s) l).

(** [l.slice(-n)] *)
Definition slice_last {A} (n : nat) (l : list A) : list A :=
  skipn (List.length l - n) l.

Record QueueStatus : Type := mkQueueStatus {
  status_size : nat;
  status_pending : nat;
  status_processing : nat;
  status_completed : nat;
  status_failed : nat;
  status_webhooks : list QueuedWebhook
}.

(** [getStatus()] *)
Definition getStatus (q : t) : QueueStatus :=
  mkQueueStatus (List.length (queue q))
                (count pending (queue q)) (count in_processing (queue q))
                (count completed (queue q)) (count failed (queue q))
                (slice_last 20 (queue q)).

End WebhookQueue.

(* ===================================================================== *)
(** ** webhook-server-improved.ts: WebhookServer *)
(* ===================================================================== *)

Module WebhookServer.

(** The platform functions the listener calls. *)
Record Platform : Type := mkPlatform {
  JSON_parse : string -> option Json.json;            (* None: SyntaxError *)
  hmac_sha256_hex : string -> string -> string;       (* key, data: hex digest *)
  path_dirname : string -> string;
  glob_test : string -> Json.json -> option bool      (* new RegExp('^' + pattern.replace(/\*/g, '.*') + '$').test(file);
                                                         None: the pattern is not a valid regular expression *)
}.

Record FilterOptions : Type := mkFilter {
  branches : option (list string);
  events : option (list string);
  paths : option (list string)
}.

Record Options : Type := mkOptions {
  secret : string;
  filterOptions : option FilterOptions
}.

Inductive LogStatus : Type := log_success | log_failed | log_filtered | log_queued.

Record LogEntry : Type := mkLogEntry {
  log_timestamp : Z;
  log_ip : string;
  log_provider : Provider;
  log_event : string;
  log_branch : Json.value;
  log_status : LogStatus;
  log_error : option string
}.

Record Stats : Type := mkStats {
  total : Z;
  successful : Z;
  failed : Z;
  filtered : Z;
  queued : Z;
  lastWebhook : option Z
}.

Record t : Type := mk {
  options : Options;
  webhookQueue : option WebhookQueue.t;
  webhookStats : Stats;
  webhookLog : list LogEntry;
  scheduled : list WebhookPayload   (* onWebhook calls armed with setTimeout(…, 1000) *)
}.

Definition construct (o : Options) (queue : option WebhookQueue.t) : t :=
  mk o queue (mkStats 0 0 0 0 0 None) [] [].

Record Request : Type := mkRequest {
  headers : list (string * string);   (* names in lower case *)
  body : string;
  clientIp : string
}.

Record Response : Type := mkResponse {
  statusCode : Z;
  responseHeaders : list (string * string);
  responseBody : string
}.

Fixpoint header (name : string) (hs : list (string * string)) : option string :=
  match hs with
  | [] => None
  | (n, v) :: rest => if String.eqb n name then Some v else header name rest
  end.

(** A header that is present and not empty. *)
Definition header_truthy (name : string) (hs : list (string * string)) : option string :=
  match header name hs with
  | Some v => if Js.truthy v then Some v else None
  | None => None
  end.

(** [s.replace(pattern, replacement)] with a string pattern: the first
    occurrence only. *)
Fixpoint replace_first (s pattern replacement : string) : string :=
  if String.prefix pattern s
  then (replacement ++ substring (String.length pattern)
                                 (String.length s - String.length pattern) s)%string
  else match s with
       | EmptyString => EmptyString
       | String c rest => String c (replace_first rest pattern replacement)
       end.

Fixpoint map_or_throw {A B} (f : A -> option B) (l : list A) : option (list B) :=
  match l with
  | [] => Some []
  | x :: rest =>
      match f x with
      | None => None
      | Some y => option_map (cons y) (map_or_throw f rest)
      end
  end.

(** The callback of [payload.commits?.map(...)] for GitHub. *)
Definition github_commit (c : Json.json) : option Commit :=
  match Json.prop (Some c) "id" with
  | None => None
  | Some cid =>
      match Json.prop (Some c) "message", Json.prop (Some c) "author" with
      | Some msg, Some author =>
          match Json.opt_prop author "name", Json.opt_prop author "username" with
          | Some name, Some username =>
              match Json.prop (Some c) "added", Json.prop (Some c) "modified",
                    Json.prop (Some c) "removed" with
              | Some added, Some modified, Some removed =>
                  match Json.spread_or_empty added, Json.spread_or_empty modified,
                        Json.spread_or_empty removed with
                  | Some a, Some m, Some r =>
                      Some (mkCommit cid msg (Json.or name username) (a ++ m ++ r))
                  | _, _, _ => None
                  end
              | _, _, _ => None
              end
          | _, _ => None
          end
      | _, _ => None
      end
  end.

(** The callback of [...commits?.map(...)] for Bitbucket. *)
Definition bitbucket_commit (c : Json.json) : option Commit :=
  match Json.prop (Some c) "hash", Json.prop (Some c) "message",
        Json.prop (Some c) "author" with
  | Some hash, Some msg, Some author =>
      match Json.opt_prop author "user", Json.opt_prop author "raw" with
      | Some user, Some raw_author =>
          match Json.opt_prop user "display_name" with
          | Some display => Some (mkCommit hash msg (Json.or display raw_author) [])
          | None => None
          end
      | _, _ => None
      end
  | _, _, _ => None
  end.

(** [v?.map(callback)]; [None] is a [TypeError]. *)
Definition opt_map_commits (callback : Json.json -> option Commit) (v : Json.value)
  : option (option (list Commit)) :=
  match v with
  | None | Some Json.JNull => Some None
  | Some (Json.JArray items) => option_map Some (map_or_throw callback items)
  | Some _ => None
  end.

(** [parseWebhookPayload(headers, payload)]; [None] is a [TypeError]. *)
Definition parseWebhookPayload (hs : list (string * string)) (payload : Json.json)
  : option WebhookPayload :=
  match header_truthy "x-github-event" hs with
  | Some github_event =>
      match Json.prop (Some payload) "ref", Json.prop (Some payload) "repository",
            Json.prop (Some payload) "commits" with
      | Some ref, Some repo, Some cs =>
          let branch :=
            match ref with
            | None | Some Json.JNull => Some None
            | Some (Json.JString s) =>
                Some (Some (Json.JString (replace_first s "refs/heads/" "")))
            | Some _ => None
            end in
          match branch, Json.opt_prop repo "full_name", opt_map_commits github_commit cs with
          | Some b, Some full_name, Some parsed =>
              Some (mkWebhookPayload github github_event b full_name parsed payload)
          | _, _, _ => None
          end
      | _, _, _ => None
      end
  | None =>
      match header_truthy "x-event-key" hs with
      | Some eventKey =>
          match Json.prop (Some payload) "push", Json.prop (Some payload) "repository" with
          | Some push, Some repo =>
              match Json.opt_prop push "changes" with
              | Some changes =>
                  match Json.opt_first changes with
                  | Some first =>
                      match Json.opt_prop first "new", Json.opt_prop first "commits" with
                      | Some new, Some cs =>
                          match Json.opt_prop new "name", Json.opt_prop repo "full_name",
                                opt_map_commits bitbucket_commit cs with
                          | Some name, Some full_name, Some parsed =>
                              Some (mkWebhookPayload bitbucket eventKey name full_name
                                                     parsed payload)
                          | _, _, _ => None
                          end
                      | _, _ => None
                      end
                  | None => None
                  end
              | None => None
              end
          | _, _ => None
          end
      | None => Some (mkWebhookPayload unknown "unknown" None None None payload)
      end
  end.

(** [Buffer.from(s)]: the UTF-8 encoding of a string of char codes
    below 256. *)
Definition Buffer_from (s : string) : list nat :=
  flat_map (fun c => let n := nat_of_ascii c in
                     if (n <? 128)%nat then [n]
                     else [192 + n / 64; 128 + n mod 64]%nat)
           (list_ascii_of_string s).

(** [crypto.timingSafeEqual(a, b)]; [None] is the [RangeError] thrown
    when the lengths differ. *)
Definition timingSafeEqual (a b : list nat) : option bool :=
  if (List.length a =? List.length b)%nat
  then Some (forallb (fun p => (fst p =? snd p)%nat) (combine a b))
  else None.

Definition expected_signature (pf : Platform) (o : Options) (payload : string) : string :=
  ("sha256=" ++ hmac_sha256_hex pf (secret o) payload)%string.

(** [verifyGitHubSignature(payload, signature)] *)
Definition verifyGitHubSignature (pf : Platform) (o : Options) (payload signature : string)
  : option bool :=
  timingSafeEqual (Buffer_from signature) (Buffer_from (expected_signature pf o payload)).

(** [verifySignature(headers, body, provider)]; [None] is a throw. *)
Definition verifySignature (pf : Platform) (o : Options) (hs : list (string * string))
    (body : string) (p : Provider) : option bool :=
  if negb (Js.truthy (secret o)) then Some true
  else match p with
       | github =>
           match header_truthy "x-hub-signature-256" hs with
           | None => Some false
           | Some githubSignature => verifyGitHubSignature pf o body githubSignature
           end
       | bitbucket => Some true
       | unknown => Some false
       end.

(** [matchPath(filePath, pattern)]; [None] is a throw. *)
Definition matchPath (pf : Platform) (filePath : Json.json) (pattern : string) : option bool :=
  if Js.endsWith pattern "/**" then
    match filePath with
    | Json.JString f =>
        Some (Js.startsWith f (substring 0 (String.length pattern - 3) pattern))
    | _ => None
    end
  else if Js.endsWith pattern "/*" then
    match filePath with
    | Json.JString f =>
        Some (String.eqb (path_dirname pf f)
                         (substring 0 (String.length pattern - 2) pattern))
    | _ => None
    end
  else if Js.includes pattern "*" then glob_test pf pattern filePath
  else match filePath with
       | Json.JString f => Some (String.eqb f pattern)
       | _ => Some false
       end.

(** [l.some(f)] for a predicate that may throw. *)
Fixpoint some_or_throw {A} (f : A -> option bool) (l : list A) : option bool :=
  match l with
  | [] => Some false
  | x :: rest =>
      match f x with
      | None => None
      | Some true => Some true
      | Some false => some_or_throw f rest
      end
  end.

Definition non_empty {A} (l : option (list A)) : option (list A) :=
  match l with
  | Some (x :: rest) => Some (x :: rest)
  | _ => None
  end.

Definition includes_branch (l : list string) (b : Json.value) : bool :=
  match b with
  | Some (Json.JString s) => existsb (String.eqb s) l
  | _ => false
  end.

(** [shouldProcessWebhook(payload)]; [None] is a throw. *)
Definition shouldProcessWebhook (pf : Platform) (o : Options) (p : WebhookPayload)
  : option bool :=
  match filterOptions o with
  | None => Some true
  | Some f =>
      let branch_ok :=
        match non_empty (branches f) with
        | Some l => if Json.truthy (payload_branch p)
                    then includes_branch l (payload_branch p) else true
        | None => true
        end in
      if negb branch_ok then Some false
      else
        let event_ok :=
          match non_empty (events f) with
          | Some l => existsb (String.eqb (event p)) l
          | None => true
          end in
        if negb event_ok then Some false
        else
          match non_empty (paths f), commits p with
          | Some patterns, Some cs =>
              let affectedFiles := flat_map commit_files cs in
              some_or_throw
                (fun file => some_or_throw (fun pattern => matchPath pf file pattern) patterns)
                affectedFiles
          | _, _ => Some true
          end
  end.

(** [logWebhook(...)] *)
Definition logWebhook (now : Z) (ip : string) (p : WebhookPayload) (s : LogStatus)
    (err : option string) (srv : t) : t :=
  let entry := mkLogEntry now ip (provider p) (event p) (payload_branch p) s err in
  let log := (webhookLog srv ++ [entry])%list in
  mk (options srv) (webhookQueue srv) (webhookStats srv)
     (if (100 <? List.length log)%nat then tl log else log)
     (scheduled srv).

Definition set_stats (st : Stats) (srv : t) : t :=
  mk (options srv) (webhookQueue srv) st (webhookLog srv) (scheduled srv).

Definition bad_request : Response := mkResponse 400 [] "Bad request".

(** The ['end'] callback of [handleWebhook]: the whole body has
    arrived.  [now] and [random] are the readings of [Date.now()] and
    [Math.random()] during this call. *)
Definition handleWebhook (pf : Platform) (req : Request) (now : Z) (random : string)
    (srv : t) : Response * t :=
  match JSON_parse pf (body req) with
  | None => (bad_request, srv)
  | Some payload =>
      match parseWebhookPayload (headers req) payload with
      | None => (bad_request, srv)
      | Some webhookPayload =>
          match verifySignature pf (options srv) (headers req) (body req)
                                (provider webhookPayload) with
          | None => (bad_request, srv)
          | Some false =>
              (mkResponse 401 [] "Unauthorized",
               logWebhook now (clientIp req) webhookPayload log_failed
                          (Some "Invalid signature") srv)
          | Some true =>
              match shouldProcessWebhook pf (options srv) webhookPayload with
              | None => (bad_request, srv)
              | Some false =>
                  let st := webhookStats srv in
                  let srv1 := set_stats (mkStats (total st) (successful st) (failed st)
                                                 (filtered st + 1) (queued st)
                                                 (lastWebhook st)) srv in
                  (mkResponse 200 [] "Filtered",
                   logWebhook now (clientIp req) webhookPayload log_filtered None srv1)
              | Some true =>
                  let st := webhookStats srv in
                  let srv1 := set_stats (mkStats (total st + 1) (successful st) (failed st)
                                                 (filtered st) (queued st) (Some now)) srv in
                  match webhookQueue srv1 with
                  | Some q =>
                      match WebhookQueue.enqueue webhookPayload now random q with
                      | (Some queueId, q1) =>
                          let st1 := webhookStats srv1 in
                          let srv2 := mk (options srv1) (Some q1)
                                         (mkStats (total st1) (successful st1) (failed st1)
                                                  (filtered st1) (queued st1 + 1)
                                                  (lastWebhook st1))
                                         (webhookLog srv1) (scheduled srv1) in
                          (mkResponse 200 [("X-Queue-ID", queueId)] "Queued",
                           logWebhook now (clientIp req) webhookPayload log_queued None srv2)
                      | (None, q1) =>
                          (mkResponse 503 [("Retry-After", "60")]
                                      "Service temporarily unavailable - queue full",
                           mk (options srv1) (Some q1) (webhookStats srv1)
                              (webhookLog srv1) (scheduled srv1))
                      end
                  | None =>
                      (mkResponse 200 [] "OK",
                       mk (options srv1) None (webhookStats srv1) (webhookLog srv1)
                          (scheduled srv1 ++ [webhookPayload]))
                  end
              end
          end
      end
  end.

(** The callback armed with [setTimeout] by [handleWebhook], from the
    point where [onWebhook] has settled; [error] is [None] when it
    resolved and the rendered error message when it rejected. *)
Definition after_onWebhook (now : Z) (ip : string) (p : WebhookPayload)
    (error : option string) (srv : t) : t :=
  let st := webhookStats srv in
  match error with
  | None =>
      logWebhook now ip p log_success None
        (set_stats (mkStats (total st) (successful st + 1) (failed st) (filtered st)
                            (queued st) (lastWebhook st)) srv)
  | Some errorMessage =>
      logWebhook now ip p log_failed (Some errorMessage)
        (set_stats (mkStats (total st) (successful st) (failed st + 1) (filtered st)
                            (queued st) (lastWebhook st)) srv)
  end.

(** The syncs a request has set in motion: calls of [onWebhook] armed
    by the listener itself, and calls made by the queue's processor. *)
Definition syncs_triggered (srv : t) : list WebhookPayload :=
  (scheduled srv ++
   match webhookQueue srv with
   | Some q => WebhookQueue.processor_calls q
   | None => []
   end)%list.

End WebhookServer.

(* ===================================================================== *)
(** ** validation-unified.ts: ValidationUtils *)
(* ===================================================================== *)

Module ValidationUtils.

(** [s.split(sep)] for a separator of one character. *)
Fixpoint split (sep : ascii) (s : string) : list string :=
  match s with
  | EmptyString => [EmptyString]
  | String c rest =>
      if Ascii.eqb c sep then EmptyString :: split sep rest
      else match split sep rest with
           | segment :: others => String c segment :: others
           | [] => [String c EmptyString]
           end
  end.

Definition kept_segment (segment : string) : bool :=
  negb (String.eqb segment "..") && negb (String.eqb segment ".")
  && negb (String.eqb segment "").

(** [sanitizePath(path)] *)
Definition sanitizePath (path : string) : string :=
  String.concat "/" (filter kept_segment (split "/"%char path)).

(** [isValidPath(path)] *)
Definition isValidPath (path : string) : bool :=
  (0 <? String.length path)%nat && negb (Js.includes path (String "000"%char EmptyString)).

Definition between (lo hi : nat) (c : ascii) : bool :=
  ((lo <=? nat_of_ascii c) && (nat_of_ascii c <=? hi))%nat.

(** [[a-zA-Z]], [[0-9]] and [[A-Za-z0-9_]] *)
Definition is_letter (c : ascii) : bool := between 97 122 c || between 65 90 c.
Definition is_digit (c : ascii) : bool := between 48 57 c.
Definition is_word (c : ascii) : bool :=
  between 65 90 c || between 97 122 c || between 48 57 c || Ascii.eqb c "_"%char.

(** [isStrongWebhookSecret(secret)] *)
Definition isStrongWebhookSecret (secret : string) : bool :=
  (16 <=? String.length secret)%nat
  && existsb is_letter (list_ascii_of_string secret)
  && existsb is_digit (list_ascii_of_string secret).

Definition token_prefixes : list string := ["ghp_"; "ghs_"; "github_pat_"].

(** [/^(ghp_|ghs_|github_pat_)[A-Za-z0-9_]{36,}$/.test(token)] *)
Definition has_token_format (token : string) : bool :=
  existsb (fun prefix =>
             let rest := substring (String.length prefix)
                                   (String.length token - String.length prefix) token in
             Js.startsWith token prefix
             && (36 <=? String.length rest)%nat
             && forallb is_word (list_ascii_of_string rest))
          token_prefixes.

(** [isValidGitHubToken(token)] *)
Definition isValidGitHubToken (token : string) : bool :=
  has_token_format token || (40 <=? String.length token)%nat.

End ValidationUtils.

(* ===================================================================== *)
(** ** credential-manager.ts: CredentialManager.validateCredentials *)
(* ===================================================================== *)

Module CredentialManager.

(** The part of [Partial<PluginOptions>] that [validateCredentials]
    reads; an absent key is [None]. *)
Record Credentials : Type := mkCredentials {
  authMethod : option string;
  githubToken : option string;
  githubUsername : option string;
  enableWebhook : option bool;
  webhookSecret : option string
}.

(** Truthiness of an optional string and of an optional boolean. *)
Definition given (v : option string) : bool :=
  match v with Some s => Js.truthy s | None => false end.
Definition enabled (v : option bool) : bool :=
  match v with Some b => b | None => false end.

(** [options.authMethod === name] *)
Definition is_method (name : string) (v : option string) : bool :=
  match v with Some method => String.eqb method name | None => false end.

Definition quoted (s : string) : string :=
  String (ascii_of_nat 34) (s ++ String (ascii_of_nat 34) EmptyString).

Definition token_required : string :=
  "githubToken is required when authMethod is " ++ quoted "token".
Definition token_malformed : string := "githubToken appears to be invalid format".
Definition username_required : string :=
  "githubUsername is required when authMethod is " ++ quoted "token".
Definition secret_required : string := "webhookSecret is required when enableWebhook is true".

(** [validateCredentials(options)] *)
Definition validateCredentials (options : Credentials) : list string :=
  let token_errors :=
    if is_method "token" (authMethod options) then
      (match githubToken options with
       | Some token =>
           if negb (Js.truthy token) then [token_required]
           else if negb (ValidationUtils.has_token_format token)
                   && (String.length token <? 40)%nat
           then [token_malformed]
           else []
       | None => [token_required]
       end
       ++ if negb (given (githubUsername options)) then [username_required] else [])%list
    else [] in
  (token_errors
   ++ if enabled (enableWebhook options) && negb (given (webhookSecret options))
      then [secret_required] else [])%list.

End CredentialManager.

(* ===================================================================== *)
(** ** placeholder-state-manager.ts: PlaceholderStateManager *)
(* ===================================================================== *)

Module PlaceholderStateManager.

(** The singleton; the [Set] of files is kept in insertion order. *)
Record t : Type := mk {
  hasActivePlaceholders : bool;
  placeholderFiles : list string
}.

Definition initial : t := mk false [].

(** [set.add(x)] and [set.delete(x)] *)
Definition add (x : string) (l : list string) : list string :=
  if existsb (String.eqb x) l then l else (l ++ [x])%list.
Definition delete (x : string) (l : list string) : list string :=
  filter (fun y => negb (String.eqb x y)) l.

(** [setPlaceholdersActive(files)] *)
Definition setPlaceholdersActive (files : list string) (s : t) : t :=
  mk true (fold_left (fun l x => add x l) files (placeholderFiles s)).

(** [setPlaceholdersInactive(files)] *)
Definition setPlaceholdersInactive (files : list string) (s : t) : t :=
  let remaining := fold_left (fun l x => delete x l) files (placeholderFiles s) in
  mk (match remaining with [] => false | _ => hasActivePlaceholders s end) remaining.

(** [hasPlaceholders()] and [getPlaceholderFiles()] *)
Definition hasPlaceholders (s : t) : bool := hasActivePlaceholders s.
Definition getPlaceholderFiles (s : t) : list string := placeholderFiles s.

(** [reset()] *)
Definition reset (s : t) : t := mk false [].

End PlaceholderStateManager.

(* ===================================================================== *)
(** ** Auxiliary definitions used to state the properties *)
(* ===================================================================== *)

(** A world in which Git answers every command with empty data, no file
    exists and the validator accepts everything. *)
Definition quiet_world : World :=
  mkWorld 0 [] (fun _ _ => GitOk (mkGitData [] "")) (fun _ _ => Missing)
          (fun _ _ => mkValidation true []) false.

(** A world whose Git client and file system are given by two tables;
    every file of the table can be read. *)
Definition scripted_world (reply : nat -> GitCmd -> GitReply)
    (files : string -> option string) : World :=
  mkWorld 0 [] reply
          (fun _ p => match files p with Some text => Readable text | None => Missing end)
          (fun _ _ => mkValidation true []) false.

(** [file] is a Markdown file that can be read and holds the marker. *)
Definition holds_marker (w : World) (file : string) : bool :=
  GitSyncManager.is_markdown file &&
  match file_at w (List.length (trace w)) file with
  | Readable text => Js.includes text GitSyncManager.PLACEHOLDER_MARKER
  | _ => false
  end.

(** [file] is a Markdown file that exists and cannot be read. *)
Definition read_fails (w : World) (file : string) : bool :=
  GitSyncManager.is_markdown file &&
  match file_at w (List.length (trace w)) file with
  | Unreadable _ => true
  | _ => false
  end.

(** No read of a file fails, now or later. *)
Definition files_readable (w : World) : Prop :=
  forall n p error, file_at w n p <> Unreadable error.

(** The Git commands a computation issues when started in [w]. *)
Definition issued {A} (m : M A) (w : World) : list GitCmd :=
  git_commands (skipn (List.length (trace w)) (trace (snd (m w)))).

(** [from; from + 1; ...], [k] values. *)
Fixpoint count_up (from : Z) (k : nat) : list Z :=
  match k with
  | O => []
  | S k' => from :: count_up (from + 1) k'
  end.

(** The [onRetry] callback, when there is one, returns normally. *)
Definition callback_returns (options : RetryManager.RetryOptions) : Prop :=
  match RetryManager.onRetry options with
  | Some callback => forall e n w, exists w1, callback e n w = (Return tt, w1)
  | None => True
  end.

(** The breaker is OPEN and less than [resetTimeout] has elapsed since
    the last failure. *)
Definition cooling_down (cb : CircuitBreaker.t) (now : Z) : bool :=
  match CircuitBreaker.state cb, CircuitBreaker.lastFailureTime cb with
  | CircuitBreaker.OPEN, Some last => now - last <? CircuitBreaker.resetTimeout cb
  | _, _ => false
  end.

Definition returned {T : Type} (outcome : Res T) : bool :=
  match outcome with Return _ => true | Raise _ => false end.

(** What holds of the breaker and of the calls under way in every state
    of the event loop. *)
Definition breaker_in_step (threshold timeout : Z) (s : CircuitBreaker.Run) : Prop :=
  let cb := CircuitBreaker.breaker s in
  CircuitBreaker.failureThreshold cb = threshold /\
  CircuitBreaker.resetTimeout cb = timeout /\
  match CircuitBreaker.state cb with
  | CircuitBreaker.CLOSED => 0 <= CircuitBreaker.failureCount cb < Z.max 1 threshold
  | CircuitBreaker.OPEN =>
      threshold <= CircuitBreaker.failureCount cb
      /\ exists last, CircuitBreaker.lastFailureTime cb = Some last
  | CircuitBreaker.HALF_OPEN =>
      threshold <= CircuitBreaker.failureCount cb
      /\ (exists last, CircuitBreaker.lastFailureTime cb = Some last)
      /\ (0 < CircuitBreaker.in_flight s)%nat
  end.

(** Five calls that fail one after the other, at times 0 to 4, trip the
    default breaker; 70 seconds later two calls are made, the second
    before the operation of the first has settled. *)
Definition tripped_then_two_calls : list CircuitBreaker.Turn :=
  [CircuitBreaker.TCall 0; CircuitBreaker.TSettles false 0;
   CircuitBreaker.TCall 1; CircuitBreaker.TSettles false 1;
   CircuitBreaker.TCall 2; CircuitBreaker.TSettles false 2;
   CircuitBreaker.TCall 3; CircuitBreaker.TSettles false 3;
   CircuitBreaker.TCall 4; CircuitBreaker.TSettles false 4;
   CircuitBreaker.TCall 70000; CircuitBreaker.TCall 70001].

(** The world in which the next attempt of [executeWithRetry] starts
    when the attempt numbered [attempt], started in [w], has failed and
    is retried: the [onRetry] callback has run and the pause has been
    slept. *)
Definition after_failed_attempt {T : Type} (options : RetryManager.RetryOptions)
    (operation : M T) (attempt : Z) (w : World) : World :=
  let (outcome, w1) := operation w in
  let w2 := match outcome, RetryManager.onRetry options with
            | Raise error, Some callback =>
                snd (callback (ErrorHandler.handle error) (attempt + 1) w1)
            | _, _ => w1
            end in
  snd (sleep (RetryManager.delay_for options attempt) w2).

(** The world in which attempt [attempt + k] starts when the [k]
    attempts before it, the first of them started in [w], have failed
    and were retried. *)
Fixpoint attempt_start {T : Type} (options : RetryManager.RetryOptions)
    (operation : M T) (attempt : Z) (k : nat) (w : World) : World :=
  match k with
  | O => w
  | S k' =>
      attempt_start options operation (attempt + 1) k'
                    (after_failed_attempt options operation attempt w)
  end.

(** An operation that cannot reach its remote: the failure is classified
    as a network error, which is retryable. *)
Definition unreachable_remote : M unit :=
  throw (ThrowOther (Some "fatal: Could not resolve host: github.com")).

(** A stand-in for the platform: every body parses to the empty object
    and every digest is sixty-four zeros.  The general statements below
    quantify over the platform; this one serves to run the listener on
    concrete requests. *)
Definition stub_platform : WebhookServer.Platform :=
  WebhookServer.mkPlatform
    (fun _ => Some (Json.JObject []))
    (fun _ _ => "0000000000000000000000000000000000000000000000000000000000000000")
    (fun p => p) (fun _ _ => Some false).

(** The normalised event of a GitHub push with an empty payload. *)
Definition push_event : WebhookPayload :=
  mkWebhookPayload github "push" None None None (Json.JObject []).

(** A webhook queue of capacity one that already stores one event. *)
Definition full_queue : WebhookQueue.t :=
  snd (WebhookQueue.enqueue push_event 0 "a"
         (WebhookQueue.construct (Some 1) None None)).

(** A GitHub push whose signature header is the digest of its body. *)
Definition signed_request : WebhookServer.Request :=
  WebhookServer.mkRequest
    [("x-github-event", "push");
     ("x-hub-signature-256",
      "sha256=0000000000000000000000000000000000000000000000000000000000000000")]
    "{}" "127.0.0.1".

(** The same request with one character of the signature altered. *)
Definition tampered_request : WebhookServer.Request :=
  WebhookServer.mkRequest
    [("x-github-event", "push");
     ("x-hub-signature-256",
      "sha256=0000000000000000000000000000000000000000000000000000000000000001")]
    "{}" "127.0.0.1".

(** A listener with a secret, no filters, and the given ingest queue. *)
Definition listener (queue : option WebhookQueue.t) : WebhookServer.t :=
  WebhookServer.construct (WebhookServer.mkOptions "s3cr3t-s3cr3t-s3cr3t" None) queue.

Definition queue_is_full (q : WebhookQueue.t) : bool :=
  WebhookQueue.maxQueueSize q <=? Z.of_nat (List.length (WebhookQueue.queue q)).

Definition is_stash_push (c : GitCmd) : bool :=
  match c with GitStash ("push" :: _) => true | _ => false end.

Definition is_stash_pop (c : GitCmd) : bool :=
  match c with GitStash ["pop"] => true | _ => false end.

Definition is_commit (c : GitCmd) : bool :=
  match c with GitCommit _ => true | _ => false end.

Definition is_push (c : GitCmd) : bool :=
  match c with GitPush _ => true | _ => false end.

Definition stash_pushes (cmds : list GitCmd) : nat := List.length (filter is_stash_push cmds).
Definition stash_pops (cmds : list GitCmd) : nat := List.length (filter is_stash_pop cmds).

(** [w] after the effects [evs]. *)
Definition extend (w : World) (evs : list Event) : World :=
  with_trace w (trace w ++ evs).

Definition pop_conflict_error : thrown :=
  GitSyncManager.GitOperationError GIT_MERGE_CONFLICT
    "Conflict when applying local changes after pull" false.

(** The [git pull] command that [pull] issues. *)
Definition pull_command (o : GitSyncManager.Options) : GitCmd :=
  GitRaw (["pull"; "origin"; GitSyncManager.branch o] ++ GitSyncManager.pull_strategy o).

Definition default_options : GitSyncManager.Options :=
  GitSyncManager.mkOptions "main" GitSyncManager.sync_direction
    "docs: sync content from Docusaurus" GitSyncManager.ours false true.

(** A working tree with one edited file and a remote that cannot be
    reached. *)
Definition offline_git (n : nat) (c : GitCmd) : GitReply :=
  match c with
  | GitStatus => GitOk (mkGitData ["docs/intro.md"] "")
  | GitRaw _ => GitThrows (ThrowOther (Some "fatal: Could not resolve host: github.com"))
  | _ => GitOk (mkGitData [] "")
  end.

Definition offline_world : World := scripted_world offline_git (fun _ => None).

Definition fetch_origin : M GitData := git (GitRaw ["fetch"; "origin"]).

(** A remote that rejects the credentials of a push. *)
Definition unauthorized_git (n : nat) (c : GitCmd) : GitReply :=
  match c with
  | GitPush _ => GitThrows (ThrowOther (Some "fatal: Authentication failed"))
  | _ => GitOk (mkGitData [] "")
  end.

Definition unauthorized_world : World := scripted_world unauthorized_git (fun _ => None).

Definition push_origin : M GitData := git (GitPush ["origin"; "main"]).

(** A working tree with one edited file, a reachable remote, and a stash
    that does not apply cleanly. *)
Definition conflicting_git (n : nat) (c : GitCmd) : GitReply :=
  match c with
  | GitStatus => GitOk (mkGitData ["docs/intro.md"] "")
  | GitStash ["pop"] =>
      GitThrows (ThrowOther (Some "CONFLICT (content): Merge conflict in docs/intro.md"))
  | _ => GitOk (mkGitData [] "")
  end.

Definition conflicting_world : World := scripted_world conflicting_git (fun _ => None).

Definition merge_conflict_error : thrown :=
  GitSyncManager.GitOperationError GIT_MERGE_CONFLICT
    "Merge conflict during pull operation" false.

(** What the outer [catch] of the pull operation rethrows. *)
Definition rethrown (error : thrown) : thrown :=
  if message_includes error "merge conflict" then merge_conflict_error else error.

(** A content tree in which the tracked file [docs/intro.md] is a
    placeholder (it carries the marker) and is unchanged, while
    [docs/guide.md] has been edited; local and remote heads agree. *)
Definition placeholder_git (n : nat) (c : GitCmd) : GitReply :=
  match c with
  | GitStatus => GitOk (mkGitData ["docs/guide.md"] "")
  | GitRaw ["ls-files"] =>
      GitOk (mkGitData [] ("docs/intro.md" ++ String "010"%char "docs/guide.md")%string)
  | _ => GitOk (mkGitData [] "")
  end.

Definition placeholder_files (path : string) : option string :=
  if String.eqb path "docs/intro.md"
  then Some "<!-- DOCUSAURUS_PLACEHOLDER_DO_NOT_COMMIT --> temporarily unavailable"
  else if String.eqb path "docs/guide.md" then Some "# Guide"
  else None.

Definition placeholder_world : World := scripted_world placeholder_git placeholder_files.

(** A content tree in which the edited file itself carries the marker. *)
Definition edited_placeholder_git (n : nat) (c : GitCmd) : GitReply :=
  match c with
  | GitStatus => GitOk (mkGitData ["docs/intro.md"] "")
  | _ => GitOk (mkGitData [] "")
  end.

Definition edited_placeholder_world : World :=
  scripted_world edited_placeholder_git placeholder_files.

(** The ids of the operations that are executing. *)
Definition executing_ids {Op : Type} (ds : list (SyncQueue.Drain Op)) : list string :=
  flat_map (fun d => match d with
                     | SyncQueue.AwaitingOperation item => [SyncQueue.id item]
                     | SyncQueue.Backoff _ => []
                     end) ds.

(** The ids of the operations that are waiting. *)
Definition waiting_ids {Op : Type} (l : list (SyncQueue.QueueItem Op)) : list string :=
  map SyncQueue.id l.

(** The id under which an [enqueue] turn files its operation. *)
Definition key_of {Op Val : Type} (e : SyncQueue.Turn Op Val) : option string :=
  match e with
  | SyncQueue.TEnqueue _ _ i now random =>
      Some (Js.or_else i (SyncQueue.generated_id now random))
  | _ => None
  end.

(** At most one activation of [process()] exists, and [processing] tells
    whether there is one. *)
Definition single_drain {Op Val : Type} (q : SyncQueue.t Op Val) : Prop :=
  (SyncQueue.processing q = true /\ exists d, SyncQueue.drains q = [d])
  \/ (SyncQueue.processing q = false /\ SyncQueue.drains q = []).

(** An operation's failure ends its stay in the queue: it is a spawn
    fault, or the retries are used up. *)
Definition terminal {Op Val : Type} (q : SyncQueue.t Op Val) (item : SyncQueue.QueueItem Op)
    (outcome : Res Val) : Prop :=
  match outcome with
  | Return _ => True
  | Raise error =>
      SyncQueue.isSpawnError error = true
      \/ SyncQueue.maxRetries q <= SyncQueue.retries item + 1
  end.

(** A manual sync, then a burst of file changes whose debounce timer
    fires while the manual sync is still running. *)
Definition overlapping_schedule : list GitSyncManager.Turn :=
  [GitSyncManager.TPerformSync 0 false None 1000 "0.1";
   GitSyncManager.TPerformSync 0 true None 1200 "0.2";
   GitSyncManager.TDebounceFires 0 6200 "0.3"].

(** Each of the manager's two queues has at most one drain. *)
Definition queues_single_drain (m : GitSyncManager.t) : Prop :=
  single_drain (GitSyncManager.syncQueue m) /\
  single_drain (DebouncedSyncQueue.base (GitSyncManager.debouncedQueue m)).

(** Two callers file an operation under the id "a", the second while the
    first one's operation is executing; that operation then fails with
    an ordinary error and is put back for a retry. *)
Definition requeue_schedule : list (SyncQueue.Turn nat nat) :=
  [SyncQueue.TEnqueue 1%nat 0 (Some "a") 1000 "0.1";
   SyncQueue.TEnqueue 2%nat 0 (Some "a") 1001 "0.2";
   SyncQueue.TSettles 0 (Raise (ThrowOther (Some "fatal: unable to access remote")))].

Definition requeued_queue : SyncQueue.t nat nat :=
  SyncQueue.run requeue_schedule (SyncQueue.construct 3).

(** The state in which "a" is executing and "b" is waiting. *)
Definition a_running_b_waiting : SyncQueue.t nat nat :=
  SyncQueue.run [SyncQueue.TEnqueue 1%nat 0 (Some "a") 1000 "0.1";
                 SyncQueue.TEnqueue 2%nat 0 (Some "b") 1001 "0.2"]
                (SyncQueue.construct 3).

Definition spawn_fault : thrown := ThrowOther (Some "Error: spawn EIO").

(** The id [i] is out of the queue for good as long as nobody files it
    again, and the promise at position [w], which listens to [i], is
    pending. *)
Definition abandoned {Op Val : Type} (i : string) (w : nat) (q : SyncQueue.t Op Val) : Prop :=
  ~ In i (waiting_ids (SyncQueue.queue q)) /\
  ~ In i (executing_ids (SyncQueue.drains q)) /\
  nth_error (SyncQueue.waiters q) w = Some (SyncQueue.mkWaiter i SyncQueue.Pending).

Definition debounced_reachable {Op Val : Type} (d : DebouncedSyncQueue.t Op Val) : Prop :=
  exists es, d = DebouncedSyncQueue.run es (DebouncedSyncQueue.construct 5000 3).

Definition is_base_turn {Op Val : Type} (e : DebouncedSyncQueue.Turn Op Val) : Prop :=
  match e with DebouncedSyncQueue.TBase _ => True | _ => False end.

(** A first debounced operation is running when a new burst of two
    calls arrives; it then fails and is put back for a retry, so that it
    is waiting (in its backoff pause) when the timer of the burst is due. *)
Definition burst_during_retry : DebouncedSyncQueue.t nat nat :=
  DebouncedSyncQueue.run
    [DebouncedSyncQueue.TCall 1%nat;
     DebouncedSyncQueue.TFire 0 5000 "0.1";
     DebouncedSyncQueue.TCall 2%nat;
     DebouncedSyncQueue.TCall 3%nat;
     DebouncedSyncQueue.TBase
       (SyncQueue.TSettles 0 (Raise (ThrowOther (Some "fatal: unable to access remote"))))]
    (DebouncedSyncQueue.construct 5000 3).

(** A burst of two calls on a fresh debounced queue. *)
Definition fresh_burst : DebouncedSyncQueue.t nat nat :=
  DebouncedSyncQueue.run [DebouncedSyncQueue.TCall 1%nat; DebouncedSyncQueue.TCall 2%nat]
                         (DebouncedSyncQueue.construct 5000 3).

(** *** The commands a computation issues, whatever the world *)

(** The outcome of a Git call, as the code awaiting it sees it. *)
Definition outcome_of (reply : GitReply) : Res GitData :=
  match reply with
  | GitOk d => Return d
  | GitThrows t => Raise t
  end.

(** Started in any world whose Git client is [g], the computation [m]
    changes the world by appending effects to the trace and by advancing
    the clock only; its result and the Git commands among these effects
    are related by [Q]. *)
Definition run_spec (g : nat -> GitCmd -> GitReply) {A : Type} (m : M A)
    (Q : Res A -> list GitCmd -> Prop) : Prop :=
  forall w, git_reply w = g ->
    exists evs c, snd (m w) = with_clock (extend w evs) c /\
                  Q (fst (m w)) (git_commands evs).

(** Every Git command that [m] issues satisfies [P]. *)
Definition only_issues (g : nat -> GitCmd -> GitReply) (P : GitCmd -> bool)
    {A : Type} (m : M A) : Prop :=
  run_spec g m (fun _ cmds => forallb P cmds = true).

Definition raised {A : Type} (r : Res A) : Prop := exists t, r = Raise t.

(** The commands of the pull sequence: they move the working tree
    towards the remote and never write to the history or to the remote. *)
Definition pull_side (c : GitCmd) : bool :=
  match c with
  | GitStatus | GitStash _ | GitRaw ("pull" :: _) => true
  | _ => false
  end.

(** The commands of the push sequence: they never bring remote content
    into the working tree. *)
Definition push_side (c : GitCmd) : bool :=
  match c with
  | GitStatus | GitReset _ | GitAdd _ | GitCommit _ | GitPush _ => true
  | _ => false
  end.

Definition is_add (c : GitCmd) : bool :=
  match c with GitAdd _ => true | _ => false end.

(** Commands that record nothing: no [add], no [commit], no [push]. *)
Definition records_nothing (c : GitCmd) : bool :=
  negb (is_add c || is_commit c || is_push c).

(** Commands that only inspect the repository or update the
    remote-tracking refs. *)
Definition inspects (c : GitCmd) : bool :=
  match c with
  | GitStatus | GitRaw ["ls-files"] | GitFetch _ _ => true
  | _ => false
  end.

(** The three commands with which [syncBidirectional] records and
    publishes the local changes. *)
Definition publication (o : GitSyncManager.Options) : list GitCmd :=
  [GitAdd "."; GitCommit (GitSyncManager.commitMessage o);
   GitPush ["--set-upstream"; "origin"; GitSyncManager.branch o]].

(** Failures of [git rev-parse] and of [git pull]. *)
Definition pull_step (c : GitCmd) : bool :=
  match c with
  | GitRevparse _ | GitRaw ("pull" :: _) => true
  | _ => false
  end.

(** A Git client that answers every command outside [P] successfully. *)
Definition fails_only_in (P : GitCmd -> bool) (g : nat -> GitCmd -> GitReply) : Prop :=
  forall n c, P c = false -> exists d, g n c = GitOk d.

(** A remote that is reachable for [git fetch] but whose history cannot
    be merged: every [git pull] fails. *)
Definition diverged_git (n : nat) (c : GitCmd) : GitReply :=
  match c with
  | GitStatus => GitOk (mkGitData ["docs/guide.md"] "")
  | GitRevparse ["HEAD"] => GitOk (mkGitData [] "1111111")
  | GitRevparse _ => GitOk (mkGitData [] "2222222")
  | _ =>
      if pull_step c
      then GitThrows (ThrowOther (Some "CONFLICT (content): Merge conflict in docs/guide.md"))
      else GitOk (mkGitData [] "")
  end.

Definition diverged_world : World := scripted_world diverged_git (fun _ => None).

(** [cmds] is a run of commands that record nothing, followed by a tail
    that [T] relates to the result. *)
Definition after_quiet_prefix {A : Type} (T : Res A -> list GitCmd -> Prop)
    (r : Res A) (cmds : list GitCmd) : Prop :=
  exists before tail,
    cmds = (before ++ tail)%list /\ forallb records_nothing before = true /\ T r tail.

(** How the commit step of [syncBidirectional] can end: nothing was
    recorded and there is nothing to push; or [git add] failed; or
    [git commit] was issued, and either failed or left something to push. *)
Definition commit_step_tail (o : GitSyncManager.Options) (r : Res bool)
    (tail : list GitCmd) : Prop :=
  (tail = [] /\ r <> Return true)
  \/ (tail = firstn 1 (publication o) /\ raised r)
  \/ (tail = firstn 2 (publication o) /\ (raised r \/ r = Return true)).

(** How [syncBidirectional] can end. *)
Definition sync_tail (o : GitSyncManager.Options) (r : Res unit)
    (tail : list GitCmd) : Prop :=
  tail = []
  \/ tail = publication o
  \/ (raised r /\ (tail = firstn 1 (publication o) \/ tail = firstn 2 (publication o))).

(** [m] returns normally whenever the Git client is [g] and no read of
    a file fails. *)
Definition succeeds (g : nat -> GitCmd -> GitReply) {A : Type} (m : M A) : Prop :=
  forall w, git_reply w = g -> files_readable w ->
    exists evs c, snd (m w) = with_clock (extend w evs) c /\
                  exists a, fst (m w) = Return a.

(** A working tree with one edited file and a remote that [git fetch]
    cannot reach. *)
Definition unfetchable_git (n : nat) (c : GitCmd) : GitReply :=
  match c with
  | GitStatus => GitOk (mkGitData ["docs/guide.md"] "")
  | GitFetch _ _ => GitThrows (ThrowOther (Some "fatal: unable to access the remote"))
  | _ => GitOk (mkGitData [] "")
  end.

Definition unfetchable_world : World := scripted_world unfetchable_git (fun _ => None).

(** Validation before commit is on, and an invalid file fails the
    operation. *)
Definition strict_options : GitSyncManager.Options :=
  GitSyncManager.mkOptions "main" GitSyncManager.push_direction
    "docs: sync content from Docusaurus" GitSyncManager.ours true false.

(** A working tree with one edited Markdown file that the validator
    rejects. *)
Definition rejecting_world : World :=
  mkWorld 0 []
    (fun _ c => match c with
                | GitStatus => GitOk (mkGitData ["docs/guide.md"] "")
                | _ => GitOk (mkGitData [] "")
                end)
    (fun _ _ => Missing)
    (fun _ _ => mkValidation false [("docs/guide.md", "Expected a closing tag for <br>")])
    false.

(** *** Requests to the webhook listener *)

(** What happens at the listener: a POST to the ingest path has been
    read in full, or the [onWebhook] call armed for an event that was
    accepted without a queue has settled ([error] is the rendering of
    the failure, when it failed). *)
Inductive ListenerTurn : Type :=
| LRequest (req : WebhookServer.Request) (now : Z) (random : string)
| LSynced (now : Z) (ip : string) (p : WebhookPayload) (error : option string).

Definition listener_turn (pf : WebhookServer.Platform) (e : ListenerTurn)
    (srv : WebhookServer.t) : WebhookServer.t :=
  match e with
  | LRequest req now random => snd (WebhookServer.handleWebhook pf req now random srv)
  | LSynced now ip p error => WebhookServer.after_onWebhook now ip p error srv
  end.

Fixpoint serve (pf : WebhookServer.Platform) (es : list ListenerTurn)
    (srv : WebhookServer.t) : WebhookServer.t :=
  match es with
  | [] => srv
  | e :: rest => serve pf rest (listener_turn pf e srv)
  end.

(** What holds of the listener's bookkeeping between two requests. *)
Definition books_in_order (srv : WebhookServer.t) : Prop :=
  (List.length (WebhookServer.webhookLog srv) <= 100)%nat /\
  0 <= WebhookServer.queued (WebhookServer.webhookStats srv)
    <= WebhookServer.total (WebhookServer.webhookStats srv) /\
  0 <= WebhookServer.filtered (WebhookServer.webhookStats srv) /\
  (WebhookServer.lastWebhook (WebhookServer.webhookStats srv) = None
   <-> WebhookServer.total (WebhookServer.webhookStats srv) = 0).

(** A Bitbucket push without any signature. *)
Definition bitbucket_request : WebhookServer.Request :=
  WebhookServer.mkRequest [("x-event-key", "repo:push")] "{}" "203.0.113.7".

(** A request that names no provider. *)
Definition anonymous_request : WebhookServer.Request :=
  WebhookServer.mkRequest [("content-type", "application/json")] "{}" "203.0.113.7".

(** A listener with a secret and a path filter. *)
Definition docs_only_listener : WebhookServer.t :=
  WebhookServer.construct
    (WebhookServer.mkOptions "s3cr3t-s3cr3t-s3cr3t"
       (Some (WebhookServer.mkFilter None None (Some ["docs/**"])))) None.

(** A Bitbucket push with one commit. *)
Definition bitbucket_push : Json.json :=
  Json.JObject
    [("push", Json.JObject
        [("changes", Json.JArray
            [Json.JObject
               [("new", Json.JObject [("name", Json.JString "main")]);
                ("commits", Json.JArray
                   [Json.JObject [("hash", Json.JString "abc123");
                                  ("message", Json.JString "Update docs")]])]])])].

(** *** The turns of the webhook queue *)

(** What can happen to a webhook queue: an event is enqueued, the
    interval timer ticks, the processor call made for a webhook that is
    being processed settles, somebody cleans up or stops the queue. *)
Inductive WebhookTurn : Type :=
| WEnqueue (p : WebhookPayload) (now : Z) (random : string)
| WTick
| WSettles (i : string) (outcome : Res unit) (roll : bool) (now : Z)
| WCleanup (now : Z)
| WStop.

Definition webhook_turn (e : WebhookTurn) (q : WebhookQueue.t) : WebhookQueue.t :=
  match e with
  | WEnqueue p now random => snd (WebhookQueue.enqueue p now random q)
  | WTick => if WebhookQueue.timer q then WebhookQueue.processNext q else q
  | WSettles i outcome roll now =>
      if existsb (fun w => String.eqb (WebhookQueue.id w) i && WebhookQueue.is_in_processing w)
                 (WebhookQueue.queue q)
      then WebhookQueue.processor_settles i outcome roll now q
      else q
  | WCleanup now => WebhookQueue.cleanup now q
  | WStop => WebhookQueue.stop q
  end.

Fixpoint webhook_run (es : list WebhookTurn) (q : WebhookQueue.t) : WebhookQueue.t :=
  match es with
  | [] => q
  | e :: rest => webhook_run rest (webhook_turn e q)
  end.

(** The retry counter of a stored webhook agrees with its status. *)
Definition retries_in_step (maxRetries : Z) (w : WebhookQueue.QueuedWebhook) : Prop :=
  0 <= WebhookQueue.retries w /\
  match WebhookQueue.status w with
  | WebhookQueue.pending =>
      WebhookQueue.retries w = 0 \/ WebhookQueue.retries w < maxRetries
  | WebhookQueue.failed => maxRetries <= WebhookQueue.retries w
  | _ => True
  end.

(** A queue of capacity two, filled within the same second with two
    events that have both been processed. *)
Definition two_completed : WebhookQueue.t :=
  webhook_run [WEnqueue push_event 1000 "a"; WSettles "wh_1000_a" (Return tt) false 1100;
               WEnqueue push_event 1200 "b"; WTick;
               WSettles "wh_1200_b" (Return tt) false 1300]
              (WebhookQueue.construct (Some 2) None None).

(** *** What the classifier looks for in a message *)

(** The lower-cased message reads like an authentication failure. *)
Definition mentions_authentication (message : string) : bool :=
  Js.includes message "authentication failed"
  || Js.includes message "invalid username or password"
  || (Js.includes message "permission denied"
      && (Js.includes message "git" || Js.includes message "remote")).

(** The lower-cased message reads like a network failure. *)
Definition mentions_network (message : string) : bool :=
  Js.includes message "could not resolve host"
  || Js.includes message "network is unreachable"
  || Js.includes message "connection refused".

(** Retry options with a negative bound. *)
Definition negative_bound : RetryManager.PartialRetryOptions :=
  RetryManager.mkPartial (Some (-1)) None None None None.

(** An operation that reaches its remote from the third call on: it
    fails with a network error as long as fewer than two pauses have
    been slept. *)
Definition third_time_lucky : M nat :=
  fun w =>
    if (List.length (filter (fun ev => match ev with EvSleep _ => true | _ => false end)
                            (trace w)) <? 2)%nat
    then (Raise (ThrowOther (Some "fatal: Could not resolve host: github.com")), w)
    else (Return 42%nat, w).

(** *** The order of the waiting operations, and operations that keep failing *)

(** The waiting operations are in order of decreasing priority. *)
Fixpoint by_priority {Op : Type} (l : list (SyncQueue.QueueItem Op)) : Prop :=
  match l with
  | [] => True
  | x :: rest =>
      (forall y, In y rest -> SyncQueue.priority y <= SyncQueue.priority x) /\
      by_priority rest
  end.

(** The operation that is executing fails with each of [errors] in
    turn; after each failure the backoff pause runs out. *)
Fixpoint failures {Op Val : Type} (errors : list thrown) : list (SyncQueue.Turn Op Val) :=
  match errors with
  | [] => []
  | error :: rest =>
      SyncQueue.TSettles 0 (Raise error) :: SyncQueue.TBackoffOver 0 :: failures rest
  end.

Definition is_started {Val : Type} (ev : SyncQueue.Emitted Val) : bool :=
  match ev with SyncQueue.EOperationStarted _ => true | _ => false end.

(** How often an operation has been started. *)
Definition starts {Op Val : Type} (q : SyncQueue.t Op Val) : nat :=
  List.length (filter is_started (SyncQueue.emitted q)).

(** The pause the drain is in, when it is in one. *)
Definition pausing {Op Val : Type} (q : SyncQueue.t Op Val) : option Z :=
  match SyncQueue.drains q with
  | [SyncQueue.Backoff ms] => Some ms
  | _ => None
  end.

(** The item after [r] failed attempts. *)
Definition attempt_of {Op : Type} (item : SyncQueue.QueueItem Op) (r : Z)
  : SyncQueue.QueueItem Op :=
  SyncQueue.mkItem (SyncQueue.id item) (SyncQueue.operation item) (SyncQueue.priority item)
                   (SyncQueue.timestamp item) r.

(** The item is executing after [r] failed attempts, and nothing waits. *)
Definition executing_alone {Op Val : Type} (item : SyncQueue.QueueItem Op) (r : Z)
    (q : SyncQueue.t Op Val) : Prop :=
  SyncQueue.queue q = [] /\ SyncQueue.processing q = true /\
  SyncQueue.drains q = [SyncQueue.AwaitingOperation (attempt_of item r)].

(** An error that is neither a spawn fault nor classified as a network
    error. *)
Definition remote_failure : thrown := ThrowOther (Some "fatal: unable to access remote").

(** A debounced sync is executing when a further file change arrives:
    its call is waiting for its timer. *)
Definition change_during_sync : DebouncedSyncQueue.t nat nat :=
  DebouncedSyncQueue.run
    [DebouncedSyncQueue.TCall 1%nat;
     DebouncedSyncQueue.TFire 0 5000 "0.1";
     DebouncedSyncQueue.TCall 2%nat]
    (DebouncedSyncQueue.construct 5000 3).

(** "a" is executing, "b" and "c" are waiting; "b" is then removed. *)
Definition b_and_c_waiting : SyncQueue.t nat nat :=
  SyncQueue.run [SyncQueue.TEnqueue 1%nat 0 (Some "a") 1000 "0.1";
                 SyncQueue.TEnqueue 2%nat 0 (Some "b") 1001 "0.2";
                 SyncQueue.TEnqueue 3%nat 0 (Some "c") 1002 "0.3"]
                (SyncQueue.construct 3).

(** No character of [s] is [sep]. *)
Fixpoint free_of (sep : ascii) (s : string) : bool :=
  match s with
  | EmptyString => true
  | String c rest => negb (Ascii.eqb c sep) && free_of sep rest
  end.

(** The calls that change the placeholder singleton, and a run of them
    from the state the module is loaded with. *)
Inductive PlaceholderCall : Type :=
| Activate (files : list string)
| Deactivate (files : list string)
| ResetAll.

Definition placeholder_call (c : PlaceholderCall) (s : PlaceholderStateManager.t)
  : PlaceholderStateManager.t :=
  match c with
  | Activate files => PlaceholderStateManager.setPlaceholdersActive files s
  | Deactivate files => PlaceholderStateManager.setPlaceholdersInactive files s
  | ResetAll => PlaceholderStateManager.reset s
  end.

Definition placeholder_calls (calls : list PlaceholderCall) : PlaceholderStateManager.t :=
  fold_left (fun s c => placeholder_call c s) calls PlaceholderStateManager.initial.

(* ===================================================================== *)
(** ** Properties of the retry manager *)
(* ===================================================================== *)

Section RetryProperties.

Import RetryManager.

Context {T : Type}.
Variable options : RetryOptions.
Variable operation : M T.
Variable operationName : string.

Lemma count_up_snoc (from : Z) (k : nat) :
  count_up from (S k) = (count_up from k ++ [from + Z.of_nat k])%list.
Proof.
  revert from. induction k as [|k IH]; intro from.
  - simpl. now rewrite Z.add_0_r.
  - change (count_up from (S (S k))) with (from :: count_up (from + 1) (S k)).
    rewrite IH. simpl. do 2 f_equal. f_equal. lia.
Qed.

(** A failure that is not retryable ends the loop in the iteration in
    which it occurs. *)
Lemma loop_stops_on_non_retryable (n : nat) (attempt : Z) (last : option GitSyncError)
    (tally : Tally) (w : World) (err : thrown) :
  fst (operation w) = Raise err ->
  ErrorHandler.shouldRetry (ErrorHandler.handle err) = false ->
  loop (S n) attempt last options operation operationName tally w
  = ((Raise (ThrowGitSync (ErrorHandler.handle err)),
      mkTally (S (calls tally)) (pauses tally)), snd (operation w)).
Proof.
  intros Hop Hno. cbn [loop]. destruct (operation w) as [outcome w1]. cbn in Hop. subst outcome.
  now rewrite Hno.
Qed.

(** The world after a failed attempt that is retried ends with the
    pause. *)
Lemma after_failed_attempt_sleeps (attempt : Z) (w : World) :
  exists w2,
    after_failed_attempt options operation attempt w
    = with_clock (record (EvSleep (delay_for options attempt)) w2)
                 (clock w2 + delay_for options attempt).
Proof.
  unfold after_failed_attempt. destruct (operation w) as [outcome w1].
  eexists. unfold sleep. cbn [snd]. reflexivity.
Qed.

Lemma attempt_start_last (attempt : Z) (k : nat) (w : World) :
  attempt_start options operation attempt (S k) w
  = after_failed_attempt options operation (attempt + Z.of_nat k)
      (attempt_start options operation attempt k w).
Proof.
  revert attempt w. induction k as [|k IH]; intros attempt w.
  - cbn. now rewrite Z.add_0_r.
  - change (attempt_start options operation attempt (S (S k)) w)
      with (attempt_start options operation (attempt + 1) (S k)
              (after_failed_attempt options operation attempt w)).
    rewrite IH. cbn [attempt_start].
    replace (attempt + 1 + Z.of_nat k) with (attempt + Z.of_nat (S k)) by lia.
    reflexivity.
Qed.

(** When every attempt fails with a retryable error, the loop uses up
    all the iterations the bound leaves it, sleeping between them. *)
Lemma loop_exhausts_retryable (n : nat) :
  callback_returns options ->
  forall (attempt : Z) (last : option GitSyncError) (tally : Tally) (w : World),
    attempt + Z.of_nat n = maxRetries options ->
    (forall k, (k <= n)%nat ->
       exists e, fst (operation (attempt_start options operation attempt k w)) = Raise e
                 /\ ErrorHandler.shouldRetry (ErrorHandler.handle e) = true) ->
    exists err,
      fst (operation (attempt_start options operation attempt n w)) = Raise err /\
      loop (S n) attempt last options operation operationName tally w
      = ((Raise (ThrowGitSync (ErrorHandler.handle err)),
          mkTally (calls tally + S n)
                  (pauses tally ++ map (delay_for options) (count_up attempt n))),
         snd (operation (attempt_start options operation attempt n w))).
Proof.
  intros Hcb. induction n as [|n IH]; intros attempt last tally w Hbound Hfail.
  - destruct (Hfail 0%nat (Nat.le_refl _)) as (e & Hop & Hretry).
    exists e. split; [exact Hop|]. cbn [attempt_start] in *.
    cbn [loop]. destruct (operation w) as [outcome w1]. cbn in Hop. subst outcome.
    rewrite Hretry. cbn [negb].
    replace (attempt =? maxRetries options) with true by (symmetry; apply Z.eqb_eq; lia).
    cbn [count_up map snd]. rewrite app_nil_r. do 3 f_equal. lia.
  - destruct (Hfail 0%nat (Nat.le_0_l _)) as (e & Hop & Hretry).
    cbn [attempt_start] in Hop.
    destruct (IH (attempt + 1) (Some (ErrorHandler.handle e))
                 (mkTally (S (calls tally)) (pauses tally ++ [delay_for options attempt]))
                 (after_failed_attempt options operation attempt w))
      as (err & Hlast & Hloop); [lia | |].
    { intros k Hk. exact (Hfail (S k) ltac:(lia)). }
    exists err. split; [exact Hlast|].
    change (attempt_start options operation attempt (S n) w)
      with (attempt_start options operation (attempt + 1) n
              (after_failed_attempt options operation attempt w)).
    remember (S n) as m eqn:Hm.
    cbn [loop]. unfold after_failed_attempt in Hloop |- *.
    destruct (operation w) as [outcome w1]. cbn in Hop. subst outcome.
    rewrite Hretry. cbn [negb].
    replace (attempt =? maxRetries options) with false by (symmetry; apply Z.eqb_neq; lia).
    assert (Hnote : exists w2,
               match onRetry options with
               | Some callback => callback (ErrorHandler.handle e) (attempt + 1) w1
               | None => (Return tt, w1)
               end = (Return tt, w2)
               /\ match onRetry options with
                  | Some callback => snd (callback (ErrorHandler.handle e) (attempt + 1) w1)
                  | None => w1
                  end = w2).
    { unfold callback_returns in Hcb. destruct (onRetry options) as [callback|].
      - destruct (Hcb (ErrorHandler.handle e) (attempt + 1) w1) as (w2 & Hw2).
        exists w2. now rewrite Hw2.
      - now exists w1. }
    destruct Hnote as (w2 & Hnote & Hsame). rewrite Hnote. rewrite Hsame in Hloop |- *.
    cbn [sleep snd] in Hloop |- *. subst m. cbn [calls pauses] in Hloop |- *.
    rewrite Hloop. cbn [count_up map]. rewrite <- app_assoc. cbn [app].
    do 3 f_equal. lia.
Qed.

End RetryProperties.

(** C3, as stated, fails: with a negative [maxRetries] the loop is never
    entered, so an operation whose failure is not retryable is not
    called even once, and the error raised is not its classified error
    but the generic "failed after ... retries". *)
Theorem negative_maxRetries_skips_the_operation :
  ~ (forall (customOptions : RetryManager.PartialRetryOptions) (operation : M GitData)
            (w : World) (e : thrown),
        fst (operation w) = Raise e ->
        ErrorHandler.shouldRetry (ErrorHandler.handle e) = false ->
        RetryManager.executeWithRetry RetryManager.DEFAULT_RETRY_OPTIONS operation
                                      "Git push" customOptions w
        = (Raise (ThrowGitSync (ErrorHandler.handle e)), snd (operation w))).
Proof.
  intro claim.
  specialize (claim negative_bound push_origin unauthorized_world
                    (ThrowOther (Some "fatal: Authentication failed")) eq_refl eq_refl).
  vm_compute in claim. discriminate claim.
Qed.

(** C3, amended.  Let [maxRetries >= 0] and let the [onRetry] callback,
    if there is one, return.  An operation whose first attempt fails
    with an error classified as non-retryable is called exactly once;
    an operation each of whose attempts fails with an error classified
    as retryable is called exactly [maxRetries + 1] times, and between
    attempt [k] and the next (counted from 0) the callback runs and the
    pause [min (initialDelay * backoffFactor ^ k) maxDelay] is slept.
    In both cases the run ends in the world the last attempt leaves
    behind, and the error raised is the classification of the failure of
    that attempt. *)
Theorem executeWithRetry_call_count :
  forall (T : Type) (this_options : RetryManager.RetryOptions)
         (customOptions : RetryManager.PartialRetryOptions)
         (operation : M T) (operationName : string) (retryable : bool) (w : World),
    let options := RetryManager.merge this_options customOptions in
    let retries := if retryable then Z.to_nat (RetryManager.maxRetries options) else 0%nat in
    let pause := fun attempt =>
                   Z.min (RetryManager.initialDelay options
                          * RetryManager.backoffFactor options ^ attempt)
                         (RetryManager.maxDelay options) in
    0 <= RetryManager.maxRetries options ->
    callback_returns options ->
    (forall k, (k <= retries)%nat ->
       exists e, fst (operation (attempt_start options operation 0 k w)) = Raise e
                 /\ ErrorHandler.shouldRetry (ErrorHandler.handle e) = retryable) ->
    (forall k, (k < retries)%nat ->
       exists w2,
         attempt_start options operation 0 (S k) w
         = with_clock (record (EvSleep (pause (Z.of_nat k))) w2)
                      (clock w2 + pause (Z.of_nat k))) /\
    exists err,
      fst (operation (attempt_start options operation 0 retries w)) = Raise err /\
      RetryManager.executeWithRetry_tally this_options operation operationName customOptions w
      = ((Raise (ThrowGitSync (ErrorHandler.handle err)),
          RetryManager.mkTally (S retries) (map pause (count_up 0 retries))),
         snd (operation (attempt_start options operation 0 retries w))) /\
      RetryManager.executeWithRetry this_options operation operationName customOptions w
      = (Raise (ThrowGitSync (ErrorHandler.handle err)),
         snd (operation (attempt_start options operation 0 retries w))).
Proof.
  intros T this_options customOptions operation operationName retryable w options retries
         pause Hmax Hcb Hfail.
  split.
  { intros k _. rewrite attempt_start_last.
    exact (after_failed_attempt_sleeps options operation (0 + Z.of_nat k) _). }
  assert (Htally : exists err,
             fst (operation (attempt_start options operation 0 retries w)) = Raise err /\
             RetryManager.executeWithRetry_tally this_options operation operationName
                                                 customOptions w
             = ((Raise (ThrowGitSync (ErrorHandler.handle err)),
                 RetryManager.mkTally (S retries) (map pause (count_up 0 retries))),
                snd (operation (attempt_start options operation 0 retries w)))).
  { unfold RetryManager.executeWithRetry_tally. fold options.
    replace (Z.to_nat (RetryManager.maxRetries options + 1))
      with (S (Z.to_nat (RetryManager.maxRetries options))) by lia.
    subst retries. destruct retryable.
    - destruct (loop_exhausts_retryable options operation operationName
                  (Z.to_nat (RetryManager.maxRetries options)) Hcb 0 None
                  (RetryManager.mkTally 0 []) w ltac:(lia) Hfail) as (err & Hlast & Hloop).
      exists err. split; [exact Hlast|]. rewrite Hloop. reflexivity.
    - destruct (Hfail 0%nat (Nat.le_refl _)) as (e & Hop & Hno).
      exists e. split; [exact Hop|]. cbn [attempt_start] in *.
      now rewrite (loop_stops_on_non_retryable options operation operationName _ 0 None
                     (RetryManager.mkTally 0 []) w e Hop Hno). }
  destruct Htally as (err & Hlast & Hrun). exists err.
  split; [exact Hlast|]. split; [exact Hrun|].
  unfold RetryManager.executeWithRetry. now rewrite Hrun.
Qed.

(** A fetch from a remote that cannot be reached, under the default
    options: four attempts with pauses of one, two and four seconds. *)
Lemma executeWithRetry_call_count_witness :
  RetryManager.executeWithRetry RetryManager.DEFAULT_RETRY_OPTIONS fetch_origin "Git fetch"
                                RetryManager.no_overrides offline_world
  = (Raise (ThrowGitSync (ErrorHandler.NetworkError "Network error occurred while syncing.")),
     with_clock
       (extend offline_world
          [EvGit (GitRaw ["fetch"; "origin"]); EvSleep 1000;
           EvGit (GitRaw ["fetch"; "origin"]); EvSleep 2000;
           EvGit (GitRaw ["fetch"; "origin"]); EvSleep 4000;
           EvGit (GitRaw ["fetch"; "origin"])])
       7000).
Proof.
  destruct (executeWithRetry_call_count GitData RetryManager.DEFAULT_RETRY_OPTIONS
              RetryManager.no_overrides fetch_origin "Git fetch" true offline_world)
    as (_ & err & Hlast & _ & Hrun).
  - cbn. lia.
  - exact I.
  - intros k Hk.
    exists (ThrowOther (Some "fatal: Could not resolve host: github.com")).
    destruct k as [|[|[|[|k]]]]; [split; reflexivity .. | cbn in Hk; lia].
  - rewrite Hrun. vm_compute in Hlast. injection Hlast as <-. reflexivity.
Defined.

(* ===================================================================== *)
(** ** Properties of the circuit breaker *)
(* ===================================================================== *)

Section BreakerProperties.

Import CircuitBreaker.

Variables threshold timeout : Z.

Lemma breaker_in_step_turn (e : Turn) (s s1 : Run) :
  breaker_in_step threshold timeout s -> turn e s = Some s1 ->
  breaker_in_step threshold timeout s1.
Proof.
  intros (Hth & Hto & Hst) Hturn. destruct s as [cb n r]. cbn [breaker in_flight] in *.
  destruct e as [now | ok now]; cbn [turn breaker in_flight refused] in Hturn.
  - unfold gate, shouldAttemptReset in Hturn. destruct (state cb) eqn:Hs.
    + injection Hturn as <-. unfold breaker_in_step. cbn [breaker in_flight].
      rewrite Hs. now repeat split.
    + destruct Hst as (Hc & last & Hl). rewrite Hl in Hturn.
      destruct (resetTimeout cb <=? now - last); injection Hturn as <-;
        unfold breaker_in_step; cbn [breaker in_flight].
      * cbn. repeat split; try assumption; [now exists last | lia].
      * rewrite Hs. repeat split; try assumption. now exists last.
    + injection Hturn as <-. unfold breaker_in_step. cbn [breaker in_flight].
      rewrite Hs. destruct Hst as (Hc & Hl & _). repeat split; try assumption. lia.
  - destruct n as [|n]; [discriminate Hturn|]. injection Hturn as <-.
    unfold breaker_in_step. cbn [breaker in_flight]. destruct ok.
    + cbn. repeat split; try assumption; lia.
    + unfold onFailure. cbn. rewrite Hth. split; [reflexivity|]. split; [assumption|].
      destruct (threshold <=? failureCount cb + 1) eqn:E.
      * apply Z.leb_le in E. split; [lia | now eexists].
      * apply Z.leb_gt in E. destruct (state cb); [lia | |]; destruct Hst as (Hc & _); lia.
Qed.

Lemma breaker_in_step_run (es : list Turn) (s : Run) :
  breaker_in_step threshold timeout s -> breaker_in_step threshold timeout (run es s).
Proof.
  revert s. induction es as [|e es IH]; intros s Hs; [exact Hs|].
  cbn [run]. apply IH. destruct (turn e s) as [s1|] eqn:E; [|exact Hs].
  exact (breaker_in_step_turn e s s1 Hs E).
Qed.

Lemma breaker_in_step_start : breaker_in_step threshold timeout (start threshold timeout).
Proof. unfold breaker_in_step. cbn. repeat split; lia. Qed.

(** The guard, read off the fields of the breaker. *)
Lemma gate_in_step (s : Run) (now : Z) :
  breaker_in_step threshold timeout s ->
  gate (breaker s) now
  = if cooling_down (breaker s) now then None
    else Some (mk (failureCount (breaker s)) (lastFailureTime (breaker s))
                  (match state (breaker s) with OPEN => HALF_OPEN | other => other end)
                  threshold timeout).
Proof.
  intros (Hth & Hto & Hst). destruct s as [[count last st th to] n r].
  cbn [breaker failureThreshold resetTimeout state failureCount lastFailureTime] in *.
  subst th to. unfold gate, shouldAttemptReset, cooling_down, set_state. cbn.
  destruct st; try reflexivity.
  destruct Hst as (_ & l & ->).
  destruct (now - l <? timeout) eqn:E.
  - apply Z.ltb_lt in E.
    now replace (timeout <=? now - l) with false by (symmetry; apply Z.leb_gt; lia).
  - apply Z.ltb_ge in E.
    now replace (timeout <=? now - l) with true by (symmetry; apply Z.leb_le; lia).
Qed.

End BreakerProperties.

(** C2, as stated, fails: the guard of [execute] refuses a call only
    when the state is OPEN, and [execute] awaits its operation, so a
    call made while the trial call is still under way finds the state
    HALF_OPEN and is let through as well. *)
Theorem half_open_admits_overlapping_calls :
  ~ (forall (es : list CircuitBreaker.Turn) (now : Z),
        CircuitBreaker.state
          (CircuitBreaker.breaker (CircuitBreaker.run es (CircuitBreaker.start 5 60000)))
        = CircuitBreaker.HALF_OPEN ->
        (CircuitBreaker.in_flight (CircuitBreaker.run es (CircuitBreaker.start 5 60000))
         <= 1)%nat).
Proof.
  intro claim. specialize (claim tripped_then_two_calls 0 eq_refl).
  vm_compute in claim. lia.
Qed.

(** C2, amended.  A breaker starts CLOSED with [failureCount = 0].  In
    every state the event loop can reach, with calls overlapping in any
    way: the breaker is CLOSED with a count below [max 1 failureThreshold],
    or OPEN or HALF_OPEN with a count of at least [failureThreshold] and
    a last failure on record, and HALF_OPEN only while a call is under
    way.  A call made while the breaker is OPEN and less than
    [resetTimeout] has elapsed since the last failure is refused with
    the circuit-open error, and neither the breaker nor the world
    changes, whatever the operation is; every other call is let
    through, turning OPEN into HALF_OPEN, and that includes every call
    made in HALF_OPEN while earlier calls are under way.  When the
    operation of a call settles, its success leaves the breaker CLOSED
    with [failureCount = 0]; its failure adds one to [failureCount],
    records the current time as that of the last failure, and leaves
    the breaker OPEN exactly when the count has reached
    [failureThreshold]: from CLOSED that is when it reaches
    [max 1 failureThreshold], from OPEN or HALF_OPEN always. *)
Theorem circuit_breaker_transitions :
  forall (failureThreshold resetTimeout : Z) (es : list CircuitBreaker.Turn),
    let s := CircuitBreaker.run es (CircuitBreaker.start failureThreshold resetTimeout) in
    let cb := CircuitBreaker.breaker s in
    CircuitBreaker.start failureThreshold resetTimeout
    = CircuitBreaker.mkRun
        (CircuitBreaker.mk 0 None CircuitBreaker.CLOSED failureThreshold resetTimeout) 0 0 /\
    breaker_in_step failureThreshold resetTimeout s /\
    (forall now : Z,
        CircuitBreaker.turn (CircuitBreaker.TCall now) s
        = Some (if cooling_down cb now
                then CircuitBreaker.mkRun cb (CircuitBreaker.in_flight s)
                                          (S (CircuitBreaker.refused s))
                else CircuitBreaker.mkRun
                       (CircuitBreaker.mk
                          (CircuitBreaker.failureCount cb) (CircuitBreaker.lastFailureTime cb)
                          (match CircuitBreaker.state cb with
                           | CircuitBreaker.OPEN => CircuitBreaker.HALF_OPEN
                           | other => other
                           end)
                          failureThreshold resetTimeout)
                       (S (CircuitBreaker.in_flight s)) (CircuitBreaker.refused s))) /\
    (forall (T : Type) (operation : M T) (w : World),
        cooling_down cb (clock w) = true ->
        CircuitBreaker.execute operation cb w
        = ((Raise (ThrowGitSync CircuitBreaker.circuit_open_error), cb), w)) /\
    (forall (T : Type) (operation : M T) (w : World),
        cooling_down cb (clock w) = false ->
        exists s1 s2,
          CircuitBreaker.turn (CircuitBreaker.TCall (clock w)) s = Some s1 /\
          CircuitBreaker.turn
            (CircuitBreaker.TSettles (returned (fst (operation w)))
                                     (clock (snd (operation w)))) s1 = Some s2 /\
          CircuitBreaker.execute operation cb w
          = ((fst (operation w), CircuitBreaker.breaker s2), snd (operation w))) /\
    (forall (ok : bool) (now : Z),
        (0 < CircuitBreaker.in_flight s)%nat ->
        exists s1,
          CircuitBreaker.turn (CircuitBreaker.TSettles ok now) s = Some s1 /\
          S (CircuitBreaker.in_flight s1) = CircuitBreaker.in_flight s /\
          CircuitBreaker.refused s1 = CircuitBreaker.refused s /\
          let cb1 := CircuitBreaker.breaker s1 in
          if ok
          then CircuitBreaker.state cb1 = CircuitBreaker.CLOSED /\
               CircuitBreaker.failureCount cb1 = 0 /\
               CircuitBreaker.lastFailureTime cb1 = CircuitBreaker.lastFailureTime cb
          else CircuitBreaker.failureCount cb1 = CircuitBreaker.failureCount cb + 1 /\
               CircuitBreaker.lastFailureTime cb1 = Some now /\
               (CircuitBreaker.state cb1 = CircuitBreaker.OPEN
                <-> failureThreshold <= CircuitBreaker.failureCount cb1) /\
               (CircuitBreaker.state cb1 = CircuitBreaker.OPEN
                \/ CircuitBreaker.state cb1 = CircuitBreaker.state cb) /\
               (CircuitBreaker.state cb = CircuitBreaker.CLOSED ->
                (CircuitBreaker.state cb1 = CircuitBreaker.OPEN
                 <-> CircuitBreaker.failureCount cb1 = Z.max 1 failureThreshold)) /\
               (CircuitBreaker.state cb <> CircuitBreaker.CLOSED ->
                CircuitBreaker.state cb1 = CircuitBreaker.OPEN)) /\
    (CircuitBreaker.state cb = CircuitBreaker.HALF_OPEN ->
     forall now : Z,
       option_map CircuitBreaker.in_flight (CircuitBreaker.turn (CircuitBreaker.TCall now) s)
       = Some (S (CircuitBreaker.in_flight s))).
Proof.
  intros threshold timeout es s cb.
  assert (Hinv : breaker_in_step threshold timeout s)
    by apply breaker_in_step_run, breaker_in_step_start.
  assert (Hgate : forall now,
             CircuitBreaker.gate cb now
             = if cooling_down cb now then None
               else Some (CircuitBreaker.mk
                            (CircuitBreaker.failureCount cb)
                            (CircuitBreaker.lastFailureTime cb)
                            (match CircuitBreaker.state cb with
                             | CircuitBreaker.OPEN => CircuitBreaker.HALF_OPEN
                             | other => other
                             end)
                            threshold timeout))
    by (intro now; exact (gate_in_step threshold timeout s now Hinv)).
  assert (Hcall : forall now,
             CircuitBreaker.turn (CircuitBreaker.TCall now) s
             = Some (if cooling_down cb now
                     then CircuitBreaker.mkRun cb (CircuitBreaker.in_flight s)
                                               (S (CircuitBreaker.refused s))
                     else CircuitBreaker.mkRun
                            (CircuitBreaker.mk
                               (CircuitBreaker.failureCount cb)
                               (CircuitBreaker.lastFailureTime cb)
                               (match CircuitBreaker.state cb with
                                | CircuitBreaker.OPEN => CircuitBreaker.HALF_OPEN
                                | other => other
                                end)
                               threshold timeout)
                            (S (CircuitBreaker.in_flight s)) (CircuitBreaker.refused s))).
  { intro now. cbn [CircuitBreaker.turn]. fold cb. rewrite Hgate.
    now destruct (cooling_down cb now). }
  split; [reflexivity|]. split; [exact Hinv|]. split; [exact Hcall|].
  split; [|split; [|split]].
  - intros T operation w Hcool. unfold CircuitBreaker.execute.
    now rewrite Hgate, Hcool.
  - intros T operation w Hcool. rewrite Hcall, Hcool.
    eexists. eexists. split; [reflexivity|]. cbn [CircuitBreaker.turn CircuitBreaker.in_flight].
    split; [reflexivity|]. unfold CircuitBreaker.execute.
    rewrite Hgate, Hcool. cbn [CircuitBreaker.breaker].
    now destruct (operation w) as [[v | e] w1].
  - intros ok now Hflight. destruct Hinv as (Hth & Hto & Hst). fold cb in Hth, Hto, Hst.
    cbn [CircuitBreaker.turn].
    destruct (CircuitBreaker.in_flight s) as [|n] eqn:Hn; [lia|].
    eexists. split; [reflexivity|]. cbn [CircuitBreaker.in_flight CircuitBreaker.refused].
    split; [reflexivity|]. split; [reflexivity|]. cbv zeta. cbn [CircuitBreaker.breaker].
    fold cb. destruct ok.
    + now repeat split.
    + unfold CircuitBreaker.onFailure. cbn. rewrite Hth.
      split; [reflexivity|]. split; [reflexivity|].
      destruct (threshold <=? CircuitBreaker.failureCount cb + 1) eqn:E.
      * apply Z.leb_le in E. split; [tauto|]. split; [now left|]. split.
        -- intro Hs. rewrite Hs in Hst. split; [lia | reflexivity].
        -- reflexivity.
      * apply Z.leb_gt in E. split.
        { split; [|lia]. intro Hs. rewrite Hs in Hst. lia. }
        split; [now right|]. split.
        -- intro Hs. rewrite Hs in *. split; [discriminate | lia].
        -- intro Hs. destruct (CircuitBreaker.state cb); [congruence | |];
             destruct Hst as (Hc & _); lia.
  - intros Hhalf now. rewrite Hcall. unfold cooling_down. rewrite Hhalf. reflexivity.
Qed.

(** The default breaker, tripped by five failures and probed by two
    overlapping calls after the pause, lets a third call through too. *)
Lemma circuit_breaker_transitions_witness :
  option_map CircuitBreaker.in_flight
    (CircuitBreaker.turn (CircuitBreaker.TCall 70002)
       (CircuitBreaker.run tripped_then_two_calls (CircuitBreaker.start 5 60000)))
  = Some 3%nat.
Proof.
  destruct (circuit_breaker_transitions 5 60000 tripped_then_two_calls)
    as (_ & _ & _ & _ & _ & _ & Hhalf).
  exact (Hhalf eq_refl 70002).
Defined.

(* ===================================================================== *)
(** ** Properties of the webhook queue and listener *)
(* ===================================================================== *)

(** C9. When the number of stored events equals [maxQueueSize], [enqueue]
    returns [null] and leaves the queue exactly as it was; and a request
    that passes parsing, signature check and filters while the listener's
    queue is in that state is answered 503 with the header
    [Retry-After: 60], the queue again untouched. *)
Theorem full_queue_rejects_with_503 :
  forall (pf : WebhookServer.Platform) (srv : WebhookServer.t) (q : WebhookQueue.t)
         (req : WebhookServer.Request) (payload : Json.json) (p : WebhookPayload)
         (now : Z) (random : string),
    Z.of_nat (List.length (WebhookQueue.queue q)) = WebhookQueue.maxQueueSize q ->
    WebhookServer.webhookQueue srv = Some q ->
    WebhookServer.JSON_parse pf (WebhookServer.body req) = Some payload ->
    WebhookServer.parseWebhookPayload (WebhookServer.headers req) payload = Some p ->
    WebhookServer.verifySignature pf (WebhookServer.options srv) (WebhookServer.headers req)
                                  (WebhookServer.body req) (provider p) = Some true ->
    WebhookServer.shouldProcessWebhook pf (WebhookServer.options srv) p = Some true ->
    WebhookQueue.enqueue p now random q = (None, q) /\
    let (response, srv1) := WebhookServer.handleWebhook pf req now random srv in
    WebhookServer.statusCode response = 503 /\
    WebhookServer.header "Retry-After" (WebhookServer.responseHeaders response) = Some "60" /\
    WebhookServer.webhookQueue srv1 = Some q.
Proof.
  intros pf srv q req payload p now random Hfull Hq Hparse Hnorm Hsig Hfilter.
  assert (Henq : WebhookQueue.enqueue p now random q = (None, q)).
  { unfold WebhookQueue.enqueue. rewrite <- Hfull, Z.leb_refl. reflexivity. }
  split; [exact Henq|].
  unfold WebhookServer.handleWebhook.
  rewrite Hparse, Hnorm, Hsig, Hfilter. cbn. rewrite Hq, Henq. cbn.
  repeat split.
Qed.

Lemma full_queue_rejects_with_503_witness :
  WebhookQueue.enqueue push_event 5 "b" full_queue = (None, full_queue) /\
  let (response, srv1) :=
    WebhookServer.handleWebhook stub_platform signed_request 5 "b" (listener (Some full_queue)) in
  WebhookServer.statusCode response = 503 /\
  WebhookServer.header "Retry-After" (WebhookServer.responseHeaders response) = Some "60" /\
  WebhookServer.webhookQueue srv1 = Some full_queue.
Proof.
  apply (full_queue_rejects_with_503 stub_platform (listener (Some full_queue)) full_queue
           signed_request (Json.JObject []) push_event 5 "b");
    reflexivity.
Defined.

(** *** Signature comparison *)

Lemma Buffer_from_cons (c : ascii) (s : string) :
  WebhookServer.Buffer_from (String c s)
  = ((if (nat_of_ascii c <? 128)%nat then [nat_of_ascii c]
      else [192 + nat_of_ascii c / 64; 128 + nat_of_ascii c mod 64])%nat
     ++ WebhookServer.Buffer_from s)%list.
Proof. reflexivity. Qed.

Lemma cons2_injective {A} (x1 x2 y1 y2 : A) (l1 l2 : list A) :
  x1 :: x2 :: l1 = y1 :: y2 :: l2 -> x1 = y1 /\ x2 = y2 /\ l1 = l2.
Proof. intro H. injection H as H1 H2 H3. now repeat split. Qed.

(** The UTF-8 encoding determines the string. *)
Lemma Buffer_from_injective (a b : string) :
  WebhookServer.Buffer_from a = WebhookServer.Buffer_from b -> a = b.
Proof.
  revert b. induction a as [|c a IH]; intros [|d b] H.
  - reflexivity.
  - rewrite Buffer_from_cons in H. change (WebhookServer.Buffer_from "") with (@nil nat) in H.
    destruct (nat_of_ascii d <? 128)%nat; discriminate.
  - rewrite Buffer_from_cons in H. change (WebhookServer.Buffer_from "") with (@nil nat) in H.
    destruct (nat_of_ascii c <? 128)%nat; discriminate.
  - rewrite !Buffer_from_cons in H.
    pose proof (nat_ascii_bounded c) as Hc. pose proof (nat_ascii_bounded d) as Hd.
    assert (Hcd : nat_of_ascii c = nat_of_ascii d /\
                  WebhookServer.Buffer_from a = WebhookServer.Buffer_from b).
    { destruct (nat_of_ascii c <? 128)%nat eqn:Ec, (nat_of_ascii d <? 128)%nat eqn:Ed;
        cbn [app] in H.
      - injection H as H1 H2. now split.
      - apply Nat.ltb_lt in Ec. injection H as H1 _. lia.
      - apply Nat.ltb_lt in Ed. injection H as H1 _. lia.
      - apply cons2_injective in H as (H1 & H2 & H3). split; [|exact H3].
        rewrite (Nat.div_mod_eq (nat_of_ascii c) 64), (Nat.div_mod_eq (nat_of_ascii d) 64).
        lia. }
    destruct Hcd as (Hn & Hrest).
    f_equal; [|now apply IH].
    rewrite <- (ascii_nat_embedding c), <- (ascii_nat_embedding d). now rewrite Hn.
Qed.

Lemma forallb_combine_eq (a b : list nat) :
  List.length a = List.length b ->
  forallb (fun p => (fst p =? snd p)%nat) (combine a b) = true -> a = b.
Proof.
  revert b. induction a as [|x a IH]; intros [|y b] Hlen H; try discriminate.
  - reflexivity.
  - cbn in H. apply andb_prop in H as (Hxy & Hrest). apply Nat.eqb_eq in Hxy.
    injection Hlen as Hlen. f_equal; [exact Hxy | now apply IH].
Qed.

Lemma forallb_combine_refl (a : list nat) :
  forallb (fun p => (fst p =? snd p)%nat) (combine a a) = true.
Proof.
  induction a as [|x a IH]; [reflexivity|]. cbn. now rewrite Nat.eqb_refl.
Qed.

Lemma timingSafeEqual_same (s : string) :
  WebhookServer.timingSafeEqual (WebhookServer.Buffer_from s) (WebhookServer.Buffer_from s)
  = Some true.
Proof.
  unfold WebhookServer.timingSafeEqual. rewrite Nat.eqb_refl. now rewrite forallb_combine_refl.
Qed.

Lemma timingSafeEqual_differs (s e : string) :
  s <> e ->
  List.length (WebhookServer.Buffer_from s) = List.length (WebhookServer.Buffer_from e) ->
  WebhookServer.timingSafeEqual (WebhookServer.Buffer_from s) (WebhookServer.Buffer_from e)
  = Some false.
Proof.
  intros Hne Hlen. unfold WebhookServer.timingSafeEqual.
  rewrite Hlen, Nat.eqb_refl.
  destruct (forallb _ _) eqn:E; [|reflexivity].
  exfalso. apply Hne, Buffer_from_injective. now apply forallb_combine_eq.
Qed.

(** The answer to a request that has passed the signature check. *)
Lemma handleWebhook_after_verification
    (pf : WebhookServer.Platform) (srv : WebhookServer.t) (req : WebhookServer.Request)
    (now : Z) (random : string) (payload : Json.json) (p : WebhookPayload) (pass : bool) :
  WebhookServer.JSON_parse pf (WebhookServer.body req) = Some payload ->
  WebhookServer.parseWebhookPayload (WebhookServer.headers req) payload = Some p ->
  WebhookServer.verifySignature pf (WebhookServer.options srv) (WebhookServer.headers req)
                                (WebhookServer.body req) (provider p) = Some true ->
  WebhookServer.shouldProcessWebhook pf (WebhookServer.options srv) p = Some pass ->
  WebhookServer.statusCode (fst (WebhookServer.handleWebhook pf req now random srv))
  = if pass
    then match WebhookServer.webhookQueue srv with
         | Some q => if queue_is_full q then 503 else 200
         | None => 200
         end
    else 200.
Proof.
  intros Hparse Hnorm Hsig Hfilter. unfold WebhookServer.handleWebhook.
  rewrite Hparse, Hnorm, Hsig, Hfilter. destruct pass; [|reflexivity].
  cbn. destruct (WebhookServer.webhookQueue srv) as [q|]; [|reflexivity].
  unfold WebhookQueue.enqueue, queue_is_full.
  destruct (WebhookQueue.maxQueueSize q <=? Z.of_nat (List.length (WebhookQueue.queue q)));
    reflexivity.
Qed.

(** The answer to a request whose signature check says no. *)
Lemma handleWebhook_unauthorized
    (pf : WebhookServer.Platform) (srv : WebhookServer.t) (req : WebhookServer.Request)
    (now : Z) (random : string) (payload : Json.json) (p : WebhookPayload) :
  WebhookServer.JSON_parse pf (WebhookServer.body req) = Some payload ->
  WebhookServer.parseWebhookPayload (WebhookServer.headers req) payload = Some p ->
  WebhookServer.verifySignature pf (WebhookServer.options srv) (WebhookServer.headers req)
                                (WebhookServer.body req) (provider p) = Some false ->
  let (response, srv1) := WebhookServer.handleWebhook pf req now random srv in
  WebhookServer.statusCode response = 401 /\
  WebhookServer.syncs_triggered srv1 = WebhookServer.syncs_triggered srv.
Proof.
  intros Hparse Hnorm Hsig. unfold WebhookServer.handleWebhook.
  rewrite Hparse, Hnorm, Hsig. split; reflexivity.
Qed.

(** C8, as stated, fails: a POST to the ingest path that carries the
    correct signature of its body is answered 503, not 200, when the
    ingest queue is enabled and full. *)
Lemma correct_signature_not_always_200 :
  ~ (forall (pf : WebhookServer.Platform) (srv : WebhookServer.t)
            (req : WebhookServer.Request) (now : Z) (random : string)
            (payload : Json.json) (p : WebhookPayload),
        Js.truthy (WebhookServer.secret (WebhookServer.options srv)) = true ->
        WebhookServer.JSON_parse pf (WebhookServer.body req) = Some payload ->
        WebhookServer.parseWebhookPayload (WebhookServer.headers req) payload = Some p ->
        provider p = github ->
        WebhookServer.header "x-hub-signature-256" (WebhookServer.headers req)
        = Some (WebhookServer.expected_signature pf (WebhookServer.options srv)
                                                 (WebhookServer.body req)) ->
        WebhookServer.statusCode (fst (WebhookServer.handleWebhook pf req now random srv))
        = 200).
Proof.
  intro claim.
  specialize (claim stub_platform (listener (Some full_queue)) signed_request 5 "b"
                    (Json.JObject []) push_event eq_refl eq_refl eq_refl eq_refl eq_refl).
  vm_compute in claim. discriminate claim.
Qed.

(** C8, amended.  With a non-empty secret, a POST to the ingest path is
    answered as follows.  A body that is not valid JSON: 400.  A body
    that parses and is recognised as a GitHub event: 401, with no sync
    set in motion, when [X-Hub-Signature-256] is absent, or differs from
    ["sha256=" + hex HMAC-SHA256 (secret, body)] while encoding to the
    same number of bytes (as it does when only the body was tampered
    with).  When the header equals that digest the request passes the
    signature check; it is then answered 200 when the filters reject
    the event, and when they accept it: 503 if the ingest queue is
    enabled and full, 200 otherwise.  The comparison is the platform's
    [timingSafeEqual] on the UTF-8 bytes of the two strings. *)
Theorem ingest_signature_outcomes :
  forall (pf : WebhookServer.Platform) (srv : WebhookServer.t)
         (req : WebhookServer.Request) (now : Z) (random : string),
    Js.truthy (WebhookServer.secret (WebhookServer.options srv)) = true ->
    let (response, srv1) := WebhookServer.handleWebhook pf req now random srv in
    let expected := WebhookServer.expected_signature pf (WebhookServer.options srv)
                                                     (WebhookServer.body req) in
    let signature := WebhookServer.header_truthy "x-hub-signature-256"
                                                 (WebhookServer.headers req) in
    (WebhookServer.JSON_parse pf (WebhookServer.body req) = None ->
     WebhookServer.statusCode response = 400) /\
    (forall (payload : Json.json) (p : WebhookPayload),
        WebhookServer.JSON_parse pf (WebhookServer.body req) = Some payload ->
        WebhookServer.parseWebhookPayload (WebhookServer.headers req) payload = Some p ->
        provider p = github ->
        (signature = None ->
         WebhookServer.statusCode response = 401 /\
         WebhookServer.syncs_triggered srv1 = WebhookServer.syncs_triggered srv) /\
        (forall s, signature = Some s -> s <> expected ->
                   List.length (WebhookServer.Buffer_from s)
                   = List.length (WebhookServer.Buffer_from expected) ->
                   WebhookServer.verifyGitHubSignature pf (WebhookServer.options srv)
                                                       (WebhookServer.body req) s
                   = Some false /\
                   WebhookServer.statusCode response = 401 /\
                   WebhookServer.syncs_triggered srv1 = WebhookServer.syncs_triggered srv) /\
        (signature = Some expected ->
         WebhookServer.verifyGitHubSignature pf (WebhookServer.options srv)
                                             (WebhookServer.body req) expected
         = Some true /\
         forall pass, WebhookServer.shouldProcessWebhook pf (WebhookServer.options srv) p
                      = Some pass ->
                      WebhookServer.statusCode response
                      = if pass
                        then match WebhookServer.webhookQueue srv with
                             | Some q => if queue_is_full q then 503 else 200
                             | None => 200
                             end
                        else 200)).
Proof.
  intros pf srv req now random Hsecret.
  destruct (WebhookServer.handleWebhook pf req now random srv) as [response srv1] eqn:Hrun.
  cbv zeta. split.
  - intro Hparse. unfold WebhookServer.handleWebhook in Hrun. rewrite Hparse in Hrun.
    injection Hrun as <- _. reflexivity.
  - intros payload p Hparse Hnorm Hgithub.
    assert (Hverify : WebhookServer.verifySignature pf (WebhookServer.options srv)
                        (WebhookServer.headers req) (WebhookServer.body req) (provider p)
                      = match WebhookServer.header_truthy "x-hub-signature-256"
                                (WebhookServer.headers req) with
                        | None => Some false
                        | Some s => WebhookServer.verifyGitHubSignature
                                      pf (WebhookServer.options srv) (WebhookServer.body req) s
                        end).
    { unfold WebhookServer.verifySignature. rewrite Hsecret, Hgithub. reflexivity. }
    split; [|split].
    + intro Hnone. rewrite Hnone in Hverify.
      pose proof (handleWebhook_unauthorized pf srv req now random payload p
                    Hparse Hnorm Hverify) as H.
      rewrite Hrun in H. exact H.
    + intros s Hsome Hne Hlen. rewrite Hsome in Hverify.
      assert (Hfalse : WebhookServer.verifyGitHubSignature
                         pf (WebhookServer.options srv) (WebhookServer.body req) s
                       = Some false)
        by (unfold WebhookServer.verifyGitHubSignature; now apply timingSafeEqual_differs).
      split; [exact Hfalse|]. rewrite Hfalse in Hverify.
      pose proof (handleWebhook_unauthorized pf srv req now random payload p
                    Hparse Hnorm Hverify) as H.
      rewrite Hrun in H. exact H.
    + intro Hsome. rewrite Hsome in Hverify.
      assert (Htrue : WebhookServer.verifyGitHubSignature
                        pf (WebhookServer.options srv) (WebhookServer.body req)
                        (WebhookServer.expected_signature pf (WebhookServer.options srv)
                                                          (WebhookServer.body req))
                      = Some true)
        by (unfold WebhookServer.verifyGitHubSignature; apply timingSafeEqual_same).
      split; [exact Htrue|]. rewrite Htrue in Hverify.
      intros pass Hfilter.
      pose proof (handleWebhook_after_verification pf srv req now random payload p pass
                    Hparse Hnorm Hverify Hfilter) as H.
      rewrite Hrun in H. exact H.
Qed.

(** The same body under a signature with one byte altered: 401, and no
    sync; under the right signature without a queue: 200. *)
Lemma ingest_signature_outcomes_witness :
  (WebhookServer.statusCode
     (fst (WebhookServer.handleWebhook stub_platform tampered_request 5 "b" (listener None)))
   = 401 /\
   WebhookServer.syncs_triggered
     (snd (WebhookServer.handleWebhook stub_platform tampered_request 5 "b" (listener None)))
   = []) /\
  WebhookServer.statusCode
    (fst (WebhookServer.handleWebhook stub_platform signed_request 5 "b" (listener None)))
  = 200.
Proof.
  pose proof (ingest_signature_outcomes stub_platform (listener None) tampered_request 5 "b"
                eq_refl) as Htampered.
  pose proof (ingest_signature_outcomes stub_platform (listener None) signed_request 5 "b"
                eq_refl) as Hsigned.
  destruct (WebhookServer.handleWebhook stub_platform tampered_request 5 "b" (listener None))
    as [r1 s1].
  destruct (WebhookServer.handleWebhook stub_platform signed_request 5 "b" (listener None))
    as [r2 s2].
  cbv zeta in Htampered, Hsigned.
  destruct Htampered as (_ & Ht). destruct Hsigned as (_ & Hs).
  destruct (Ht (Json.JObject []) push_event eq_refl eq_refl eq_refl) as (_ & Hdiff & _).
  destruct (Hs (Json.JObject []) push_event eq_refl eq_refl eq_refl) as (_ & _ & Hsame).
  split.
  - destruct (Hdiff _ eq_refl ltac:(discriminate) eq_refl) as (_ & H401 & Hnone).
    split; [exact H401 | exact Hnone].
  - destruct (Hsame eq_refl) as (_ & H200). exact (H200 true eq_refl).
Defined.

(* ===================================================================== *)
(** ** Properties of the Git sequences of the sync manager *)
(* ===================================================================== *)

Section GitSequences.

Lemma extend_nil (w : World) : extend w [] = w.
Proof. destruct w. unfold extend, with_trace. cbn. now rewrite app_nil_r. Qed.

Lemma record_extend (w : World) (evs : list Event) (ev : Event) :
  record ev (extend w evs) = extend w (evs ++ [ev]).
Proof. unfold record, extend, with_trace. cbn. now rewrite app_assoc. Qed.

Lemma length_trace_extend (w : World) (evs : list Event) :
  List.length (trace (extend w evs)) = (List.length (trace w) + List.length evs)%nat.
Proof. unfold extend. cbn. apply length_app. Qed.

(** One Git call, in terms of the world the sequence started in. *)
Lemma git_extend (c : GitCmd) (w : World) (evs : list Event) :
  git c (extend w evs)
  = (match git_reply w (List.length (trace w) + List.length evs) c with
     | GitOk d => Return d
     | GitThrows t => Raise t
     end, extend w (evs ++ [EvGit c])).
Proof.
  unfold git. rewrite record_extend, length_trace_extend.
  change (git_reply (extend w evs)) with (git_reply w).
  destruct (git_reply w _ c); reflexivity.
Qed.

Lemma issued_extend {A} (m : M A) (w : World) (r : Res A) (evs : list Event) :
  m w = (r, extend w evs) -> issued m w = git_commands evs.
Proof.
  intro H. unfold issued. rewrite H. cbn.
  now rewrite skipn_app, skipn_all, Nat.sub_diag.
Qed.

End GitSequences.

Section PullProperties.

Import GitSyncManager.

Variable o : Options.
Variable w : World.

Let n := List.length (trace w).

Ltac start_run :=
  unfold pull_command in *; cbn [app] in *;
  rewrite <- (extend_nil w) at 1;
  unfold pull_operation, bind, try_catch, ret, throw;
  rewrite git_extend; cbn [List.length app]; rewrite ?Nat.add_0_r; fold n.

Ltac next_git := rewrite git_extend; cbn [List.length app]; fold n.

Lemma pull_operation_clean (d : GitData) :
  git_reply w n GitStatus = GitOk d -> status_files d = [] ->
  pull_operation o w
  = (match git_reply w (n + 1) (pull_command o) with
     | GitOk _ => Return tt
     | GitThrows t => Raise (rethrown t)
     end, extend w [EvGit GitStatus; EvGit (pull_command o)]).
Proof.
  intros Hs Hclean. start_run. rewrite Hs. unfold has_files. rewrite Hclean.
  next_git.
  destruct (git_reply w (n + 1) _) as [d1 | t]; [reflexivity|].
  unfold rethrown. destruct (message_includes t "merge conflict"); reflexivity.
Qed.

Lemma pull_operation_pull_fails (d d1 : GitData) (t : thrown) :
  git_reply w n GitStatus = GitOk d -> status_files d <> [] ->
  git_reply w (n + 1) stash_push_for_pull = GitOk d1 ->
  git_reply w (n + 2) (pull_command o) = GitThrows t ->
  pull_operation o w
  = (Raise (rethrown t),
     extend w [EvGit GitStatus; EvGit stash_push_for_pull; EvGit (pull_command o);
               EvGit stash_pop]).
Proof.
  intros Hs Hdirty Hpush Hpull. start_run. rewrite Hs.
  unfold has_files. destruct (status_files d) as [|f fs]; [contradiction|].
  next_git. rewrite Hpush. next_git. rewrite Hpull.
  next_git. unfold rethrown.
  destruct (git_reply w (n + 3) stash_pop);
    destruct (message_includes t "merge conflict"); reflexivity.
Qed.

Lemma pull_operation_pop_settles (d d1 d2 : GitData) :
  git_reply w n GitStatus = GitOk d -> status_files d <> [] ->
  git_reply w (n + 1) stash_push_for_pull = GitOk d1 ->
  git_reply w (n + 2) (pull_command o) = GitOk d2 ->
  match git_reply w (n + 3) stash_pop with
  | GitOk _ => True
  | GitThrows t => message_includes t "No stash entries found" = true
  end ->
  pull_operation o w
  = (Return tt,
     extend w [EvGit GitStatus; EvGit stash_push_for_pull; EvGit (pull_command o);
               EvGit stash_pop]).
Proof.
  intros Hs Hdirty Hpush Hpull Hpop. start_run. rewrite Hs.
  unfold has_files. destruct (status_files d) as [|f fs]; [contradiction|].
  next_git. rewrite Hpush. next_git. rewrite Hpull.
  next_git. destruct (git_reply w (n + 3) stash_pop) as [d3 | t]; [reflexivity|].
  unfold on_pop_failure. rewrite Hpop. reflexivity.
Qed.

Lemma pull_operation_pop_conflict (d d1 d2 : GitData) (t : thrown) :
  git_reply w n GitStatus = GitOk d -> status_files d <> [] ->
  git_reply w (n + 1) stash_push_for_pull = GitOk d1 ->
  git_reply w (n + 2) (pull_command o) = GitOk d2 ->
  git_reply w (n + 3) stash_pop = GitThrows t ->
  message_includes t "No stash entries found" = false ->
  message_includes t "conflict" = true ->
  pull_operation o w
  = (Raise pop_conflict_error,
     extend w [EvGit GitStatus; EvGit stash_push_for_pull; EvGit (pull_command o);
               EvGit stash_pop; EvGit stash_pop]).
Proof.
  intros Hs Hdirty Hpush Hpull Hpop Hbenign Hconflict. start_run. rewrite Hs.
  unfold has_files. destruct (status_files d) as [|f fs]; [contradiction|].
  next_git. rewrite Hpush. next_git. rewrite Hpull.
  next_git. rewrite Hpop. unfold on_pop_failure. rewrite Hbenign, Hconflict.
  unfold throw, ret. cbv beta iota. next_git. destruct (git_reply w (n + 4) stash_pop); reflexivity.
Qed.

Lemma pull_operation_pop_other (d d1 d2 : GitData) (t : thrown) :
  git_reply w n GitStatus = GitOk d -> status_files d <> [] ->
  git_reply w (n + 1) stash_push_for_pull = GitOk d1 ->
  git_reply w (n + 2) (pull_command o) = GitOk d2 ->
  git_reply w (n + 3) stash_pop = GitThrows t ->
  message_includes t "No stash entries found" = false ->
  message_includes t "conflict" = false ->
  pull_operation o w
  = (Raise (rethrown t),
     extend w [EvGit GitStatus; EvGit stash_push_for_pull; EvGit (pull_command o);
               EvGit stash_pop; EvGit stash_pop]).
Proof.
  intros Hs Hdirty Hpush Hpull Hpop Hbenign Hconflict. start_run. rewrite Hs.
  unfold has_files. destruct (status_files d) as [|f fs]; [contradiction|].
  next_git. rewrite Hpush. next_git. rewrite Hpull.
  next_git. rewrite Hpop. unfold on_pop_failure. rewrite Hbenign, Hconflict.
  unfold throw, ret. cbv beta iota. next_git. unfold rethrown.
  destruct (git_reply w (n + 4) stash_pop);
    destruct (message_includes t "merge conflict"); reflexivity.
Qed.

(** A first attempt that succeeds is the whole run of [pull]. *)
Lemma pull_returns_at_once (w1 : World) :
  pull_operation o w = (Return tt, w1) ->
  pull_tally o w = ((Return tt, RetryManager.mkTally 1 []), w1).
Proof.
  intro H. unfold pull_tally, RetryManager.executeWithRetry_tally.
  set (k := Z.to_nat _). vm_compute in k. subst k.
  cbn [RetryManager.loop]. now rewrite H.
Qed.

(** A first attempt that ends in an error that is not recoverable is the
    whole run of [pull] as well. *)
Lemma pull_raises_at_once (e : GitSyncError) (w1 : World) :
  pull_operation o w = (Raise (ThrowGitSync e), w1) ->
  isRecoverable e = false ->
  pull_tally o w = ((Raise (ThrowGitSync e), RetryManager.mkTally 1 []), w1).
Proof.
  intros H Hfatal. unfold pull_tally, RetryManager.executeWithRetry_tally.
  set (k := Z.to_nat _). vm_compute in k. subst k.
  cbn [RetryManager.loop]. rewrite H.
  cbn [ErrorHandler.handle]. unfold ErrorHandler.shouldRetry. rewrite Hfatal. reflexivity.
Qed.

End PullProperties.




(** C7, at the failing input.  The pre-emptive scan of
    [syncBidirectional] finds the marker in a tracked, unchanged
    Markdown file, yet the run goes on to commit and to push: the
    result of the scan is never consulted, and the checks made before
    committing look at the changed files only. *)
Theorem sync_commits_despite_tracked_placeholder :
  fst (GitSyncManager.hasAnyPlaceholderFiles placeholder_world) = Return true /\
  fst (GitSyncManager.syncBidirectional default_options placeholder_world) = Return tt /\
  filter (fun c => is_commit c || is_push c)
         (issued (GitSyncManager.syncBidirectional default_options) placeholder_world)
  = [GitCommit "docs: sync content from Docusaurus";
     GitPush ["--set-upstream"; "origin"; "main"]].
Proof. vm_compute. repeat split. Qed.

(** Reading files for the marker has no effect on the world, whether
    the scan returns or a read fails. *)
Lemma scan_for_placeholder_pure (files : list string) (w : World) :
  exists outcome, GitSyncManager.scan_for_placeholder files w = (outcome, w).
Proof.
  induction files as [|file rest IH].
  - now exists (Return false).
  - cbn. unfold bind, readIfExists.
    destruct (file_at w (List.length (trace w)) file) as [|text|error];
      [exact IH | | now exists (Raise error)].
    destruct (Js.includes text GitSyncManager.PLACEHOLDER_MARKER);
      [now exists (Return true) | exact IH].
Qed.

(** The part of C7 that holds: when a changed Markdown file carries the
    marker (and validation before commit is off), an attempt of [push]
    issues nothing after its [git status] and returns normally. *)
Lemma push_skips_commit_on_changed_placeholder
    (o : GitSyncManager.Options) (w : World) (d : GitData) :
  GitSyncManager.validateBeforeCommit o = false ->
  git_reply w (List.length (trace w)) GitStatus = GitOk d ->
  status_files d <> [] ->
  fst (GitSyncManager.hasPlaceholderFiles (status_files d) (extend w [EvGit GitStatus]))
  = Return true ->
  GitSyncManager.push_operation o w = (Return tt, extend w [EvGit GitStatus]).
Proof.
  intros Hoff Hs Hdirty Hfound.
  rewrite <- (extend_nil w) at 1.
  unfold GitSyncManager.push_operation, bind. rewrite git_extend.
  cbn [List.length app]. rewrite Nat.add_0_r, Hs.
  unfold GitSyncManager.has_files. destruct (status_files d) as [|f fs] eqn:Hfiles;
    [contradiction|].
  unfold GitSyncManager.push_validation. rewrite Hoff. unfold ret at 1. cbv beta iota.
  unfold GitSyncManager.push_commit, try_catch, bind.
  unfold GitSyncManager.hasPlaceholderFiles in *. rewrite ?Hfiles.
  destruct (scan_for_placeholder_pure (filter GitSyncManager.is_markdown (f :: fs))
                                      (extend w [EvGit GitStatus])) as (outcome & Hscan).
  rewrite Hscan in *. cbn in Hfound. subst outcome. reflexivity.
Qed.

(** The same for [syncBidirectional], at a concrete input: the edited
    file carries the marker, and nothing is committed or pushed. *)
Lemma sync_skips_commit_on_changed_placeholder :
  fst (GitSyncManager.syncBidirectional default_options edited_placeholder_world) = Return tt /\
  filter (fun c => is_commit c || is_push c)
         (issued (GitSyncManager.syncBidirectional default_options) edited_placeholder_world)
  = [].
Proof. vm_compute. split; reflexivity. Qed.

(* ===================================================================== *)
(** ** Properties of the operation queue *)
(* ===================================================================== *)

Section QueueProperties.

Context {Op Val : Type}.
Implicit Types (q : SyncQueue.t Op Val) (item : SyncQueue.QueueItem Op).

Import SyncQueue.

Lemma single_drain_drain_next q :
  processing q = true -> drains q = [] -> single_drain (drain_next q).
Proof.
  intros Hp Hd. unfold drain_next. destruct (queue q) as [|item rest].
  - right. cbn. now split.
  - left. cbn. rewrite Hd. split; [exact Hp | now eexists].
Qed.

Lemma single_drain_process q : single_drain q -> single_drain (process q).
Proof.
  intros Hq. unfold process.
  destruct (processing q) eqn:Hp; [exact Hq|].
  destruct (queue q) as [|item rest] eqn:Hqueue; [exact Hq|]. cbn [orb].
  destruct Hq as [(Hp' & _) | (_ & Hd)]; [congruence|].
  apply single_drain_drain_next; [reflexivity | exact Hd].
Qed.

Lemma single_drain_enqueue operation priority i now random q :
  single_drain q -> single_drain (snd (enqueue operation priority i now random q)).
Proof.
  intro Hq. unfold enqueue.
  destruct (match i with Some i0 => Js.truthy i0 && has_id i0 (queue q) | None => false end).
  - exact Hq.
  - cbn [snd].
    set (q2 := emit _ (set_queue _ q)).
    assert (H2 : single_drain q2) by exact Hq.
    pose proof (single_drain_process q2 H2) as H3.
    exact H3.
Qed.

Lemma single_drain_position q k d :
  single_drain q -> nth_error (drains q) k = Some d -> k = O /\ drains q = [d].
Proof.
  intros [(_ & d0 & Hd) | (_ & Hd)] Hk; rewrite Hd in Hk.
  - destruct k as [|k]; [|destruct k; discriminate]. injection Hk as ->. now split.
  - destruct k; discriminate.
Qed.

Lemma single_drain_after_operation q k item outcome :
  single_drain q -> nth_error (drains q) k = Some (AwaitingOperation item) ->
  single_drain (after_operation k item outcome q).
Proof.
  intros Hq Hk. destruct (single_drain_position q k _ Hq Hk) as (-> & Hd).
  assert (Hp : processing q = true).
  { destruct Hq as [(Hp & _) | (_ & Hd')]; [exact Hp | congruence]. }
  unfold after_operation. destruct outcome as [result | error].
  - apply single_drain_drain_next; cbn; [exact Hp | now rewrite Hd].
  - destruct (isSpawnError error).
    + apply single_drain_drain_next; cbn; [exact Hp | now rewrite Hd].
    + cbn [retries]. destruct (retries item + 1 <? maxRetries q).
      * left. cbn. rewrite Hd. split; [exact Hp | now eexists].
      * apply single_drain_drain_next; cbn; [exact Hp | now rewrite Hd].
Qed.

Lemma single_drain_turn e q q1 :
  single_drain q -> turn e q = Some q1 -> single_drain q1.
Proof.
  intros Hq Hturn. destruct e as [op p i now random | k outcome | k | | i]; cbn in Hturn.
  - injection Hturn as <-. now apply single_drain_enqueue.
  - unfold operation_settles in Hturn.
    destruct (nth_error (drains q) k) as [[item | ms]|] eqn:Hk; try discriminate.
    injection Hturn as <-. now apply single_drain_after_operation.
  - unfold backoff_over in Hturn.
    destruct (nth_error (drains q) k) as [[item | ms]|] eqn:Hk; try discriminate.
    injection Hturn as <-.
    destruct (single_drain_position q k _ Hq Hk) as (-> & Hd).
    apply single_drain_drain_next; cbn.
    + destruct Hq as [(Hp & _) | (_ & Hd')]; [exact Hp | congruence].
    + now rewrite Hd.
  - injection Hturn as <-. exact Hq.
  - injection Hturn as <-. unfold remove.
    destruct (remove_first i (queue q)); exact Hq.
Qed.

Lemma single_drain_construct (m : Z) : single_drain (@construct Op Val m).
Proof. right. now split. Qed.

Lemma single_drain_in_flight q : single_drain q -> (in_flight q <= 1)%nat.
Proof.
  unfold in_flight. intros [(_ & d & ->) | (_ & ->)]; cbn; [destruct d|]; cbn; lia.
Qed.

End QueueProperties.

(* ===================================================================== *)
(** ** Serialisation of sync operations by the manager *)
(* ===================================================================== *)

Section ManagerProperties.

Import GitSyncManager.

Lemma run_finally_base {Op Val} (d : DebouncedSyncQueue.t Op Val) :
  DebouncedSyncQueue.base (DebouncedSyncQueue.run_finally d) = DebouncedSyncQueue.base d.
Proof.
  unfold DebouncedSyncQueue.run_finally.
  now destruct (existsb _ (DebouncedSyncQueue.calls d)).
Qed.

Lemma timer_fires_single_drain {Op Val} (n : nat) (now : Z) (random : string)
    (d d1 : DebouncedSyncQueue.t Op Val) :
  single_drain (DebouncedSyncQueue.base d) ->
  DebouncedSyncQueue.timer_fires n now random d = Some d1 ->
  single_drain (DebouncedSyncQueue.base d1).
Proof.
  intros Hd Hfire. unfold DebouncedSyncQueue.timer_fires in Hfire.
  destruct (nth_error (DebouncedSyncQueue.calls d) n) as [[| |w f|e|]|]; try discriminate.
  destruct (DebouncedSyncQueue.pendingOperation d) as [operation|].
  - pose proof (single_drain_enqueue operation 0 (Some DebouncedSyncQueue.reserved_id)
                  now random _ Hd) as H.
    destruct (SyncQueue.enqueue operation 0 (Some DebouncedSyncQueue.reserved_id) now random
                                (DebouncedSyncQueue.base d)) as [[error | w] b];
      injection Hfire as <-; exact H.
  - injection Hfire as <-. exact Hd.
Qed.

Lemma base_turn_single_drain {Op Val} (e : SyncQueue.Turn Op Val)
    (d d1 : DebouncedSyncQueue.t Op Val) :
  single_drain (DebouncedSyncQueue.base d) ->
  DebouncedSyncQueue.base_turn e d = Some d1 ->
  single_drain (DebouncedSyncQueue.base d1).
Proof.
  intros Hd Hturn. unfold DebouncedSyncQueue.base_turn in Hturn.
  destruct (SyncQueue.turn e (DebouncedSyncQueue.base d)) as [b|] eqn:E; [|discriminate].
  injection Hturn as <-. rewrite run_finally_base. cbn.
  exact (single_drain_turn e _ b Hd E).
Qed.

Lemma queues_single_drain_turn (e : Turn) (m m1 : GitSyncManager.t) :
  queues_single_drain m -> turn e m = Some m1 -> queues_single_drain m1.
Proof.
  intros (Hs & Hd) Hturn.
  destruct e as [p debounced o now random | n now random | k outcome | k outcome | |];
    cbn in Hturn.
  - injection Hturn as <-. unfold performSync.
    destruct (isDisabled m); [now split|].
    destruct debounced; split; cbn; try assumption.
    now apply single_drain_enqueue.
  - destruct (DebouncedSyncQueue.timer_fires n now random (debouncedQueue m)) as [d1|] eqn:E;
      [|discriminate].
    injection Hturn as <-. split; [exact Hs|]. cbn.
    exact (timer_fires_single_drain n now random _ d1 Hd E).
  - destruct (SyncQueue.turn (queue_turn k outcome) (syncQueue m)) as [q1|] eqn:E;
      [|discriminate].
    injection Hturn as <-. split; [|exact Hd]. cbn.
    exact (single_drain_turn _ _ q1 Hs E).
  - destruct (DebouncedSyncQueue.base_turn (queue_turn k outcome) (debouncedQueue m))
      as [d1|] eqn:E; [|discriminate].
    injection Hturn as <-. split; [exact Hs|]. cbn.
    exact (base_turn_single_drain _ _ d1 Hd E).
  - injection Hturn as <-. now split.
  - injection Hturn as <-. now split.
Qed.

Lemma queues_single_drain_run (es : list Turn) (m : GitSyncManager.t) :
  queues_single_drain m -> queues_single_drain (run es m).
Proof.
  revert m. induction es as [|e es IH]; intros m Hm; [exact Hm|].
  cbn. apply IH. destruct (turn e m) as [m1|] eqn:E; [|exact Hm].
  exact (queues_single_drain_turn e m m1 Hm E).
Qed.

End ManagerProperties.

(** C1, as stated, fails: the regular queue and the debounced queue are
    two queues, each with its own drain loop, and a sync started from
    one may be running when the other starts its own. *)
Lemma regular_and_debounced_sync_overlap :
  ~ (forall m : GitSyncManager.t,
        GitSyncManager.reachable m -> (GitSyncManager.executing m <= 1)%nat).
Proof.
  intro claim.
  specialize (claim (GitSyncManager.run overlapping_schedule GitSyncManager.construct)
                    (ex_intro _ overlapping_schedule eq_refl)).
  vm_compute in claim. lia.
Qed.

(** C1, amended.  In every reachable state of the manager each of its two
    queues, the regular one and the debounced one, has at most one sync
    operation executing (so at most two sequences are under way, one per
    queue); and [performSync] itself starts nothing outside them: a
    debounced call leaves both queues as they are and only arms the
    debounce timer, any other call leaves the debounced queue as it is,
    and a call on a disabled manager changes nothing. *)
Theorem one_sync_at_a_time_per_queue :
  forall m : GitSyncManager.t,
    GitSyncManager.reachable m ->
    (SyncQueue.in_flight (GitSyncManager.syncQueue m) <= 1)%nat /\
    (SyncQueue.in_flight (DebouncedSyncQueue.base (GitSyncManager.debouncedQueue m)) <= 1)%nat /\
    (GitSyncManager.executing m <= 2)%nat /\
    forall (priority : Z) (debounced : bool) (override : option GitSyncManager.SyncDirection)
           (now : Z) (random : string),
      let m1 := GitSyncManager.performSync priority debounced override now random m in
      (GitSyncManager.isDisabled m = true -> m1 = m) /\
      (debounced = true ->
       GitSyncManager.syncQueue m1 = GitSyncManager.syncQueue m /\
       DebouncedSyncQueue.base (GitSyncManager.debouncedQueue m1)
       = DebouncedSyncQueue.base (GitSyncManager.debouncedQueue m)) /\
      (debounced = false ->
       GitSyncManager.debouncedQueue m1 = GitSyncManager.debouncedQueue m /\
       (SyncQueue.in_flight (GitSyncManager.syncQueue m1) <= 1)%nat).
Proof.
  intros m (es & ->).
  assert (Hinv : queues_single_drain (GitSyncManager.run es GitSyncManager.construct)).
  { apply queues_single_drain_run. split; apply single_drain_construct. }
  destruct Hinv as (Hs & Hd).
  pose proof (single_drain_in_flight _ Hs) as H1.
  pose proof (single_drain_in_flight _ Hd) as H2.
  split; [exact H1|]. split; [exact H2|].
  split; [unfold GitSyncManager.executing; lia|].
  intros priority debounced override now random m1. subst m1.
  unfold GitSyncManager.performSync.
  set (m := GitSyncManager.run es GitSyncManager.construct) in *.
  split; [|split].
  - now intros ->.
  - intros ->. destruct (GitSyncManager.isDisabled m); split; reflexivity.
  - intros ->. destruct (GitSyncManager.isDisabled m); (split; [reflexivity|]).
    + exact H1.
    + cbn. apply single_drain_in_flight. now apply single_drain_enqueue.
Qed.

Lemma one_sync_at_a_time_per_queue_witness :
  (SyncQueue.in_flight
     (GitSyncManager.syncQueue
        (GitSyncManager.run overlapping_schedule GitSyncManager.construct)) <= 1)%nat /\
  (SyncQueue.in_flight
     (DebouncedSyncQueue.base
        (GitSyncManager.debouncedQueue
           (GitSyncManager.run overlapping_schedule GitSyncManager.construct))) <= 1)%nat.
Proof.
  destruct (one_sync_at_a_time_per_queue
              (GitSyncManager.run overlapping_schedule GitSyncManager.construct)
              (ex_intro _ overlapping_schedule eq_refl)) as (H1 & H2 & _).
  split; [exact H1 | exact H2].
Defined.

(* ===================================================================== *)
(** ** Deduplication by id *)
(* ===================================================================== *)

Section Deduplication.

Context {Op Val : Type}.
Implicit Types (q : SyncQueue.t Op Val) (item : SyncQueue.QueueItem Op).

Import SyncQueue.

Lemma or_else_explicit (i fallback : string) :
  Js.truthy i = true -> Js.or_else (Some i) fallback = i.
Proof. intro H. unfold Js.or_else. now rewrite H. Qed.

Lemma has_id_In (i : string) (l : list (QueueItem Op)) :
  has_id i l = true <-> In i (waiting_ids l).
Proof.
  unfold has_id, waiting_ids. rewrite existsb_exists, in_map_iff. split.
  - intros (x & Hin & Heq). apply String.eqb_eq in Heq. now exists x.
  - intros (x & Heq & Hin). exists x. split; [exact Hin | now apply String.eqb_eq].
Qed.

Lemma in_waiting_ids_insert (x : string) item (l : list (QueueItem Op)) :
  In x (waiting_ids (insert item l)) <-> x = id item \/ In x (waiting_ids l).
Proof.
  induction l as [|y l IH]; cbn.
  - intuition.
  - destruct (priority y <? priority item); cbn; [intuition|].
    rewrite IH. intuition.
Qed.

Lemma NoDup_waiting_ids_insert item (l : list (QueueItem Op)) :
  ~ In (id item) (waiting_ids l) -> NoDup (waiting_ids l) ->
  NoDup (waiting_ids (insert item l)).
Proof.
  induction l as [|y l IH]; intros Hfresh Hnd; cbn.
  - constructor; [intros [] | constructor].
  - destruct (priority y <? priority item); cbn.
    + constructor; [exact Hfresh | exact Hnd].
    + cbn in Hfresh, Hnd. inversion Hnd as [|? ? Hy Hl]; subst.
      constructor.
      * intro Hin. apply (in_waiting_ids_insert (id y) item l) in Hin.
        destruct Hin as [Heq | Hin]; [|contradiction].
        apply Hfresh. now left.
      * apply IH; [|exact Hl]. intro Hin. apply Hfresh. now right.
Qed.

Lemma In_insert item (l : list (QueueItem Op)) : In item (insert item l).
Proof.
  induction l as [|y l IH]; cbn; [now left|].
  destruct (priority y <? priority item); [now left | now right].
Qed.

(** The loop head takes the first waiting item, or nothing. *)
Lemma drain_next_queue q :
  (queue (drain_next q) = queue q /\ drains (drain_next q) = drains q /\ queue q = [])
  \/ exists item, queue q = item :: queue (drain_next q)
                  /\ drains (drain_next q) = (drains q ++ [AwaitingOperation item])%list.
Proof.
  unfold drain_next. destruct (queue q) as [|item rest] eqn:E.
  - left. cbn. now rewrite E.
  - right. exists item. cbn. now split.
Qed.

Lemma drain_next_waiters q : waiters (drain_next q) = waiters q.
Proof. unfold drain_next. now destruct (queue q). Qed.

Lemma process_queue q :
  (queue (process q) = queue q /\ drains (process q) = drains q)
  \/ exists item, queue q = item :: queue (process q)
                  /\ drains (process q) = (drains q ++ [AwaitingOperation item])%list.
Proof.
  unfold process. destruct (processing q || _); [now left|].
  destruct (drain_next_queue (emit EProcessingStarted (set_processing true q)))
    as [(H1 & H2 & _) | (item & H1 & H2)]; [left | right].
  - now split.
  - exists item. now split.
Qed.

Lemma process_waiters q : waiters (process q) = waiters q.
Proof.
  unfold process. destruct (processing q || _); [reflexivity|]. now rewrite drain_next_waiters.
Qed.

Lemma has_id_drain_next (i : string) q :
  has_id i (queue q) = false -> has_id i (queue (drain_next q)) = false.
Proof.
  intro H. destruct (drain_next_queue q) as [(-> & _) | (item & Hq & _)]; [exact H|].
  rewrite Hq in H. cbn in H. now apply orb_false_elim in H.
Qed.

(** What an accepted [enqueue] does. *)
Lemma enqueue_accepted operation priority (i : option string) now random q :
  (match i with Some i0 => Js.truthy i0 && has_id i0 (queue q) | None => false end) = false ->
  let key := Js.or_else i (generated_id now random) in
  let item := mkItem key operation priority now 0 in
  let q1 := snd (enqueue operation priority i now random q) in
  fst (enqueue operation priority i now random q) = Accepted (List.length (waiters q)) /\
  waiters q1 = (waiters q ++ [mkWaiter key Pending])%list /\
  ((queue q1 = insert item (queue q) /\ drains q1 = drains q)
   \/ exists first, insert item (queue q) = first :: queue q1
                    /\ drains q1 = (drains q ++ [AwaitingOperation first])%list).
Proof.
  intros Hfree key item q1. subst q1. unfold enqueue. rewrite Hfree. fold key. fold item.
  set (q2 := emit (EEnqueued key _) (set_queue (insert item (queue q)) q)).
  cbn [fst snd]. rewrite process_waiters. cbn [waiters set_waiters queue drains].
  split; [reflexivity|]. split; [reflexivity|].
  destruct (process_queue q2) as [(H1 & H2) | (first & H1 & H2)]; [left | right].
  - now split.
  - exists first. now split.
Qed.

End Deduplication.




(* ===================================================================== *)
(** ** Spawn faults and [clear()] *)
(* ===================================================================== *)

Section ClearProperties.

Context {Op Val : Type}.
Implicit Types (q : SyncQueue.t Op Val) (item : SyncQueue.QueueItem Op).

Import SyncQueue.

Lemma nth_error_settle (j : string) (s : Settlement Val) (ws : list (Waiter Val))
    (w : nat) (x : Waiter Val) :
  nth_error ws w = Some x ->
  nth_error (settle j s ws) w
  = Some (if is_pending (promise x) && String.eqb (listens_to x) j
          then mkWaiter (listens_to x) s else x).
Proof.
  intro H. unfold settle. rewrite nth_error_map, H. reflexivity.
Qed.

Lemma executing_ids_app (a b : list (Drain Op)) :
  executing_ids (a ++ b) = (executing_ids a ++ executing_ids b)%list.
Proof. unfold executing_ids. apply flat_map_app. Qed.

Lemma executing_ids_nth (l : list (Drain Op)) (k : nat) item :
  nth_error l k = Some (AwaitingOperation item) -> In (id item) (executing_ids l).
Proof.
  revert k. induction l as [|d l IH]; intros [|k] H; try discriminate.
  - injection H as ->. now left.
  - cbn. apply in_or_app. right. exact (IH k H).
Qed.

Lemma executing_ids_drop_nth (l : list (Drain Op)) (k : nat) (x : string) :
  In x (executing_ids (drop_nth k l)) -> In x (executing_ids l).
Proof.
  revert k. induction l as [|d l IH]; intros [|k] H; cbn in *; try contradiction.
  - apply in_or_app. now right.
  - apply in_app_or in H as [H | H]; apply in_or_app; [now left | right; exact (IH k H)].
Qed.

Lemma executing_ids_replace_backoff (l : list (Drain Op)) (k : nat) (ms : Z) (x : string) :
  In x (executing_ids (replace_nth k (Backoff ms) l)) -> In x (executing_ids l).
Proof.
  revert k. induction l as [|d l IH]; intros [|k] H; cbn in *; try contradiction.
  - apply in_or_app. now right.
  - apply in_app_or in H as [H | H]; apply in_or_app; [now left | right; exact (IH k H)].
Qed.

Lemma abandoned_drain_next (i : string) (w : nat) q :
  abandoned i w q -> abandoned i w (drain_next q).
Proof.
  intros (Hq & Hd & Hw). unfold abandoned. rewrite drain_next_waiters.
  destruct (drain_next_queue q) as [(-> & -> & _) | (item & Hqueue & ->)].
  - now repeat split.
  - rewrite Hqueue in Hq. cbn in Hq. repeat split; try assumption.
    + intro Hin. apply Hq. now right.
    + rewrite executing_ids_app. intro Hin. apply in_app_or in Hin as [Hin | Hin];
        [contradiction|].
      cbn in Hin. destruct Hin as [Heq | []]. apply Hq. now left.
Qed.

Lemma abandoned_enqueue (i : string) (w : nat) operation priority (given : option string)
    now random q :
  Js.or_else given (generated_id now random) <> i ->
  abandoned i w q -> abandoned i w (snd (enqueue operation priority given now random q)).
Proof.
  intros Hkey (Hq & Hd & Hw).
  destruct (match given with
            | Some i0 => Js.truthy i0 && has_id i0 (queue q)
            | None => false
            end) eqn:Hdup.
  - unfold enqueue. rewrite Hdup. now repeat split.
  - destruct (enqueue_accepted operation priority given now random q Hdup)
      as (_ & Hwaiters & Hplace).
    set (key := Js.or_else given (generated_id now random)) in *.
    set (item := mkItem key operation priority now 0) in *.
    assert (Hins : ~ In i (waiting_ids (insert item (queue q)))).
    { intro Hin. apply in_waiting_ids_insert in Hin as [Heq | Hin]; [|contradiction].
      apply Hkey. now symmetry. }
    unfold abandoned. rewrite Hwaiters.
    split; [|split].
    + destruct Hplace as [(-> & _) | (first & Hfirst & _)]; [exact Hins|].
      rewrite Hfirst in Hins. intro Hin. apply Hins. now right.
    + destruct Hplace as [(_ & ->) | (first & Hfirst & ->)]; [exact Hd|].
      rewrite executing_ids_app. intro Hin. apply in_app_or in Hin as [Hin | Hin];
        [contradiction|].
      cbn in Hin. destruct Hin as [Heq | []]. apply Hins. rewrite Hfirst. now left.
    + rewrite nth_error_app1; [exact Hw|]. apply nth_error_Some. now rewrite Hw.
Qed.

Lemma abandoned_after_operation (i : string) (w : nat) q k item outcome :
  nth_error (drains q) k = Some (AwaitingOperation item) ->
  abandoned i w q -> abandoned i w (after_operation k item outcome q).
Proof.
  intros Hk (Hq & Hd & Hw).
  assert (Hid : id item <> i).
  { intros <-. apply Hd. exact (executing_ids_nth _ _ _ Hk). }
  assert (Hkeep : forall s, nth_error (settle (id item) s (waiters q)) w
                            = Some (mkWaiter i Pending)).
  { intro s. rewrite (nth_error_settle _ _ _ _ _ Hw). cbn.
    destruct (String.eqb_spec i (id item)) as [Heq | _]; [|reflexivity].
    exfalso. apply Hid. now symmetry. }
  unfold after_operation. destruct outcome as [result | error].
  - apply abandoned_drain_next. unfold abandoned. cbn. repeat split.
    + exact Hq.
    + intro Hin. apply Hd. exact (executing_ids_drop_nth _ _ _ Hin).
    + apply Hkeep.
  - destruct (isSpawnError error).
    + apply abandoned_drain_next. unfold abandoned. cbn. repeat split.
      * intros [].
      * intro Hin. apply Hd. exact (executing_ids_drop_nth _ _ _ Hin).
      * apply Hkeep.
    + cbn [retries id]. destruct (retries item + 1 <? maxRetries q).
      * unfold abandoned. cbn. repeat split.
        -- intros [Heq | Hin]; [now apply Hid | contradiction].
        -- intro Hin. apply Hd. exact (executing_ids_replace_backoff _ _ _ _ Hin).
        -- exact Hw.
      * apply abandoned_drain_next. unfold abandoned. cbn. repeat split.
        -- exact Hq.
        -- intro Hin. apply Hd. exact (executing_ids_drop_nth _ _ _ Hin).
        -- apply Hkeep.
Qed.

Lemma remove_first_subset (i : string) (l l1 : list (QueueItem Op)) (x : string) :
  remove_first i l = Some l1 -> In x (waiting_ids l1) -> In x (waiting_ids l).
Proof.
  revert l1. induction l as [|y l IH]; intros l1 H Hin; [discriminate|].
  cbn in H. destruct (String.eqb (id y) i).
  - injection H as <-. now right.
  - destruct (remove_first i l) as [l2|]; [|discriminate].
    injection H as <-. cbn in Hin. destruct Hin as [Heq | Hin]; [now left|].
    right. exact (IH l2 eq_refl Hin).
Qed.

Lemma abandoned_turn (i : string) (w : nat) (e : Turn Op Val) q q1 :
  key_of e <> Some i -> abandoned i w q -> turn e q = Some q1 -> abandoned i w q1.
Proof.
  intros Hkey Hq Hturn.
  destruct e as [op p given now random | k outcome | k | | j]; cbn in Hturn.
  - injection Hturn as <-. apply abandoned_enqueue; [|exact Hq].
    intro Heq. apply Hkey. exact (f_equal Some Heq).
  - unfold operation_settles in Hturn.
    destruct (nth_error (drains q) k) as [[item | ms]|] eqn:Hk; try discriminate.
    injection Hturn as <-. now apply abandoned_after_operation.
  - unfold backoff_over in Hturn.
    destruct (nth_error (drains q) k) as [[item | ms]|] eqn:Hk; try discriminate.
    injection Hturn as <-. apply abandoned_drain_next.
    destruct Hq as (Hq & Hd & Hw). unfold abandoned. cbn. repeat split; try assumption.
    intro Hin. apply Hd. exact (executing_ids_drop_nth _ _ _ Hin).
  - injection Hturn as <-. destruct Hq as (Hq & Hd & Hw). unfold abandoned. cbn.
    repeat split; try assumption. intros [].
  - injection Hturn as <-. unfold remove.
    destruct (remove_first j (queue q)) as [l|] eqn:Hrem; [|exact Hq].
    destruct Hq as (Hq & Hd & Hw). unfold abandoned. cbn. repeat split; try assumption.
    intro Hin. apply Hq. exact (remove_first_subset _ _ _ _ Hrem Hin).
Qed.

Lemma abandoned_run (i : string) (w : nat) (es : list (Turn Op Val)) q :
  Forall (fun e => key_of e <> Some i) es -> abandoned i w q -> abandoned i w (run es q).
Proof.
  intros Hes. revert q. induction Hes as [|e es He _ IH]; intros q Hq; [exact Hq|].
  cbn. apply IH. destruct (turn e q) as [q1|] eqn:E; [|exact Hq].
  exact (abandoned_turn i w e q q1 He Hq E).
Qed.

End ClearProperties.

(** C5, as stated, fails: a promise whose item was discarded by [clear()]
    is settled after all when, later, an operation filed under the same
    id completes; it then receives that operation's result. *)
Lemma cleared_promise_settled_by_a_namesake :
  ~ (forall (q : SyncQueue.t nat nat) (w : nat) (item : SyncQueue.QueueItem nat)
            (es : list (SyncQueue.Turn nat nat)),
        SyncQueue.reachable 3 q ->
        In item (SyncQueue.queue q) ->
        nth_error (SyncQueue.waiters q) w
        = Some (SyncQueue.mkWaiter (SyncQueue.id item) SyncQueue.Pending) ->
        SyncQueue.promise_of w (SyncQueue.run es (SyncQueue.clear q)) = SyncQueue.Pending).
Proof.
  intro claim.
  specialize (claim a_running_b_waiting 1%nat (SyncQueue.mkItem "b" 2%nat 0 1001 0)
                    [SyncQueue.TSettles 0 (Return 7%nat);
                     SyncQueue.TEnqueue 3%nat 0 (Some "b") 5000 "0.3";
                     SyncQueue.TSettles 0 (Return 9%nat)]).
  assert (Hreach : SyncQueue.reachable 3 a_running_b_waiting) by (eexists; reflexivity).
  specialize (claim Hreach).
  vm_compute in claim. specialize (claim (or_introl eq_refl) eq_refl). discriminate claim.
Qed.

(** C5, amended.  When the operation a drain is executing fails with a
    message containing "spawn eio" in any letter case, the failure is
    announced under the item's id, which rejects with that error every
    promise still pending under that id (the failing caller's own, unless
    an operation filed under the same id settled it earlier); the queue
    is emptied, the drain ends and [processing] is false.  [clear()]
    empties the queue and settles no promise; a promise left behind under
    the id [i] stays pending over every later schedule in which no
    operation under [i] is executing at the time of the [clear()] and
    none is filed under [i] afterwards. *)
Theorem spawn_fault_and_clear :
  forall (Op Val : Type) (q : SyncQueue.t Op Val),
    (forall (k : nat) (item : SyncQueue.QueueItem Op) (error : thrown),
        nth_error (SyncQueue.drains q) k = Some (SyncQueue.AwaitingOperation item) ->
        SyncQueue.isSpawnError error = true ->
        let q1 := SyncQueue.after_operation k item (Raise error) q in
        SyncQueue.turn (SyncQueue.TSettles k (Raise error)) q = Some q1 /\
        SyncQueue.queue q1 = [] /\
        SyncQueue.processing q1 = false /\
        SyncQueue.drains q1 = SyncQueue.drop_nth k (SyncQueue.drains q) /\
        (single_drain q -> SyncQueue.drains q1 = []) /\
        (forall w, nth_error (SyncQueue.waiters q) w
                   = Some (SyncQueue.mkWaiter (SyncQueue.id item) SyncQueue.Pending) ->
                   SyncQueue.promise_of w q1 = SyncQueue.Rejected error)) /\
    (SyncQueue.queue (SyncQueue.clear q) = [] /\
     SyncQueue.waiters (SyncQueue.clear q) = SyncQueue.waiters q /\
     SyncQueue.drains (SyncQueue.clear q) = SyncQueue.drains q) /\
    (forall (w : nat) (i : string) (es : list (SyncQueue.Turn Op Val)),
        nth_error (SyncQueue.waiters q) w = Some (SyncQueue.mkWaiter i SyncQueue.Pending) ->
        ~ In i (executing_ids (SyncQueue.drains q)) ->
        Forall (fun e => key_of e <> Some i) es ->
        SyncQueue.promise_of w (SyncQueue.run es (SyncQueue.clear q)) = SyncQueue.Pending).
Proof.
  intros Op Val q. split; [|split].
  - intros k item error Hk Hspawn q1. subst q1.
    unfold SyncQueue.turn, SyncQueue.operation_settles. rewrite Hk.
    unfold SyncQueue.after_operation. rewrite Hspawn.
    unfold SyncQueue.drain_next. cbn.
    split; [reflexivity|]. split; [reflexivity|]. split; [reflexivity|].
    split; [reflexivity|]. split.
    + intro Hsingle. destruct (single_drain_position q k _ Hsingle Hk) as (-> & ->).
      reflexivity.
    + intros w Hw. unfold SyncQueue.promise_of. cbn.
      rewrite (nth_error_settle _ _ _ _ _ Hw). cbn. now rewrite String.eqb_refl.
  - repeat split.
  - intros w i es Hw Hexec Hes.
    assert (Hstart : abandoned i w (SyncQueue.clear q)).
    { unfold abandoned. cbn. repeat split; [intros [] | exact Hexec | exact Hw]. }
    destruct (abandoned_run i w es _ Hes Hstart) as (_ & _ & Hend).
    unfold SyncQueue.promise_of. now rewrite Hend.
Qed.

Lemma spawn_fault_and_clear_witness :
  (SyncQueue.queue (SyncQueue.after_operation 0 (SyncQueue.mkItem "a" 1%nat 0 1000 0)
                      (Raise spawn_fault) a_running_b_waiting) = [] /\
   SyncQueue.promise_of 0 (SyncQueue.after_operation 0 (SyncQueue.mkItem "a" 1%nat 0 1000 0)
                             (Raise spawn_fault) a_running_b_waiting)
   = SyncQueue.Rejected spawn_fault) /\
  SyncQueue.promise_of 1
    (SyncQueue.run [SyncQueue.TSettles 0 (Return 7%nat);
                    SyncQueue.TEnqueue 3%nat 0 (Some "c") 5000 "0.3";
                    SyncQueue.TSettles 0 (Return 9%nat)]
                   (SyncQueue.clear a_running_b_waiting))
  = SyncQueue.Pending.
Proof.
  destruct (spawn_fault_and_clear nat nat a_running_b_waiting) as (Hspawn & _ & Hclear).
  split.
  - destruct (Hspawn 0%nat (SyncQueue.mkItem "a" 1%nat 0 1000 0) spawn_fault eq_refl eq_refl)
      as (_ & Hq & _ & _ & _ & Hw).
    split; [exact Hq | exact (Hw 0%nat eq_refl)].
  - apply (Hclear 1%nat "b"); [reflexivity | |].
    + cbn. intros [H | []]. discriminate H.
    + repeat constructor; cbn; discriminate.
Defined.

(* ===================================================================== *)
(** ** The debounced queue *)
(* ===================================================================== *)

Section DebouncedProperties.

Context {Op Val : Type}.
Implicit Types (d : DebouncedSyncQueue.t Op Val).

Import DebouncedSyncQueue.

Lemma nth_error_replace_nth_other {A} (l : list A) (k n : nat) (a : A) :
  n <> k -> nth_error (SyncQueue.replace_nth k a l) n = nth_error l n.
Proof.
  revert k n. induction l as [|x l IH]; intros [|k] [|n] H; cbn; try reflexivity.
  - contradiction.
  - apply IH. congruence.
Qed.

Lemma nth_error_replace_nth_same {A} (l : list A) (k : nat) (a x : A) :
  nth_error l k = Some x -> nth_error (SyncQueue.replace_nth k a l) k = Some a.
Proof.
  revert k. induction l as [|y l IH]; intros [|k] H; cbn in *; try discriminate.
  - reflexivity.
  - exact (IH k H).
Qed.

Lemma length_replace_nth {A} (l : list A) (k : nat) (a : A) :
  List.length (SyncQueue.replace_nth k a l) = List.length l.
Proof.
  revert k. induction l as [|y l IH]; intros [|k]; cbn; try reflexivity. now rewrite IH.
Qed.

Lemma length_clearTimeout (handle : nat) (l : list Call) :
  List.length (clearTimeout handle l) = List.length l.
Proof.
  unfold clearTimeout.
  destruct (nth_error l handle) as [[| | | |]|]; try reflexivity. apply length_replace_nth.
Qed.

(** [clearTimeout] leaves every call alone except an armed one it is
    aimed at. *)
Lemma nth_error_clearTimeout (handle n : nat) (l : list Call) (c : Call) :
  nth_error l n = Some c -> c <> Armed -> nth_error (clearTimeout handle l) n = Some c.
Proof.
  intros Hn Hc. unfold clearTimeout.
  destruct (nth_error l handle) as [[| | | |]|] eqn:Hh; try exact Hn.
  rewrite nth_error_replace_nth_other; [exact Hn|].
  intros ->. rewrite Hh in Hn. injection Hn as <-. now apply Hc.
Qed.

Lemma cancelled_enqueueDebounced (operation : Op) d (n : nat) :
  nth_error (calls d) n = Some Cancelled ->
  nth_error (calls (snd (enqueueDebounced operation d))) n = Some Cancelled.
Proof.
  intro Hn. unfold enqueueDebounced. cbn.
  assert (Hlt : (n < List.length (calls d))%nat) by (apply nth_error_Some; now rewrite Hn).
  destruct (debounceTimer d) as [handle|].
  - rewrite nth_error_app1 by (now rewrite length_clearTimeout).
    apply nth_error_clearTimeout; [exact Hn | discriminate].
  - now rewrite nth_error_app1.
Qed.

Lemma cancelled_run_finally d (n : nat) :
  nth_error (calls d) n = Some Cancelled ->
  nth_error (calls (run_finally d)) n = Some Cancelled.
Proof.
  intro Hn. unfold run_finally.
  destruct (existsb _ (calls d)); [|exact Hn].
  cbn. rewrite nth_error_map, Hn. reflexivity.
Qed.

Lemma cancelled_turn (e : Turn Op Val) d d1 (n : nat) :
  nth_error (calls d) n = Some Cancelled -> turn e d = Some d1 ->
  nth_error (calls d1) n = Some Cancelled.
Proof.
  intros Hn Hturn. destruct e as [operation | m now random | b]; cbn in Hturn.
  - injection Hturn as <-. now apply cancelled_enqueueDebounced.
  - unfold timer_fires in Hturn.
    destruct (nth_error (calls d) m) as [[| | | |]|] eqn:Hm; try discriminate.
    assert (Hne : n <> m) by (intros ->; congruence).
    destruct (pendingOperation d) as [operation|].
    + destruct (SyncQueue.enqueue operation 0 (Some reserved_id) now random (base d))
        as [[error | w] b]; injection Hturn as <-; cbn;
        now rewrite nth_error_replace_nth_other.
    + injection Hturn as <-. cbn. now rewrite nth_error_replace_nth_other.
  - unfold base_turn in Hturn.
    destruct (SyncQueue.turn b (base d)) as [b1|]; [|discriminate].
    injection Hturn as <-. now apply cancelled_run_finally.
Qed.

Lemma cancelled_run (es : list (Turn Op Val)) d (n : nat) :
  nth_error (calls d) n = Some Cancelled ->
  nth_error (calls (run es d)) n = Some Cancelled.
Proof.
  revert d. induction es as [|e es IH]; intros d Hn; [exact Hn|].
  cbn. apply IH. destruct (turn e d) as [d1|] eqn:E; [|exact Hn].
  exact (cancelled_turn e d d1 n Hn E).
Qed.

(** The timer armed by a call stays armed, and stays the current one,
    while only turns of the inherited queue take place. *)
Lemma armed_through_base_turns (es : list (Turn Op Val)) d (n : nat) :
  Forall is_base_turn es ->
  nth_error (calls d) n = Some Armed -> debounceTimer d = Some n ->
  nth_error (calls (run es d)) n = Some Armed /\ debounceTimer (run es d) = Some n.
Proof.
  intro Hes. revert d. induction Hes as [|e es He _ IH]; intros d Hn Ht; [now split|].
  cbn. destruct e as [| |b]; try contradiction. cbn.
  unfold base_turn. destruct (SyncQueue.turn b (base d)) as [b1|]; [|now apply IH].
  apply IH.
  - unfold run_finally. cbn. destruct (existsb _ (calls d)); [|exact Hn].
    cbn. rewrite nth_error_map, Hn. reflexivity.
  - unfold run_finally. cbn. now destruct (existsb _ (calls d)).
Qed.

Lemma enqueueDebounced_arms (operation : Op) d :
  let n := fst (enqueueDebounced operation d) in
  let d1 := snd (enqueueDebounced operation d) in
  nth_error (calls d1) n = Some Armed /\ debounceTimer d1 = Some n /\
  pendingOperation d1 = Some operation /\ base d1 = base d.
Proof.
  unfold enqueueDebounced. cbn.
  split; [|now repeat split].
  rewrite nth_error_app2 by lia. now rewrite Nat.sub_diag.
Qed.

Lemma enqueueDebounced_cancels (operation : Op) d (n : nat) :
  nth_error (calls d) n = Some Armed -> debounceTimer d = Some n ->
  nth_error (calls (snd (enqueueDebounced operation d))) n = Some Cancelled.
Proof.
  intros Hn Ht. unfold enqueueDebounced. rewrite Ht. cbn.
  assert (Hlt : (n < List.length (calls d))%nat) by (apply nth_error_Some; now rewrite Hn).
  rewrite nth_error_app1 by (now rewrite length_clearTimeout).
  unfold clearTimeout. rewrite Hn. exact (nth_error_replace_nth_same _ _ _ _ Hn).
Qed.

End DebouncedProperties.

Section Retries.

Context {Op Val : Type}.
Implicit Types (q : SyncQueue.t Op Val).

Import SyncQueue.

Lemma run_app (a b : list (Turn Op Val)) q : run (a ++ b) q = run b (run a q).
Proof. revert q. induction a as [|e a IH]; intro q; [reflexivity | apply IH]. Qed.

Lemma failures_app (a b : list thrown) :
  @failures Op Val (a ++ b) = (failures a ++ failures b)%list.
Proof. induction a as [|e a IH]; [reflexivity|]. cbn. now rewrite IH. Qed.

Lemma firstn_failures (errors : list thrown) (j : nat) (error : thrown) :
  nth_error errors j = Some error ->
  firstn (2 * j + 1) (@failures Op Val errors)
  = (failures (firstn j errors) ++ [TSettles 0 (Raise error)])%list.
Proof.
  revert j. induction errors as [|e rest IH]; intros [|j] H; try discriminate H.
  - injection H as ->. reflexivity.
  - replace (2 * S j + 1)%nat with (S (S (2 * j + 1))) by lia.
    cbn [failures firstn app]. now rewrite (IH j H).
Qed.

Variable item : QueueItem Op.


Lemma failure_then_pause (r : Z) (error : thrown) q :
  executing_alone item r q -> isSpawnError error = false -> r + 1 < maxRetries q ->
  exists q1,
    turn (TSettles 0 (Raise error)) q = Some q1 /\
    pausing q1 = Some (2 ^ (r + 1) * 1000) /\
    queue q1 = [attempt_of item (r + 1)] /\
    waiters q1 = waiters q /\ maxRetries q1 = maxRetries q /\ starts q1 = starts q /\
    exists q2,
      turn (TBackoffOver 0) q1 = Some q2 /\ executing_alone item (r + 1) q2 /\
      waiters q2 = waiters q /\ maxRetries q2 = maxRetries q /\ starts q2 = S (starts q).
Proof.
  intros (Hq & Hp & Hd) Hspawn Hlt.
  unfold turn, operation_settles. rewrite Hd. cbn [nth_error].
  unfold after_operation. rewrite Hspawn. cbn [retries attempt_of].
  apply Z.ltb_lt in Hlt. rewrite Hlt.
  eexists. split; [reflexivity|].
  unfold pausing. cbn. rewrite Hd, Hq. cbn.
  split; [reflexivity|]. split; [reflexivity|]. split; [reflexivity|]. split; [reflexivity|].
  split.
  { unfold starts. cbn. now rewrite filter_app, length_app, Nat.add_0_r. }
  unfold backoff_over. cbn. eexists. split; [reflexivity|].
  unfold executing_alone, drain_next, starts. cbn.
  split; [now rewrite Hp|]. split; [reflexivity|]. split; [reflexivity|].
  rewrite !filter_app, !length_app. cbn. lia.
Qed.

Lemma failures_keep_retrying (errors : list thrown) :
  forall (r : Z) q,
    executing_alone item r q ->
    Forall (fun error => isSpawnError error = false) errors ->
    r + Z.of_nat (List.length errors) < maxRetries q ->
    executing_alone item (r + Z.of_nat (List.length errors)) (run (failures errors) q) /\
    waiters (run (failures errors) q) = waiters q /\
    maxRetries (run (failures errors) q) = maxRetries q /\
    starts (run (failures errors) q) = (starts q + List.length errors)%nat.
Proof.
  induction errors as [|error rest IH]; intros r q Halone Hplain Hlt.
  - cbn. rewrite Z.add_0_r, Nat.add_0_r. split; [exact Halone|]. now repeat split.
  - inversion Hplain as [|? ? Herror Hrest]; subst.
    cbn [List.length] in Hlt. rewrite Nat2Z.inj_succ in Hlt.
    destruct (failure_then_pause r error q Halone Herror ltac:(lia))
      as (q1 & Hq1 & _ & _ & _ & _ & _ & q2 & Hq2 & Halone2 & Hw2 & Hm2 & Hs2).
    cbn [failures run]. rewrite Hq1, Hq2.
    destruct (IH (r + 1) q2 Halone2 Hrest ltac:(rewrite Hm2; lia)) as (Ha & Hw & Hm & Hs).
    cbn [List.length]. rewrite Nat2Z.inj_succ.
    replace (r + Z.succ (Z.of_nat (List.length rest)))
      with (r + 1 + Z.of_nat (List.length rest)) by lia.
    split; [exact Ha|]. split; [congruence|]. split; [congruence|]. lia.
Qed.

End Retries.

Section DebouncedRetries.

Context {Op Val : Type}.
Implicit Types (d : DebouncedSyncQueue.t Op Val).

Import DebouncedSyncQueue.

(** Turns of the inherited queue act on it as they do on a plain queue. *)
Lemma base_through_base_turns (es : list (SyncQueue.Turn Op Val)) d :
  base (run (map TBase es) d) = SyncQueue.run es (base d).
Proof.
  revert d. induction es as [|e es IH]; intro d; [reflexivity|].
  cbn [map run SyncQueue.run turn]. unfold base_turn.
  destruct (SyncQueue.turn e (base d)) as [b|]; rewrite IH; [|reflexivity].
  f_equal. unfold run_finally. cbn [base]. now destruct (existsb _ _).
Qed.

(** A call whose operation was handed to the queue stays so. *)
Lemma forwarded_through_base_turns (es : list (SyncQueue.Turn Op Val)) d
    (n w : nat) (finished : bool) :
  nth_error (calls d) n = Some (Forwarded w finished) ->
  exists finished1,
    nth_error (calls (run (map TBase es) d)) n = Some (Forwarded w finished1).
Proof.
  revert d finished. induction es as [|e es IH]; intros d finished Hn; [now exists finished|].
  cbn [map run turn]. unfold base_turn.
  destruct (SyncQueue.turn e (base d)) as [b|]; [|exact (IH d finished Hn)].
  assert (Hkept : exists finished1,
             nth_error (calls (run_finally (mk b (debounceMs d) (debounceTimer d)
                                               (pendingOperation d) (calls d)))) n
             = Some (Forwarded w finished1)).
  { unfold run_finally. cbn [base calls].
    destruct (existsb (settled_now b) (calls d)); cbn [calls]; [|now exists finished].
    rewrite nth_error_map, Hn. cbn [option_map].
    destruct (settled_now b (Forwarded w finished)); cbn [finish]; eauto. }
  destruct Hkept as (finished1 & Hkept). exact (IH _ finished1 Hkept).
Qed.

(** An operation that ends its stay in the queue settles the promise
    that listens to its id with its result or its error. *)
Lemma promise_after_terminal (q : SyncQueue.t Op Val) (k w : nat)
    (item : SyncQueue.QueueItem Op) (outcome : Res Val) :
  nth_error (SyncQueue.waiters q) w
  = Some (SyncQueue.mkWaiter (SyncQueue.id item) SyncQueue.Pending) ->
  terminal q item outcome ->
  SyncQueue.promise_of w (SyncQueue.after_operation k item outcome q)
  = match outcome with
    | Return v => SyncQueue.Resolved v
    | Raise e => SyncQueue.Rejected e
    end.
Proof.
  intros Hw Hterminal. unfold SyncQueue.promise_of, SyncQueue.after_operation.
  destruct outcome as [result | error].
  - rewrite drain_next_waiters. cbn.
    rewrite (nth_error_settle _ _ _ _ _ Hw). cbn. now rewrite String.eqb_refl.
  - destruct (SyncQueue.isSpawnError error) eqn:Hspawn.
    + rewrite drain_next_waiters. cbn.
      rewrite (nth_error_settle _ _ _ _ _ Hw). cbn. now rewrite String.eqb_refl.
    + destruct Hterminal as [Habs | Hlast]; [congruence|]. cbn [SyncQueue.retries].
      replace (SyncQueue.retries item + 1 <? SyncQueue.maxRetries q) with false
        by (symmetry; apply Z.ltb_ge; lia).
      rewrite drain_next_waiters. cbn.
      rewrite (nth_error_settle _ _ _ _ _ Hw). cbn. now rewrite String.eqb_refl.
Qed.

(** The timer fires on an idle queue: the operation is started at once. *)
Lemma fire_on_idle_queue (operation : Op) d (n : nat) (now : Z) (random : string) :
  nth_error (calls d) n = Some Armed -> pendingOperation d = Some operation ->
  SyncQueue.queue (base d) = [] -> SyncQueue.drains (base d) = [] ->
  SyncQueue.processing (base d) = false ->
  exists d3,
    timer_fires n now random d = Some d3 /\
    nth_error (calls d3) n
    = Some (Forwarded (List.length (SyncQueue.waiters (base d))) false) /\
    executing_alone (SyncQueue.mkItem reserved_id operation 0 now 0) 0 (base d3) /\
    SyncQueue.waiters (base d3)
    = (SyncQueue.waiters (base d) ++ [SyncQueue.mkWaiter reserved_id SyncQueue.Pending])%list /\
    SyncQueue.maxRetries (base d3) = SyncQueue.maxRetries (base d).
Proof.
  intros Harmed Hpending Hqueue Hdrains Hidle.
  unfold timer_fires. rewrite Harmed, Hpending.
  destruct (base d) as [qu pr mr dr ws em] eqn:Hb.
  cbn in Hqueue, Hdrains, Hidle. subst qu dr pr.
  unfold SyncQueue.enqueue, SyncQueue.process, SyncQueue.drain_next. cbn.
  eexists. split; [reflexivity|]. cbn.
  split; [exact (nth_error_replace_nth_same _ _ _ _ Harmed)|].
  now repeat split.
Qed.

End DebouncedRetries.

(** C10, as stated, fails: when the timer of the last call of a burst
    fires while the previous debounced operation is waiting for a retry,
    the reserved id is taken, the attempt to queue is refused, and the
    operation of the burst never reaches the queue. *)
Lemma last_debounced_call_can_bounce :
  ~ (forall (d : DebouncedSyncQueue.t nat nat) (n : nat) (operation : nat)
            (now : Z) (random : string),
        debounced_reachable d ->
        nth_error (DebouncedSyncQueue.calls d) n = Some DebouncedSyncQueue.Armed ->
        DebouncedSyncQueue.pendingOperation d = Some operation ->
        match DebouncedSyncQueue.timer_fires n now random d with
        | Some d1 =>
            exists item,
              SyncQueue.operation item = operation /\
              (In item (SyncQueue.queue (DebouncedSyncQueue.base d1))
               \/ In (SyncQueue.AwaitingOperation item)
                     (SyncQueue.drains (DebouncedSyncQueue.base d1)))
        | None => False
        end).
Proof.
  intro claim.
  assert (Hreach : debounced_reachable burst_during_retry) by (eexists; reflexivity).
  specialize (claim burst_during_retry 2%nat 3%nat 10500 "0.4" Hreach eq_refl eq_refl).
  vm_compute in claim.
  destruct claim as (item & Hop & [[Hin | []] | [Hin | []]]).
  - subst item. discriminate Hop.
  - discriminate Hin.
Qed.

(** C10, amended.  Let a call of [enqueueDebounced] be followed, before
    its timer fires, by another call: its promise is never resolved and
    never rejected, whatever happens later.  When the timer of a call
    does fire with an operation pending, exactly one [enqueue] of the
    pending (latest) operation is attempted under the reserved id: if an
    operation with that id is waiting in the queue, the attempt is
    refused, the promise is rejected with the duplicate-id error and the
    queue is left as it was; otherwise the operation is filed and the
    promise is pending.  If the queue was idle when that happened, the
    operation is started at once, and its success or terminal failure
    settles the promise with its result or error, at the first attempt
    or after any number of failed attempts that were retried. *)
Theorem debounced_burst_settlement :
  forall (Op Val : Type) (d : DebouncedSyncQueue.t Op Val) (operation : Op),
    let n := fst (DebouncedSyncQueue.enqueueDebounced operation d) in
    let d1 := snd (DebouncedSyncQueue.enqueueDebounced operation d) in
    (forall (between : list (DebouncedSyncQueue.Turn Op Val)) (later : Op)
            (after : list (DebouncedSyncQueue.Turn Op Val)),
        Forall is_base_turn between ->
        DebouncedSyncQueue.promise_of n
          (DebouncedSyncQueue.run after
             (snd (DebouncedSyncQueue.enqueueDebounced later
                     (DebouncedSyncQueue.run between d1))))
        = SyncQueue.Pending) /\
    (forall (between : list (DebouncedSyncQueue.Turn Op Val)) (latest : Op)
            (now : Z) (random : string),
        Forall is_base_turn between ->
        let d2 := DebouncedSyncQueue.run between d1 in
        DebouncedSyncQueue.pendingOperation d2 = Some latest ->
        exists d3,
          DebouncedSyncQueue.timer_fires n now random d2 = Some d3 /\
          if SyncQueue.has_id DebouncedSyncQueue.reserved_id
                              (SyncQueue.queue (DebouncedSyncQueue.base d2))
          then DebouncedSyncQueue.promise_of n d3
               = SyncQueue.Rejected (SyncQueue.duplicate_error DebouncedSyncQueue.reserved_id)
               /\ SyncQueue.queue (DebouncedSyncQueue.base d3)
                  = SyncQueue.queue (DebouncedSyncQueue.base d2)
               /\ SyncQueue.drains (DebouncedSyncQueue.base d3)
                  = SyncQueue.drains (DebouncedSyncQueue.base d2)
               /\ DebouncedSyncQueue.pendingOperation d3 = None
          else DebouncedSyncQueue.base d3
               = snd (SyncQueue.enqueue latest 0 (Some DebouncedSyncQueue.reserved_id)
                                        now random (DebouncedSyncQueue.base d2))
               /\ DebouncedSyncQueue.promise_of n d3 = SyncQueue.Pending) /\
    (forall (now : Z) (random : string),
        SyncQueue.queue (DebouncedSyncQueue.base d) = [] ->
        SyncQueue.drains (DebouncedSyncQueue.base d) = [] ->
        SyncQueue.processing (DebouncedSyncQueue.base d) = false ->
        let item := SyncQueue.mkItem DebouncedSyncQueue.reserved_id operation 0 now 0 in
        exists d3,
          DebouncedSyncQueue.timer_fires n now random d1 = Some d3 /\
          SyncQueue.drains (DebouncedSyncQueue.base d3) = [SyncQueue.AwaitingOperation item] /\
          forall outcome : Res Val,
            terminal (DebouncedSyncQueue.base d3) item outcome ->
            exists d4,
              DebouncedSyncQueue.turn
                (DebouncedSyncQueue.TBase (SyncQueue.TSettles 0 outcome)) d3 = Some d4 /\
              DebouncedSyncQueue.promise_of n d4
              = match outcome with
                | Return v => SyncQueue.Resolved v
                | Raise e => SyncQueue.Rejected e
                end) /\
    (forall (now : Z) (random : string) (errors : list thrown) (outcome : Res Val),
        SyncQueue.queue (DebouncedSyncQueue.base d) = [] ->
        SyncQueue.drains (DebouncedSyncQueue.base d) = [] ->
        SyncQueue.processing (DebouncedSyncQueue.base d) = false ->
        Forall (fun error => SyncQueue.isSpawnError error = false) errors ->
        (errors <> [] ->
         Z.of_nat (List.length errors) < SyncQueue.maxRetries (DebouncedSyncQueue.base d)) ->
        terminal (DebouncedSyncQueue.base d)
                 (SyncQueue.mkItem DebouncedSyncQueue.reserved_id operation 0 now
                                   (Z.of_nat (List.length errors)))
                 outcome ->
        DebouncedSyncQueue.promise_of n
          (DebouncedSyncQueue.run
             (DebouncedSyncQueue.TFire n now random
              :: map DebouncedSyncQueue.TBase
                     (failures errors ++ [SyncQueue.TSettles 0 outcome]))
             d1)
        = match outcome with
          | Return v => SyncQueue.Resolved v
          | Raise e => SyncQueue.Rejected e
          end).
Proof.
  intros Op Val d operation n d1.
  pose proof (enqueueDebounced_arms operation d) as Harms. cbv zeta in Harms.
  change (fst (DebouncedSyncQueue.enqueueDebounced operation d)) with n in Harms.
  change (snd (DebouncedSyncQueue.enqueueDebounced operation d)) with d1 in Harms.
  clearbody n d1. destruct Harms as (Harmed & Htimer & Hpending & Hbase).
  split; [|split; [|split]].
  - intros between later after Hbetween.
    destruct (armed_through_base_turns between d1 n Hbetween Harmed Htimer) as (Ha & Ht).
    pose proof (enqueueDebounced_cancels later _ n Ha Ht) as Hcancelled.
    pose proof (cancelled_run after _ n Hcancelled) as Hstill.
    unfold DebouncedSyncQueue.promise_of. now rewrite Hstill.
  - intros between latest now random Hbetween d2 Hlatest.
    destruct (armed_through_base_turns between d1 n Hbetween Harmed Htimer) as (Ha & _).
    fold d2 in Ha.
    unfold DebouncedSyncQueue.timer_fires. rewrite Ha, Hlatest.
    destruct (SyncQueue.has_id DebouncedSyncQueue.reserved_id
                               (SyncQueue.queue (DebouncedSyncQueue.base d2))) eqn:Hdup.
    + unfold SyncQueue.enqueue. rewrite Hdup. cbn [Js.truthy andb negb String.eqb].
      change (Js.truthy DebouncedSyncQueue.reserved_id) with true. cbn [andb].
      eexists. split; [reflexivity|].
      unfold DebouncedSyncQueue.promise_of. cbn.
      rewrite (nth_error_replace_nth_same _ _ _ _ Ha). repeat split.
    + assert (Hfree : (match Some DebouncedSyncQueue.reserved_id with
                       | Some i0 => Js.truthy i0
                                    && SyncQueue.has_id i0
                                         (SyncQueue.queue (DebouncedSyncQueue.base d2))
                       | None => false
                       end) = false) by (now rewrite Hdup).
      destruct (enqueue_accepted latest 0 (Some DebouncedSyncQueue.reserved_id) now random
                                 (DebouncedSyncQueue.base d2) Hfree) as (Hfst & Hwaiters & _).
      destruct (SyncQueue.enqueue latest 0 (Some DebouncedSyncQueue.reserved_id) now random
                                  (DebouncedSyncQueue.base d2)) as [[error | w] b] eqn:Henq;
        [discriminate Hfst|].
      cbn [fst snd] in *. injection Hfst as ->.
      eexists. split; [reflexivity|]. split; [reflexivity|].
      unfold DebouncedSyncQueue.promise_of. cbn.
      rewrite (nth_error_replace_nth_same _ _ _ _ Ha).
      unfold SyncQueue.promise_of. rewrite Hwaiters.
      rewrite nth_error_app2 by lia. now rewrite Nat.sub_diag.
  - intros now random Hqueue Hdrains Hidle item.
    rewrite <- Hbase in Hqueue, Hdrains, Hidle.
    unfold DebouncedSyncQueue.timer_fires. rewrite Harmed, Hpending.
    destruct (DebouncedSyncQueue.base d1) as [qu pr mr dr ws em] eqn:Hb.
    cbn in Hqueue, Hdrains, Hidle. subst qu dr pr.
    unfold SyncQueue.enqueue, SyncQueue.process, SyncQueue.drain_next. cbn.
    eexists. split; [reflexivity|]. cbn. split; [reflexivity|].
    intros outcome Hterminal.
    unfold DebouncedSyncQueue.base_turn, SyncQueue.turn, SyncQueue.operation_settles. cbn.
    assert (Hcall : nth_error (SyncQueue.replace_nth n
                                 (DebouncedSyncQueue.Forwarded (List.length ws) false)
                                 (DebouncedSyncQueue.calls d1)) n
                    = Some (DebouncedSyncQueue.Forwarded (List.length ws) false))
      by exact (nth_error_replace_nth_same _ _ _ _ Harmed).
    assert (Hfinal : forall (s : SyncQueue.Settlement Val) (b : SyncQueue.t Op Val)
                            (ms : Z) (timer : option nat) (pending : option Op),
               SyncQueue.is_pending s = false ->
               SyncQueue.promise_of (List.length ws) b = s ->
               DebouncedSyncQueue.promise_of n
                 (DebouncedSyncQueue.run_finally
                    (DebouncedSyncQueue.mk b ms timer pending
                       (SyncQueue.replace_nth n
                          (DebouncedSyncQueue.Forwarded (List.length ws) false)
                          (DebouncedSyncQueue.calls d1)))) = s).
    { intros s b ms timer pending Hs Hb'. unfold DebouncedSyncQueue.run_finally. cbn.
      destruct (existsb _ _); unfold DebouncedSyncQueue.promise_of; cbn.
      - rewrite nth_error_map, Hcall. cbn. rewrite Hb', Hs. cbn. exact Hb'.
      - rewrite Hcall. exact Hb'. }
    unfold SyncQueue.after_operation.
    destruct outcome as [v | e].
    + eexists. split; [reflexivity|].
      apply Hfinal; [reflexivity|].
      unfold SyncQueue.promise_of, SyncQueue.drain_next. cbn.
        rewrite nth_error_map, nth_error_app2 by lia. now rewrite Nat.sub_diag.
    + cbn in Hterminal. destruct (SyncQueue.isSpawnError e) eqn:Hspawn.
      * eexists. split; [reflexivity|].
        apply Hfinal; [reflexivity|].
        unfold SyncQueue.promise_of, SyncQueue.drain_next. cbn.
        rewrite nth_error_map, nth_error_app2 by lia. now rewrite Nat.sub_diag.
      * destruct Hterminal as [Hs | Hmax]; [discriminate Hs|].
        cbn [SyncQueue.retries].
        match goal with
        | |- context [SyncQueue.maxRetries ?x] => change (SyncQueue.maxRetries x) with mr
        end.
        replace (0 + 1 <? mr) with false by (symmetry; apply Z.ltb_ge; lia).
        eexists. split; [reflexivity|].
        apply Hfinal; [reflexivity|].
        unfold SyncQueue.promise_of, SyncQueue.drain_next. cbn.
        rewrite nth_error_map, nth_error_app2 by lia. now rewrite Nat.sub_diag.
  - intros now random errors outcome Hqueue Hdrains Hidle Hplain Hshort Hterminal.
    rewrite <- Hbase in Hqueue, Hdrains, Hidle.
    destruct (fire_on_idle_queue operation d1 n now random Harmed Hpending Hqueue Hdrains Hidle)
      as (d3 & Hfire & Hcall & Halone & Hwaiters & Hmax).
    rewrite Hbase in Hmax.
    cbn [DebouncedSyncQueue.run DebouncedSyncQueue.turn]. rewrite Hfire.
    destruct (forwarded_through_base_turns
                (failures errors ++ [SyncQueue.TSettles 0 outcome]) d3 n _ false Hcall)
      as (finished & Hforwarded).
    unfold DebouncedSyncQueue.promise_of. rewrite Hforwarded.
    rewrite base_through_base_turns, run_app.
    set (item := SyncQueue.mkItem DebouncedSyncQueue.reserved_id operation 0 now 0) in *.
    assert (Hretried :
              executing_alone item (Z.of_nat (List.length errors))
                (SyncQueue.run (failures errors) (DebouncedSyncQueue.base d3)) /\
              SyncQueue.waiters (SyncQueue.run (failures errors) (DebouncedSyncQueue.base d3))
              = SyncQueue.waiters (DebouncedSyncQueue.base d3) /\
              SyncQueue.maxRetries (SyncQueue.run (failures errors) (DebouncedSyncQueue.base d3))
              = SyncQueue.maxRetries (DebouncedSyncQueue.base d3)).
    { destruct errors as [|error rest]; [split; [exact Halone | split; reflexivity]|].
      destruct (failures_keep_retrying item (error :: rest) 0 (DebouncedSyncQueue.base d3)
                  Halone Hplain)
        as (Ha & Hw & Hm & _); [rewrite Hmax; apply Hshort; discriminate|].
      split; [exact Ha | split; [exact Hw | exact Hm]]. }
    destruct Hretried as ((_ & _ & Hexecuting) & Hw & Hm).
    cbn [SyncQueue.run SyncQueue.turn]. unfold SyncQueue.operation_settles.
    rewrite Hexecuting. cbn [nth_error].
    apply promise_after_terminal.
    + rewrite Hw, Hwaiters, nth_error_app2 by lia. now rewrite Nat.sub_diag.
    + unfold terminal in *. destruct outcome as [v | e]; [exact I|].
      rewrite Hm, Hmax. exact Hterminal.
Qed.

(** A burst of two calls: the promise of the first never settles; and a
    single call whose operation fails twice, is retried, and then
    succeeds: its promise is resolved with the result. *)
Lemma debounced_burst_settlement_witness :
  DebouncedSyncQueue.promise_of 0
    (DebouncedSyncQueue.run
       [DebouncedSyncQueue.TFire 1 5000 "0.1";
        DebouncedSyncQueue.TBase (SyncQueue.TSettles 0 (Return 9%nat))]
       fresh_burst)
  = SyncQueue.Pending /\
  DebouncedSyncQueue.promise_of 0
    (DebouncedSyncQueue.run
       (DebouncedSyncQueue.TFire 0 5000 "0.1"
        :: map DebouncedSyncQueue.TBase
               (failures [remote_failure; remote_failure]
                ++ [SyncQueue.TSettles 0 (Return 9%nat)]))
       (snd (DebouncedSyncQueue.enqueueDebounced 1%nat
               (DebouncedSyncQueue.construct (Val := nat) 5000 3))))
  = SyncQueue.Resolved 9%nat.
Proof.
  destruct (debounced_burst_settlement nat nat (DebouncedSyncQueue.construct 5000 3) 1%nat)
    as (Hsuperseded & _ & _ & Hretried).
  split.
  - exact (Hsuperseded [] 2%nat
             [DebouncedSyncQueue.TFire 1 5000 "0.1";
              DebouncedSyncQueue.TBase (SyncQueue.TSettles 0 (Return 9%nat))]
             (Forall_nil _)).
  - apply (Hretried 5000 "0.1" [remote_failure; remote_failure] (Return 9%nat)
                    eq_refl eq_refl eq_refl).
    + repeat constructor.
    + intros _. reflexivity.
    + exact I.
Defined.

(* ===================================================================== *)
(** ** The commands of the sync sequences, in every world *)
(* ===================================================================== *)

Section CommandLogic.

Variable g : nat -> GitCmd -> GitReply.

Lemma with_clock_extend_nil (w : World) : with_clock (extend w []) (clock w) = w.
Proof. destruct w. unfold with_clock, extend, with_trace. cbn. now rewrite app_nil_r. Qed.

Lemma extend_with_clock_extend (w : World) (e1 e2 : list Event) (c1 c2 : Z) :
  with_clock (extend (with_clock (extend w e1) c1) e2) c2
  = with_clock (extend w (e1 ++ e2)) c2.
Proof. unfold with_clock, extend, with_trace. cbn. now rewrite app_assoc. Qed.

Lemma git_commands_app (a b : list Event) :
  git_commands (a ++ b) = (git_commands a ++ git_commands b)%list.
Proof. unfold git_commands. apply flat_map_app. Qed.

Lemma issued_of_run {A} (m : M A) (w : World) (evs : list Event) (c : Z) :
  snd (m w) = with_clock (extend w evs) c -> issued m w = git_commands evs.
Proof.
  intro H. unfold issued. rewrite H. cbn.
  now rewrite skipn_app, skipn_all, Nat.sub_diag.
Qed.

Lemma run_spec_weaken {A} (m : M A) (Q Q' : Res A -> list GitCmd -> Prop) :
  run_spec g m Q -> (forall r cmds, Q r cmds -> Q' r cmds) -> run_spec g m Q'.
Proof.
  intros Hm Himp w Hg. destruct (Hm w Hg) as (evs & c & Hw & HQ).
  exists evs, c. split; [exact Hw | now apply Himp].
Qed.

Lemma run_spec_ret {A} (v : A) :
  run_spec g (ret v) (fun r cmds => r = Return v /\ cmds = []).
Proof.
  intros w _. exists [], (clock w). cbn. rewrite with_clock_extend_nil. now repeat split.
Qed.

Lemma run_spec_throw {A} (t : thrown) :
  run_spec g (@throw A t) (fun r cmds => r = Raise t /\ cmds = []).
Proof.
  intros w _. exists [], (clock w). cbn. rewrite with_clock_extend_nil. now repeat split.
Qed.

Lemma run_spec_git (c : GitCmd) :
  run_spec g (git c) (fun r cmds => cmds = [c] /\ exists n, r = outcome_of (g n c)).
Proof.
  intros w Hg. exists [EvGit c], (clock w). unfold git. rewrite Hg.
  split.
  - destruct (g _ c); destruct w; reflexivity.
  - split; [reflexivity|]. exists (List.length (trace w)). now destruct (g _ c).
Qed.

Lemma run_spec_bind {A B} (m : M A) (k : A -> M B)
    (Q1 : Res A -> list GitCmd -> Prop) (Q2 : A -> Res B -> list GitCmd -> Prop) :
  run_spec g m Q1 -> (forall a, run_spec g (k a) (Q2 a)) ->
  run_spec g (bind m k)
    (fun r cmds =>
       (exists t, r = Raise t /\ Q1 (Raise t) cmds) \/
       (exists a c1 c2, cmds = (c1 ++ c2)%list /\ Q1 (Return a) c1 /\ Q2 a r c2)).
Proof.
  intros Hm Hk w Hg. destruct (Hm w Hg) as (e1 & c1 & Hw1 & HQ1).
  unfold bind. destruct (m w) as [[a | t] w1]; cbn in Hw1, HQ1; subst w1.
  - destruct (Hk a (with_clock (extend w e1) c1) Hg) as (e2 & c2 & Hw2 & HQ2).
    exists (e1 ++ e2)%list, c2. split.
    + rewrite Hw2. apply extend_with_clock_extend.
    + right. exists a, (git_commands e1), (git_commands e2).
      rewrite git_commands_app. now repeat split.
  - exists e1, c1. split; [reflexivity|]. left. now exists t.
Qed.

Lemma run_spec_try_catch {A} (m : M A) (handler : thrown -> M A)
    (Q1 : Res A -> list GitCmd -> Prop) (Q2 : thrown -> Res A -> list GitCmd -> Prop) :
  run_spec g m Q1 -> (forall t, run_spec g (handler t) (Q2 t)) ->
  run_spec g (try_catch m handler)
    (fun r cmds =>
       (exists a, r = Return a /\ Q1 (Return a) cmds) \/
       (exists t c1 c2, cmds = (c1 ++ c2)%list /\ Q1 (Raise t) c1 /\ Q2 t r c2)).
Proof.
  intros Hm Hh w Hg. destruct (Hm w Hg) as (e1 & c1 & Hw1 & HQ1).
  unfold try_catch. destruct (m w) as [[a | t] w1]; cbn in Hw1, HQ1; subst w1.
  - exists e1, c1. split; [reflexivity|]. left. now exists a.
  - destruct (Hh t (with_clock (extend w e1) c1) Hg) as (e2 & c2 & Hw2 & HQ2).
    exists (e1 ++ e2)%list, c2. split.
    + rewrite Hw2. apply extend_with_clock_extend.
    + right. exists t, (git_commands e1), (git_commands e2).
      rewrite git_commands_app. now repeat split.
Qed.

(** Reading files for the marker issues nothing, whether the scan
    returns or a read fails. *)
Lemma run_spec_scan (files : list string) :
  run_spec g (GitSyncManager.scan_for_placeholder files) (fun _ cmds => cmds = []).
Proof.
  intros w _. destruct (scan_for_placeholder_pure files w) as (outcome & Hscan).
  exists [], (clock w). rewrite Hscan. cbn. rewrite with_clock_extend_nil.
  split; reflexivity.
Qed.

Lemma run_spec_validateFiles (paths : list string) :
  run_spec g (validateFiles paths) (fun r cmds => cmds = [] /\ exists v, r = Return v).
Proof.
  intros w _. exists [EvValidate paths], (clock w). unfold validateFiles. cbn.
  split; [now destruct w|]. split; [reflexivity|]. eauto.
Qed.

Section Only.

Variable P : GitCmd -> bool.

Lemma only_ret {A} (v : A) : only_issues g P (ret v).
Proof. eapply run_spec_weaken; [apply run_spec_ret|]. now intros r cmds (_ & ->). Qed.

Lemma only_throw {A} (t : thrown) : only_issues g P (@throw A t).
Proof. eapply run_spec_weaken; [apply run_spec_throw|]. now intros r cmds (_ & ->). Qed.

Lemma only_git (c : GitCmd) : P c = true -> only_issues g P (git c).
Proof.
  intro Hc. eapply run_spec_weaken; [apply run_spec_git|].
  intros r cmds (-> & _). cbn. now rewrite Hc.
Qed.

Lemma only_bind {A B} (m : M A) (k : A -> M B) :
  only_issues g P m -> (forall a, only_issues g P (k a)) -> only_issues g P (bind m k).
Proof.
  intros Hm Hk. eapply run_spec_weaken;
    [apply (run_spec_bind m k _ (fun _ _ cmds => forallb P cmds = true) Hm Hk)|].
  intros r cmds [(t & _ & H) | (a & c1 & c2 & -> & H1 & H2)]; [exact H|].
  rewrite forallb_app, H1, H2. reflexivity.
Qed.

Lemma only_try_catch {A} (m : M A) (handler : thrown -> M A) :
  only_issues g P m -> (forall t, only_issues g P (handler t)) ->
  only_issues g P (try_catch m handler).
Proof.
  intros Hm Hh. eapply run_spec_weaken;
    [apply (run_spec_try_catch m handler _ (fun _ _ cmds => forallb P cmds = true) Hm Hh)|].
  intros r cmds [(a & _ & H) | (t & c1 & c2 & -> & H1 & H2)]; [exact H|].
  rewrite forallb_app, H1, H2. reflexivity.
Qed.

Lemma only_scan (files : list string) :
  only_issues g P (GitSyncManager.scan_for_placeholder files).
Proof. eapply run_spec_weaken; [apply run_spec_scan|]. now intros r cmds ->. Qed.

Lemma only_validateFiles (paths : list string) : only_issues g P (validateFiles paths).
Proof. eapply run_spec_weaken; [apply run_spec_validateFiles|]. now intros r cmds (-> & _). Qed.

Lemma only_sleep (ms : Z) : only_issues g P (sleep ms).
Proof.
  intros w _. exists [EvSleep ms], (clock w + ms). unfold sleep. cbn.
  split; [now destruct w | reflexivity].
Qed.

Lemma only_unstage_invalid (errs : list (string * string)) :
  (forall args, P (GitReset args) = true) ->
  only_issues g P (GitSyncManager.unstage_invalid errs).
Proof.
  intro Hreset. induction errs as [|[file err] rest IH]; cbn.
  - apply only_ret.
  - apply only_bind; [now apply only_git | intros _; exact IH].
Qed.

(** The retry loop issues nothing of its own. *)
Lemma only_loop {T} (options : RetryManager.RetryOptions) (operation : M T)
    (operationName : string) :
  only_issues g P operation ->
  match RetryManager.onRetry options with
  | Some callback => forall e n, only_issues g P (callback e n)
  | None => True
  end ->
  forall (iterations : nat) (attempt : Z) (last : option GitSyncError)
         (tally : RetryManager.Tally) (w : World),
    git_reply w = g ->
    exists evs c,
      snd (RetryManager.loop iterations attempt last options operation operationName tally w)
      = with_clock (extend w evs) c /\
      forallb P (git_commands evs) = true.
Proof.
  intros Hop Hcb. induction iterations as [|n IH]; intros attempt last tally w Hg.
  - exists [], (clock w). cbn. now rewrite with_clock_extend_nil.
  - cbn [RetryManager.loop].
    destruct (Hop w Hg) as (e1 & c1 & Hw1 & HP1).
    destruct (operation w) as [[v | error] w1]; cbn in Hw1; subst w1.
    + now exists e1, c1.
    + destruct (negb (ErrorHandler.shouldRetry (ErrorHandler.handle error)));
        [now exists e1, c1|].
      destruct (attempt =? RetryManager.maxRetries options); [now exists e1, c1|].
      set (w1 := with_clock (extend w e1) c1).
      assert (Hnotified : exists e2 c2,
                 snd (match RetryManager.onRetry options with
                      | Some callback =>
                          callback (ErrorHandler.handle error) (attempt + 1) w1
                      | None => (Return tt, w1)
                      end) = with_clock (extend w1 e2) c2 /\
                 forallb P (git_commands e2) = true).
      { destruct (RetryManager.onRetry options) as [callback|].
        - exact (Hcb _ _ w1 Hg).
        - exists [], (clock w1). cbn [snd]. rewrite with_clock_extend_nil. now split. }
      destruct Hnotified as (e2 & c2 & Hw2 & HP2).
      destruct (match RetryManager.onRetry options with
                | Some callback => callback (ErrorHandler.handle error) (attempt + 1) w1
                | None => (Return tt, w1)
                end) as [[[] | t] w2]; cbn in Hw2; subst w2.
      * unfold sleep. cbn [fst snd].
        match goal with
        | |- context [RetryManager.loop n ?a ?l options operation operationName ?ty ?w3] =>
            destruct (IH a l ty w3 Hg) as (e3 & c3 & Hw3 & HP3)
        end.
        exists (e1 ++ e2 ++ [EvSleep (RetryManager.delay_for options attempt)] ++ e3)%list, c3.
        split.
        -- rewrite Hw3. subst w1. unfold with_clock, extend, with_trace, record. cbn.
           now rewrite <- !app_assoc.
        -- rewrite !git_commands_app, !forallb_app, HP1, HP2, HP3. reflexivity.
      * exists (e1 ++ e2)%list, c2. split.
        -- subst w1. apply extend_with_clock_extend.
        -- now rewrite git_commands_app, forallb_app, HP1, HP2.
Qed.

Lemma only_executeWithRetry {T} (options : RetryManager.RetryOptions) (operation : M T)
    (operationName : string) :
  only_issues g P operation ->
  match RetryManager.onRetry (RetryManager.merge options RetryManager.no_overrides) with
  | Some callback => forall e n, only_issues g P (callback e n)
  | None => True
  end ->
  only_issues g P (RetryManager.executeWithRetry options operation operationName
                                                 RetryManager.no_overrides).
Proof.
  intros Hop Hcb w Hg.
  unfold RetryManager.executeWithRetry, RetryManager.executeWithRetry_tally.
  match goal with
  | |- context [RetryManager.loop ?n ?a ?l ?o operation operationName ?ty w] =>
      destruct (only_loop o operation operationName Hop Hcb n a l ty w Hg)
        as (evs & c & Hw & HP);
      destruct (RetryManager.loop n a l o operation operationName ty w) as [[r ty1] w1]
  end.
  exists evs, c. now split.
Qed.

End Only.

End CommandLogic.

Ltac only_step :=
  first
    [ apply only_ret
    | apply only_throw
    | apply only_git; reflexivity
    | apply only_scan
    | apply only_validateFiles
    | apply only_sleep
    | apply only_unstage_invalid; reflexivity
    | apply only_bind; [| intro]
    | apply only_try_catch; [| intro]
    | match goal with
      | |- only_issues _ _ (if ?b then _ else _) => destruct b
      | |- only_issues _ _ (match ?x with _ => _ end) => destruct x
      end ].

Section SequenceProperties.

Import GitSyncManager.

Variable g : nat -> GitCmd -> GitReply.
Variable o : Options.

Lemma only_on_pop_failure (P : GitCmd -> bool) (error : thrown) :
  only_issues g P (on_pop_failure o error).
Proof. unfold on_pop_failure. repeat only_step. Qed.

Lemma only_pull_operation : only_issues g pull_side (pull_operation o).
Proof.
  unfold pull_operation, has_files, stash_push_for_pull, stash_pop.
  repeat first [apply only_on_pop_failure | only_step].
Qed.

Lemma only_pull : only_issues g pull_side (pull o).
Proof.
  apply only_executeWithRetry; [apply only_pull_operation|].
  cbn. intros e n. apply only_ret.
Qed.

Lemma only_hasPlaceholderFiles (P : GitCmd -> bool) (files : list string) :
  only_issues g P (hasPlaceholderFiles files).
Proof. apply only_scan. Qed.

Lemma only_push_operation : only_issues g push_side (push_operation o).
Proof.
  unfold push_operation, push_validation, push_commit, push_to_remote, has_files.
  repeat first [apply only_hasPlaceholderFiles | only_step].
Qed.

Lemma only_push : only_issues g push_side (push o).
Proof.
  apply only_executeWithRetry; [apply only_push_operation|].
  cbn. intros e n. apply only_ret.
Qed.

Lemma only_hasAnyPlaceholderFiles (P : GitCmd -> bool) :
  P GitStatus = true -> P (GitRaw ["ls-files"]) = true ->
  only_issues g P hasAnyPlaceholderFiles.
Proof.
  intros Hs Hl. unfold hasAnyPlaceholderFiles.
  apply only_try_catch; [| intro; apply only_ret].
  apply only_bind; [now apply only_git | intro].
  apply only_bind; [now apply only_git | intro].
  apply only_scan.
Qed.

End SequenceProperties.

Section PlaceholderScan.

(** Files that neither hold the marker nor fail to be read are passed
    over. *)
Lemma hasPlaceholderFiles_skip (before rest : list string) (w : World) :
  existsb (holds_marker w) before = false ->
  existsb (read_fails w) before = false ->
  GitSyncManager.hasPlaceholderFiles (before ++ rest) w
  = GitSyncManager.hasPlaceholderFiles rest w.
Proof.
  unfold GitSyncManager.hasPlaceholderFiles.
  induction before as [|file before IH]; intros Hmarker Hread; [reflexivity|].
  cbn [existsb] in Hmarker, Hread.
  apply Bool.orb_false_iff in Hmarker as [Hm Hmarker].
  apply Bool.orb_false_iff in Hread as [Hr Hread].
  unfold holds_marker in Hm. unfold read_fails in Hr.
  cbn [app filter]. destruct (GitSyncManager.is_markdown file); [|now apply IH].
  cbn [andb] in Hm, Hr.
  cbn [GitSyncManager.scan_for_placeholder]. unfold bind at 1. unfold readIfExists.
  destruct (file_at w (List.length (trace w)) file) as [|text|error];
    [now apply IH | | discriminate Hr].
  rewrite Hm. now apply IH.
Qed.

End PlaceholderScan.

(** X1. [hasPlaceholderFiles(files)] has no effect, and its answer is
    decided by the first listed file with a name ending in [.md] or
    [.mdx] that either can be read and contains the marker
    [DOCUSAURUS_PLACEHOLDER_DO_NOT_COMMIT], or exists and cannot be
    read: in the first case it returns [true], in the second it fails
    with the error of the read.  Files with another suffix and files
    that do not exist are passed over; when no read fails the answer is
    [true] exactly when some listed Markdown file contains the marker. *)
Theorem hasPlaceholderFiles_finds_marker :
  forall (files : list string) (w : World),
    snd (GitSyncManager.hasPlaceholderFiles files w) = w /\
    (existsb (read_fails w) files = false ->
     fst (GitSyncManager.hasPlaceholderFiles files w)
     = Return (existsb (holds_marker w) files)) /\
    (forall (before : list string) (file : string) (after : list string),
        files = (before ++ file :: after)%list ->
        existsb (holds_marker w) before = false ->
        existsb (read_fails w) before = false ->
        (holds_marker w file = true ->
         fst (GitSyncManager.hasPlaceholderFiles files w) = Return true) /\
        (forall error : thrown,
            GitSyncManager.is_markdown file = true ->
            file_at w (List.length (trace w)) file = Unreadable error ->
            fst (GitSyncManager.hasPlaceholderFiles files w) = Raise error)).
Proof.
  intros files w. split; [|split].
  - unfold GitSyncManager.hasPlaceholderFiles.
    destruct (scan_for_placeholder_pure (filter GitSyncManager.is_markdown files) w)
      as (outcome & Hscan).
    now rewrite Hscan.
  - unfold GitSyncManager.hasPlaceholderFiles.
    induction files as [|file rest IH]; intro Hread; [reflexivity|].
    cbn [existsb] in Hread. apply Bool.orb_false_iff in Hread as [Hr Hread].
    unfold read_fails in Hr. cbn [filter existsb]. unfold holds_marker at 1.
    destruct (GitSyncManager.is_markdown file); cbn [andb orb] in *; [|now apply IH].
    cbn [GitSyncManager.scan_for_placeholder]. unfold bind at 1. unfold readIfExists.
    destruct (file_at w (List.length (trace w)) file) as [|text|error];
      cbn [orb]; [now apply IH | | discriminate Hr].
    destruct (Js.includes text GitSyncManager.PLACEHOLDER_MARKER); cbn [orb];
      [reflexivity | now apply IH].
  - intros before file after -> Hmarker Hread.
    rewrite (hasPlaceholderFiles_skip before (file :: after) w Hmarker Hread).
    unfold GitSyncManager.hasPlaceholderFiles, holds_marker. cbn [filter].
    split.
    + intro Hfile. apply andb_prop in Hfile as [Hmd Htext]. rewrite Hmd.
      cbn [GitSyncManager.scan_for_placeholder]. unfold bind at 1. unfold readIfExists.
      destruct (file_at w (List.length (trace w)) file) as [|text|error];
        try discriminate Htext.
      now rewrite Htext.
    + intros error Hmd Hstate. rewrite Hmd.
      cbn [GitSyncManager.scan_for_placeholder]. unfold bind at 1. unfold readIfExists.
      now rewrite Hstate.
Qed.


(** X3. Whatever the Git client answers, a run of [pull()], with all
    its retries, issues only [git status], [git stash] and [git pull]:
    it never stages, commits, pushes or resets.  The same holds of a
    sync operation whose direction is overridden with ['pull'], as the
    initial sync at start-up is, whatever direction is configured. *)
Theorem pull_never_records_or_publishes :
  forall (o : GitSyncManager.Options) (w : World),
    forallb pull_side (issued (GitSyncManager.pull o) w) = true /\
    forallb pull_side
      (issued (GitSyncManager.sync_body o
                 (GitSyncManager.mkSyncOperation (Some GitSyncManager.pull_direction))) w)
    = true.
Proof.
  intros o w.
  destruct (only_pull (git_reply w) o w eq_refl) as (evs & c & Hw & HP).
  assert (H : forallb pull_side (issued (GitSyncManager.pull o) w) = true)
    by now rewrite (issued_of_run _ _ _ _ Hw).
  split; exact H.
Qed.

(** X4. Whatever the Git client answers, a run of [push()], with all
    its retries, issues only [git status], [git reset], [git add],
    [git commit] and [git push]: it never fetches, pulls or stashes, so
    it brings no remote content into the working tree. *)
Theorem push_never_merges :
  forall (o : GitSyncManager.Options) (w : World),
    forallb push_side (issued (GitSyncManager.push o) w) = true.
Proof.
  intros o w.
  destruct (only_push (git_reply w) o w eq_refl) as (evs & c & Hw & HP).
  now rewrite (issued_of_run _ _ _ _ Hw).
Qed.

Section Publication.

Import GitSyncManager.

Variable g : nat -> GitCmd -> GitReply.
Variable o : Options.

(** Commands that record nothing may precede any tail. *)
Lemma quiet_prefix_bind {A B} (T : Res B -> list GitCmd -> Prop) (m : M A) (k : A -> M B) :
  (forall t, T (Raise t) []) ->
  only_issues g records_nothing m ->
  (forall a, run_spec g (k a) (after_quiet_prefix T)) ->
  run_spec g (bind m k) (after_quiet_prefix T).
Proof.
  intros Hraise Hm Hk.
  eapply run_spec_weaken;
    [apply (run_spec_bind g m k _ (fun _ => after_quiet_prefix T) Hm Hk)|].
  intros r cmds [(t & -> & Hquiet) | (a & c1 & c2 & -> & Hquiet & before & tail & -> & Hb & HT)].
  - exists cmds, []. rewrite app_nil_r. now repeat split.
  - exists (c1 ++ before)%list, tail. rewrite app_assoc, forallb_app, Hquiet, Hb.
    now repeat split.
Qed.

Lemma no_prefix {A} (T : Res A -> list GitCmd -> Prop) (m : M A) :
  run_spec g m T -> run_spec g m (after_quiet_prefix T).
Proof.
  intro H. eapply run_spec_weaken; [exact H|].
  intros r cmds HT. exists [], cmds. now repeat split.
Qed.

Lemma commit_unless_placeholder_tail (files : list string) :
  run_spec g (commit_unless_placeholder o files) (commit_step_tail o).
Proof.
  unfold commit_unless_placeholder, hasPlaceholderFiles.
  eapply run_spec_weaken.
  - apply run_spec_bind with (Q2 := fun (placeholder : bool) r cmds =>
                                      if placeholder then r = Return false /\ cmds = []
                                      else commit_step_tail o r cmds /\ cmds <> []).
    + apply run_spec_scan.
    + intros [|]; [apply run_spec_ret|].
      eapply run_spec_weaken.
      * apply run_spec_bind with (Q2 := fun _ r cmds =>
                                          cmds = [GitCommit (commitMessage o)] /\
                                          (raised r \/ r = Return true)).
        -- apply run_spec_git.
        -- intros _. eapply run_spec_weaken.
           ++ apply run_spec_bind with (Q2 := fun _ r cmds => r = Return true /\ cmds = []).
              ** apply run_spec_git.
              ** intros _. apply run_spec_ret.
           ++ intros r cmds [(t & -> & -> & _) | (a & c1 & c2 & -> & (-> & _) & -> & ->)].
              ** split; [reflexivity|]. left. now exists t.
              ** split; [reflexivity|]. now right.
      * intros r cmds [(t & -> & -> & _) | (a & c1 & c2 & -> & (-> & _) & -> & Hr)].
        -- split; [|discriminate]. right. left. split; [reflexivity|]. now exists t.
        -- split; [|discriminate]. right. right. now split.
  - intros r cmds [(t & -> & ->) | (found & c1 & c2 & -> & -> & H)];
      [left; split; [reflexivity | discriminate]|].
    destruct found.
    + destruct H as (-> & ->). left. split; [reflexivity|discriminate].
    + exact (proj1 H).
Qed.

Lemma commit_step_tail_raise (t : thrown) : commit_step_tail o (Raise t) [].
Proof. left. split; [reflexivity|discriminate]. Qed.

Lemma sync_commit_step_tail (statusAfterPull : GitData) :
  run_spec g (sync_commit_step o statusAfterPull) (after_quiet_prefix (commit_step_tail o)).
Proof.
  unfold sync_commit_step.
  assert (Hnone : run_spec g (ret false) (after_quiet_prefix (commit_step_tail o))).
  { apply no_prefix. eapply run_spec_weaken; [apply run_spec_ret|].
    intros r cmds (-> & ->). left. split; [reflexivity|discriminate]. }
  assert (Hcommit : forall files,
             run_spec g (commit_unless_placeholder o files)
                      (after_quiet_prefix (commit_step_tail o)))
    by (intro; apply no_prefix, commit_unless_placeholder_tail).
  destruct (has_files statusAfterPull); [|exact Hnone].
  destruct (validateBeforeCommit o); [|apply Hcommit].
  destruct (filter is_markdown (status_files statusAfterPull)) as [|f fs]; [apply Hcommit|].
  apply quiet_prefix_bind; [apply commit_step_tail_raise | apply only_validateFiles |].
  intro validation. destruct (valid validation); [apply Hcommit|].
  destruct (skipInvalidFiles o).
  - apply quiet_prefix_bind;
      [apply commit_step_tail_raise | apply only_unstage_invalid; reflexivity |].
    intros _. apply quiet_prefix_bind;
      [apply commit_step_tail_raise | apply only_git; reflexivity |].
    intro newStatus. destruct (has_files newStatus); [apply Hcommit | exact Hnone].
  - apply no_prefix. eapply run_spec_weaken; [apply run_spec_throw|].
    intros r cmds (-> & ->). apply commit_step_tail_raise.
Qed.

Lemma sync_tail_raise (t : thrown) : sync_tail o (Raise t) [].
Proof. now left. Qed.

Lemma syncBidirectional_tail :
  run_spec g (syncBidirectional o) (after_quiet_prefix (sync_tail o)).
Proof.
  unfold syncBidirectional. cbv zeta.
  apply quiet_prefix_bind; [apply sync_tail_raise | |].
  { intros w _. exists [], (clock w). cbn. rewrite with_clock_extend_nil. now split. }
  intros _. apply quiet_prefix_bind;
    [apply sync_tail_raise | now apply only_hasAnyPlaceholderFiles |].
  intros _. apply quiet_prefix_bind; [apply sync_tail_raise | apply only_git; reflexivity |].
  intros _. apply quiet_prefix_bind; [apply sync_tail_raise | apply only_git; reflexivity |].
  intro status. apply quiet_prefix_bind; [apply sync_tail_raise | repeat only_step |].
  intro stashed. apply quiet_prefix_bind; [apply sync_tail_raise | repeat only_step |].
  intros _. apply quiet_prefix_bind;
    [apply sync_tail_raise | repeat first [apply only_on_pop_failure | only_step] |].
  intros _. apply quiet_prefix_bind; [apply sync_tail_raise | apply only_git; reflexivity |].
  intro statusAfterPull.
  eapply run_spec_weaken.
  - apply run_spec_bind with (Q2 := fun (shouldPush : bool) r cmds =>
                                      if shouldPush
                                      then cmds = [GitPush ["--set-upstream"; "origin"; branch o]]
                                      else cmds = []).
    + apply sync_commit_step_tail.
    + intros [|].
      * eapply run_spec_weaken.
        -- apply run_spec_bind with (Q2 := fun _ r cmds => cmds = []).
           ++ apply run_spec_git.
           ++ intros _. eapply run_spec_weaken; [apply run_spec_ret|]. now intros r cmds (_ & ->).
        -- intros r cmds [(t & _ & -> & _) | (a & c1 & c2 & -> & (-> & _) & ->)]; reflexivity.
      * eapply run_spec_weaken; [apply run_spec_ret|]. now intros r cmds (_ & ->).
  - intros r cmds [(t & -> & before & tail & -> & Hb & HT)
                  | (shouldPush & c1 & c2 & -> & (before & tail & -> & Hb & HT) & Hpush)].
    + exists before, tail. split; [reflexivity|]. split; [exact Hb|].
      destruct HT as [(-> & _) | [(-> & _) | (-> & _)]].
      * now left.
      * right. right. split; [now exists t | now left].
      * right. right. split; [now exists t | now right].
    + exists before, (tail ++ c2)%list. rewrite app_assoc. split; [reflexivity|].
      split; [exact Hb|].
      destruct HT as [(-> & Hr) | [(-> & (t & Hr)) | (-> & [(t & Hr) | Hr])]];
        try discriminate Hr.
      * destruct shouldPush; [now contradiction Hr|]. subst c2. now left.
      * injection Hr as ->. subst c2. right. now left.
Qed.

End Publication.


Section Survival.

Import GitSyncManager.

Variable g : nat -> GitCmd -> GitReply.
Hypothesis pull_step_only : fails_only_in pull_step g.

Lemma succeeds_of_run_spec {A} (m : M A) :
  run_spec g m (fun r _ => exists a, r = Return a) -> succeeds g m.
Proof. intros Hm w Hw _. exact (Hm w Hw). Qed.

Lemma files_readable_later (w : World) (evs : list Event) (c : Z) :
  files_readable w -> files_readable (with_clock (extend w evs) c).
Proof. intros H n p error. exact (H n p error). Qed.

Lemma succeeds_ret {A} (v : A) : succeeds g (ret v).
Proof.
  apply succeeds_of_run_spec. eapply run_spec_weaken; [apply run_spec_ret|].
  intros r cmds (-> & _). now exists v.
Qed.

Lemma succeeds_git (c : GitCmd) : pull_step c = false -> succeeds g (git c).
Proof.
  intro Hc. apply succeeds_of_run_spec. eapply run_spec_weaken; [apply run_spec_git|].
  intros r cmds (_ & n & ->). destruct (pull_step_only n c Hc) as (d & ->). now exists d.
Qed.

Lemma succeeds_bind {A B} (m : M A) (k : A -> M B) :
  succeeds g m -> (forall a, succeeds g (k a)) -> succeeds g (bind m k).
Proof.
  intros Hm Hk w Hw Hfiles. destruct (Hm w Hw Hfiles) as (e1 & c1 & Hw1 & a & Hr).
  unfold bind. destruct (m w) as [[a1 | t] w1]; [|discriminate Hr]. cbn in Hw1. subst w1.
  destruct (Hk a1 (with_clock (extend w e1) c1) Hw (files_readable_later w e1 c1 Hfiles))
    as (e2 & c2 & Hw2 & HQ2).
  exists (e1 ++ e2)%list, c2. split; [|exact HQ2].
  rewrite Hw2. apply extend_with_clock_extend.
Qed.

Lemma succeeds_try {A} (m : M A) (handler : thrown -> M A) :
  succeeds g m -> succeeds g (try_catch m handler).
Proof.
  intros Hm w Hw Hfiles. destruct (Hm w Hw Hfiles) as (evs & c & Hrun & a & Hr).
  unfold try_catch. destruct (m w) as [[a1 | t] w1]; [|discriminate Hr].
  exists evs, c. split; [exact Hrun | now exists a1].
Qed.

Lemma succeeds_caught {A} (m : M A) (handler : thrown -> M A) :
  only_issues g (fun _ => true) m -> (forall t, succeeds g (handler t)) ->
  succeeds g (try_catch m handler).
Proof.
  intros Hm Hh w Hw Hfiles. destruct (Hm w Hw) as (e1 & c1 & Hw1 & _).
  unfold try_catch. destruct (m w) as [[a | t] w1]; cbn in Hw1; subst w1.
  - exists e1, c1. split; [reflexivity | now exists a].
  - destruct (Hh t (with_clock (extend w e1) c1) Hw (files_readable_later w e1 c1 Hfiles))
      as (e2 & c2 & Hw2 & HQ2).
    exists (e1 ++ e2)%list, c2. split; [|exact HQ2].
    rewrite Hw2. apply extend_with_clock_extend.
Qed.

Lemma succeeds_scan (files : list string) : succeeds g (scan_for_placeholder files).
Proof.
  intros w _ Hfiles. exists [], (clock w). rewrite with_clock_extend_nil.
  induction files as [|file rest IH].
  - split; [reflexivity | now exists false].
  - cbn [scan_for_placeholder]. unfold bind, readIfExists.
    destruct (file_at w (List.length (trace w)) file) as [|text|error] eqn:Hstate;
      [exact IH | | now destruct (Hfiles _ _ _ Hstate)].
    destruct (Js.includes text PLACEHOLDER_MARKER); [|exact IH].
    split; [reflexivity | now exists true].
Qed.

Lemma succeeds_validateFiles (paths : list string) : succeeds g (validateFiles paths).
Proof.
  apply succeeds_of_run_spec. eapply run_spec_weaken; [apply run_spec_validateFiles|].
  now intros r cmds (_ & H).
Qed.

Lemma succeeds_unstage_invalid (errs : list (string * string)) :
  succeeds g (unstage_invalid errs).
Proof.
  induction errs as [|[file err] rest IH]; cbn.
  - apply succeeds_ret.
  - apply succeeds_bind; [now apply succeeds_git | intros _; exact IH].
Qed.

Lemma succeeds_commit_unless_placeholder (o : Options) (files : list string) :
  succeeds g (commit_unless_placeholder o files).
Proof.
  unfold commit_unless_placeholder, hasPlaceholderFiles.
  apply succeeds_bind; [apply succeeds_scan|]. intros [|]; [apply succeeds_ret|].
  apply succeeds_bind; [now apply succeeds_git | intros _].
  apply succeeds_bind; [now apply succeeds_git | intros _]. apply succeeds_ret.
Qed.

Lemma succeeds_syncBidirectional (o : Options) :
  (validateBeforeCommit o = true -> skipInvalidFiles o = true) ->
  succeeds g (syncBidirectional o).
Proof.
  intro Hlenient. unfold syncBidirectional. cbv zeta.
  apply succeeds_bind.
  { intros w _ _. exists [], (clock w). cbn. rewrite with_clock_extend_nil. eauto. }
  intros _. apply succeeds_bind.
  { unfold hasAnyPlaceholderFiles. apply succeeds_caught; [|intro; apply succeeds_ret].
    repeat only_step. }
  intros _. apply succeeds_bind; [now apply succeeds_git|].
  intros _. apply succeeds_bind; [now apply succeeds_git|].
  intro status. apply succeeds_bind.
  { destruct (has_files status); [|apply succeeds_ret].
    apply succeeds_bind; [now apply succeeds_git | intros _; apply succeeds_ret]. }
  intro stashed. apply succeeds_bind.
  { apply succeeds_caught; [repeat only_step | intro; apply succeeds_ret]. }
  intros _. apply succeeds_bind.
  { destruct stashed; [|apply succeeds_ret].
    apply succeeds_try. apply succeeds_bind; [now apply succeeds_git|].
    intros _. apply succeeds_ret. }
  intros _. apply succeeds_bind; [now apply succeeds_git|].
  intro statusAfterPull. apply succeeds_bind.
  - unfold sync_commit_step.
    destruct (has_files statusAfterPull); [|apply succeeds_ret].
    destruct (validateBeforeCommit o); [|apply succeeds_commit_unless_placeholder].
    destruct (filter is_markdown (status_files statusAfterPull));
      [apply succeeds_commit_unless_placeholder|].
    apply succeeds_bind; [apply succeeds_validateFiles|].
    intro validation. destruct (valid validation);
      [apply succeeds_commit_unless_placeholder|].
    rewrite (Hlenient eq_refl).
    apply succeeds_bind; [apply succeeds_unstage_invalid|].
    intros _. apply succeeds_bind; [now apply succeeds_git|].
    intro newStatus. destruct (has_files newStatus);
      [apply succeeds_commit_unless_placeholder | apply succeeds_ret].
  - intros [|]; [|apply succeeds_ret].
    apply succeeds_bind; [now apply succeeds_git | intros _; apply succeeds_ret].
Qed.

End Survival.



Lemma run_spec_bind_fails (g : nat -> GitCmd -> GitReply) {A B} (m : M A) (k : A -> M B)
    (Q1 : Res A -> list GitCmd -> Prop) :
  run_spec g m Q1 -> (forall a cmds, ~ Q1 (Return a) cmds) ->
  run_spec g (bind m k) (fun r cmds => exists t, r = Raise t /\ Q1 (Raise t) cmds).
Proof.
  intros Hm Hnever w Hw. destruct (Hm w Hw) as (evs & c & Hrun & HQ).
  unfold bind. destruct (m w) as [[a | t] w1]; cbn in Hrun, HQ.
  - now destruct (Hnever a _ HQ).
  - exists evs, c. split; [exact Hrun | now exists t].
Qed.

(** X7. When [git fetch] fails, [syncBidirectional()] fails with that
    very error, and all it has issued are [git status], [git ls-files]
    and the fetch itself: nothing is stashed, pulled, committed or
    pushed. *)
Theorem sync_stops_at_failed_fetch :
  forall (o : GitSyncManager.Options) (w : World) (t : thrown),
    (forall n, git_reply w n (GitFetch "origin" (GitSyncManager.branch o)) = GitThrows t) ->
    fst (GitSyncManager.syncBidirectional o w) = Raise t /\
    forallb inspects (issued (GitSyncManager.syncBidirectional o) w) = true.
Proof.
  intros o w t Hfetch.
  set (returns := fun (A : Type) (r : Res A) (cmds : list GitCmd) =>
                    forallb inspects cmds = true /\ exists a, r = Return a).
  set (stops := fun (r : Res unit) (cmds : list GitCmd) =>
                  r = Raise t /\ forallb inspects cmds = true).
  assert (Hstate : run_spec (git_reply w)
                     (fun w0 : World => (Return (placeholder_state w0), w0)) (returns bool)).
  { intros w0 _. exists [], (clock w0). cbn. rewrite with_clock_extend_nil.
    split; [reflexivity|]. split; [reflexivity|]. eauto. }
  assert (Hfiles : run_spec (git_reply w) GitSyncManager.hasAnyPlaceholderFiles (returns bool)).
  { intros w0 Hw0.
    destruct (only_hasAnyPlaceholderFiles (git_reply w) inspects eq_refl eq_refl w0 Hw0)
      as (evs & c & Hrun & HP).
    exists evs, c. split; [exact Hrun|]. split; [exact HP|].
    unfold GitSyncManager.hasAnyPlaceholderFiles, try_catch.
    match goal with
    | |- context [bind ?m ?k w0] => destruct (bind m k w0) as [[found | t0] w1]
    end; cbn; eauto. }
  assert (Hspec : run_spec (git_reply w) (GitSyncManager.syncBidirectional o) stops).
  { unfold GitSyncManager.syncBidirectional. cbv zeta.
    eapply run_spec_weaken;
      [apply (run_spec_bind _ _ _ (returns bool) (fun _ => stops) Hstate)|].
    - intros _. eapply run_spec_weaken;
        [apply (run_spec_bind _ _ _ (returns bool) (fun _ => stops) Hfiles)|].
      + intros _. eapply run_spec_weaken.
        * apply run_spec_bind_fails; [apply run_spec_git|].
          intros d cmds (_ & n & Hn). rewrite Hfetch in Hn. discriminate Hn.
        * intros r cmds (t0 & -> & -> & n & Hn). rewrite Hfetch in Hn.
          injection Hn as ->. now split.
      + intros r cmds [(t0 & -> & _ & found & Habs)
                      | (a & c1 & c2 & -> & (H1 & _) & -> & H2)]; [discriminate|].
        split; [reflexivity|]. now rewrite forallb_app, H1, H2.
    - intros r cmds [(t0 & -> & _ & state & Habs)
                    | (a & c1 & c2 & -> & (H1 & _) & -> & H2)]; [discriminate|].
      split; [reflexivity|]. now rewrite forallb_app, H1, H2. }
  destruct (Hspec w eq_refl) as (evs & c & Hrun & Hr & HP).
  split; [exact Hr|]. now rewrite (issued_of_run _ _ _ _ Hrun).
Qed.

Lemma sync_stops_at_failed_fetch_witness :
  fst (GitSyncManager.syncBidirectional default_options unfetchable_world)
  = Raise (ThrowOther (Some "fatal: unable to access the remote")) /\
  forallb inspects (issued (GitSyncManager.syncBidirectional default_options)
                           unfetchable_world) = true.
Proof.
  apply (sync_stops_at_failed_fetch default_options unfetchable_world). intro n. reflexivity.
Defined.

(** X8. With validation before commit on and [skipInvalidFiles] off, a
    run of [push()] that finds a changed Markdown file rejected by the
    validator fails with the non-recoverable [GIT_COMMIT_FAILED] error
    whose message lists the validation errors; it makes a single
    attempt, with no pause, and issues nothing after its [git status]:
    nothing is staged, committed or pushed. *)
Theorem push_fails_on_invalid_file :
  forall (o : GitSyncManager.Options) (w : World) (d : GitData),
    let n := List.length (trace w) in
    let files := filter GitSyncManager.is_markdown (status_files d) in
    let validation := validator_reply w (n + 1) files in
    GitSyncManager.validateBeforeCommit o = true ->
    GitSyncManager.skipInvalidFiles o = false ->
    git_reply w n GitStatus = GitOk d ->
    files <> [] ->
    valid validation = false ->
    RetryManager.executeWithRetry_tally GitSyncManager.retryManager
      (GitSyncManager.push_operation o) "Git push operation" RetryManager.no_overrides w
    = ((Raise (GitSyncManager.GitOperationError GIT_COMMIT_FAILED
                 (GitSyncManager.validation_failed_message (errors validation)) false),
        RetryManager.mkTally 1 []),
       extend w [EvGit GitStatus; EvValidate files]).
Proof.
  intros o w d n files validation Hon Hstrict Hs Hfiles Hinvalid.
  assert (Hrun : GitSyncManager.push_operation o w
                 = (Raise (GitSyncManager.GitOperationError GIT_COMMIT_FAILED
                             (GitSyncManager.validation_failed_message (errors validation))
                             false),
                    extend w [EvGit GitStatus; EvValidate files])).
  { rewrite <- (extend_nil w) at 1.
    unfold GitSyncManager.push_operation, bind. rewrite git_extend.
    cbn [List.length app]. rewrite Nat.add_0_r. fold n. rewrite Hs.
    assert (Hdirty : GitSyncManager.has_files d = true).
    { unfold GitSyncManager.has_files. subst files.
      destruct (status_files d); [now contradiction Hfiles | reflexivity]. }
    rewrite Hdirty. unfold GitSyncManager.push_validation. rewrite Hon. fold files.
    destruct files as [|f fs] eqn:Hf; [now contradiction Hfiles|].
    unfold bind, validateFiles. rewrite length_trace_extend. cbn [List.length].
    fold n. change (validator_reply (extend w [EvGit GitStatus])) with (validator_reply w).
    fold validation. rewrite Hinvalid, Hstrict. unfold throw. cbv beta iota.
    rewrite record_extend. reflexivity. }
  unfold RetryManager.executeWithRetry_tally.
  set (k := Z.to_nat _). vm_compute in k. subst k.
  cbn [RetryManager.loop]. rewrite Hrun. reflexivity.
Qed.

Lemma push_fails_on_invalid_file_witness :
  fst (RetryManager.executeWithRetry_tally GitSyncManager.retryManager
         (GitSyncManager.push_operation strict_options) "Git push operation"
         RetryManager.no_overrides rejecting_world)
  = (Raise (GitSyncManager.GitOperationError GIT_COMMIT_FAILED
              (GitSyncManager.validation_failed_message
                 [("docs/guide.md", "Expected a closing tag for <br>")]) false),
     RetryManager.mkTally 1 []).
Proof.
  rewrite (push_fails_on_invalid_file strict_options rejecting_world
             (mkGitData ["docs/guide.md"] "") eq_refl eq_refl eq_refl
             ltac:(discriminate) eq_refl).
  reflexivity.
Defined.

(* ===================================================================== *)
(** ** Further properties of the operation queue *)
(* ===================================================================== *)

(** X9. [enqueue] files a new operation immediately before the first
    waiting operation of strictly lower priority, or at the end when
    there is none: every operation ahead of it has the same or a higher
    priority, and the others keep their order.  When the waiting
    operations are in order of decreasing priority, every operation
    behind the new one has a lower priority and the order is kept.  That
    order is not kept by a retry: an operation that failed and is
    retried goes back to the head of the queue whatever its priority. *)
Theorem insert_behind_equal_priority :
  forall (Op : Type) (item : SyncQueue.QueueItem Op) (l : list (SyncQueue.QueueItem Op)),
    (exists before after,
        l = (before ++ after)%list /\
        SyncQueue.insert item l = (before ++ item :: after)%list /\
        (forall x, In x before -> SyncQueue.priority item <= SyncQueue.priority x) /\
        match after with
        | [] => True
        | next :: _ => SyncQueue.priority next < SyncQueue.priority item
        end /\
        (by_priority l ->
         (forall x, In x after -> SyncQueue.priority x < SyncQueue.priority item) /\
         by_priority (SyncQueue.insert item l))) /\
    (forall (Val : Type) (q : SyncQueue.t Op Val) (k : nat) (error : thrown),
        SyncQueue.isSpawnError error = false ->
        SyncQueue.retries item + 1 < SyncQueue.maxRetries q ->
        SyncQueue.queue (SyncQueue.after_operation k item (Raise error) q)
        = SyncQueue.mkItem (SyncQueue.id item) (SyncQueue.operation item)
                           (SyncQueue.priority item) (SyncQueue.timestamp item)
                           (SyncQueue.retries item + 1)
          :: SyncQueue.queue q).
Proof.
  intros Op item l. split.
  - induction l as [|x rest IH].
    + exists [], []. cbn. repeat split; intros y [].
    + cbn [SyncQueue.insert].
      destruct (SyncQueue.priority x <? SyncQueue.priority item) eqn:Hlt.
      * apply Z.ltb_lt in Hlt. exists [], (x :: rest). cbn [app].
        split; [reflexivity|]. split; [reflexivity|]. split; [intros y []|].
        split; [exact Hlt|]. intros (Hx & Hrest). split.
        -- intros y [<- | Hy]; [exact Hlt | specialize (Hx y Hy); lia].
        -- split; [|now split].
           intros y [<- | Hy]; [lia | specialize (Hx y Hy); lia].
      * apply Z.ltb_ge in Hlt.
        destruct IH as (before & after & Hl & Hins & Hb & Hnext & Hs).
        exists (x :: before), after. cbn [app]. rewrite <- Hl, Hins.
        split; [reflexivity|]. split; [reflexivity|]. split.
        -- intros y [<- | Hy]; [exact Hlt | now apply Hb].
        -- split; [exact Hnext|]. intros (Hx & Hrest).
           destruct (Hs Hrest) as (Ha & Hsorted). split; [exact Ha|].
           split; [|now rewrite <- Hins].
           intros y Hy. apply in_app_or in Hy. destruct Hy as [Hy | [<- | Hy]].
           ++ apply Hx. rewrite Hl. apply in_or_app. now left.
           ++ exact Hlt.
           ++ apply Hx. rewrite Hl. apply in_or_app. now right.
  - intros Val q k error Hspawn Hlt. unfold SyncQueue.after_operation.
    rewrite Hspawn. cbn [SyncQueue.retries].
    apply Z.ltb_lt in Hlt. rewrite Hlt. reflexivity.
Qed.

(** X10. An operation that fails every time with errors other than a
    spawn EIO fault is executed [maxRetries] times in all (once when
    [maxRetries] is below two), whatever the errors are and whether or
    not they are classified as recoverable: after its [j]-th failure the
    queue pauses for [2^j] seconds and runs it again, and the last
    failure rejects the caller's promise with the last error and leaves
    the queue idle. *)
Theorem failing_operation_is_retried :
  forall (Op Val : Type) (operation : Op) (priority : Z) (i : option string)
         (now : Z) (random : string) (maxRetries : Z)
         (errors : list thrown) (last : thrown),
    Z.of_nat (List.length errors) + 1 = Z.max 1 maxRetries ->
    Forall (fun error => SyncQueue.isSpawnError error = false) (errors ++ [last]) ->
    let start := SyncQueue.enqueue (Val := Val) operation priority i now random
                                   (SyncQueue.construct maxRetries) in
    let finish := SyncQueue.run (failures errors ++ [SyncQueue.TSettles 0 (Raise last)])
                                (snd start) in
    fst start = SyncQueue.Accepted 0 /\
    SyncQueue.promise_of 0 finish = SyncQueue.Rejected last /\
    starts finish = S (List.length errors) /\
    SyncQueue.queue finish = [] /\
    SyncQueue.drains finish = [] /\
    SyncQueue.processing finish = false /\
    forall j, (j < List.length errors)%nat ->
      pausing (SyncQueue.run (firstn (2 * j + 1) (failures errors)) (snd start))
      = Some (2 ^ (Z.of_nat j + 1) * 1000).
Proof.
  intros Op Val operation priority i now random maxRetries errors last Hcount Hplain
         start finish.
  set (key := Js.or_else i (SyncQueue.generated_id now random)).
  set (item := SyncQueue.mkItem key operation priority now 0).
  set (q0 := SyncQueue.mk (Val := Val) [] true maxRetries [SyncQueue.AwaitingOperation item]
               [SyncQueue.mkWaiter key SyncQueue.Pending]
               [SyncQueue.EEnqueued key 1; SyncQueue.EProcessingStarted;
                SyncQueue.EOperationStarted key]).
  assert (Hstart : start = (SyncQueue.Accepted 0, q0)).
  { subst start. unfold SyncQueue.enqueue.
    replace (match i with
             | Some i0 => Js.truthy i0 && SyncQueue.has_id i0 (SyncQueue.queue (SyncQueue.construct maxRetries))
             | None => false
             end) with false by (destruct i; cbn; now rewrite ?andb_false_r).
    reflexivity. }
  assert (Halone : executing_alone item 0 q0) by (now repeat split).
  apply Forall_app in Hplain. destruct Hplain as (Hplain & Hlast).
  inversion Hlast as [|? ? Hlast' _]; subst. clear Hlast.
  assert (Hprefix : forall es : list thrown,
             Forall (fun error => SyncQueue.isSpawnError error = false) es ->
             Z.of_nat (List.length es) < Z.max 1 maxRetries ->
             let q := SyncQueue.run (failures es) q0 in
             executing_alone item (Z.of_nat (List.length es)) q /\
             SyncQueue.waiters q = SyncQueue.waiters q0 /\
             SyncQueue.maxRetries q = maxRetries /\
             starts q = S (List.length es)).
  { intros es Hes Hlen. destruct es as [|e es'].
    - cbn. now repeat split.
    - assert (Hlt : 0 + Z.of_nat (List.length (e :: es')) < SyncQueue.maxRetries q0).
      { cbn [SyncQueue.maxRetries q0]. cbn [List.length] in *. lia. }
      destruct (failures_keep_retrying item (e :: es') 0 q0 Halone Hes Hlt)
        as (Ha & Hw & Hm & Hs).
      cbv zeta. rewrite Z.add_0_l in Ha. split; [exact Ha|]. split; [exact Hw|].
      split; [exact Hm|]. rewrite Hs. reflexivity. }
  subst finish. rewrite Hstart. cbn [fst snd].
  split; [reflexivity|].
  destruct (Hprefix errors Hplain ltac:(lia)) as ((Hq & Hp & Hd) & Hw & Hm & Hs).
  rewrite run_app. set (q1 := SyncQueue.run (failures errors) q0) in *.
  assert (Hfinal : SyncQueue.run [SyncQueue.TSettles 0 (Raise last)] q1
                   = SyncQueue.after_operation 0 (attempt_of item (Z.of_nat (List.length errors)))
                                               (Raise last) q1).
  { cbn [SyncQueue.run SyncQueue.turn]. unfold SyncQueue.operation_settles.
    rewrite Hd. reflexivity. }
  assert (Hpauses : forall j, (j < List.length errors)%nat ->
             pausing (SyncQueue.run (firstn (2 * j + 1) (failures errors)) q0)
             = Some (2 ^ (Z.of_nat j + 1) * 1000)).
  { intros j Hj.
    destruct (nth_error errors j) as [error|] eqn:Hnth;
      [|apply nth_error_None in Hnth; lia].
    rewrite (firstn_failures errors j error Hnth), run_app.
    assert (Hfirst : Forall (fun error => SyncQueue.isSpawnError error = false)
                            (firstn j errors)).
    { rewrite <- (firstn_skipn j errors) in Hplain. now apply Forall_app in Hplain. }
    assert (Hlenj : List.length (firstn j errors) = j) by (apply firstn_length_le; lia).
    destruct (Hprefix (firstn j errors) Hfirst ltac:(rewrite Hlenj; lia))
      as (Haj & _ & Hmj & _).
    rewrite Hlenj in Haj.
    assert (Herror : SyncQueue.isSpawnError error = false).
    { rewrite Forall_forall in Hplain. apply Hplain. eapply nth_error_In. exact Hnth. }
    destruct (failure_then_pause item (Z.of_nat j) error _ Haj Herror
                ltac:(rewrite Hmj; lia)) as (q2 & Hq2 & Hpause & _).
    cbn [SyncQueue.run]. rewrite Hq2. exact Hpause. }
  rewrite Hfinal. unfold SyncQueue.after_operation. rewrite Hlast'.
  cbn [SyncQueue.retries attempt_of].
  replace (Z.of_nat (List.length errors) + 1 <? SyncQueue.maxRetries q1) with false
    by (symmetry; apply Z.ltb_ge; lia).
  unfold SyncQueue.drain_next, SyncQueue.emit_failed, SyncQueue.promise_of, starts.
  cbn [SyncQueue.queue SyncQueue.set_drains SyncQueue.set_waiters SyncQueue.emit
       SyncQueue.set_processing SyncQueue.waiters SyncQueue.drains SyncQueue.emitted
       SyncQueue.processing SyncQueue.id attempt_of].
  rewrite Hq, Hd, Hw.
  cbn [SyncQueue.queue SyncQueue.set_drains SyncQueue.set_waiters SyncQueue.emit
       SyncQueue.set_processing SyncQueue.waiters SyncQueue.drains SyncQueue.emitted
       SyncQueue.processing SyncQueue.drop_nth q0 SyncQueue.settle map nth_error
       SyncQueue.promise SyncQueue.listens_to SyncQueue.is_pending andb].
  rewrite String.eqb_refl. cbn [SyncQueue.promise].
  split; [reflexivity|]. split.
  { unfold starts in Hs. rewrite !filter_app, !length_app, Hs. cbn. lia. }
  split; [exact Hq|]. split; [reflexivity|]. split; [reflexivity|]. exact Hpauses.
Qed.

Lemma failing_operation_is_retried_witness :
  SyncQueue.promise_of 0
    (SyncQueue.run (failures [remote_failure; remote_failure]
                    ++ [SyncQueue.TSettles 0 (Raise remote_failure)])
                   (snd (SyncQueue.enqueue (Val := nat) 1%nat 0 (Some "a") 1000 "0.1"
                                           (SyncQueue.construct 3))))
  = SyncQueue.Rejected remote_failure /\
  starts (SyncQueue.run (failures [remote_failure; remote_failure]
                         ++ [SyncQueue.TSettles 0 (Raise remote_failure)])
                        (snd (SyncQueue.enqueue (Val := nat) 1%nat 0 (Some "a") 1000 "0.1"
                                                (SyncQueue.construct 3)))) = 3%nat.
Proof.
  destruct (failing_operation_is_retried nat nat 1%nat 0 (Some "a") 1000 "0.1" 3
              [remote_failure; remote_failure] remote_failure eq_refl
              ltac:(repeat constructor)) as (_ & Hpromise & Hstarts & _).
  split; [exact Hpromise | exact Hstarts].
Defined.

Lemma remove_first_spec {Op : Type} (i : string) (l : list (SyncQueue.QueueItem Op)) :
  match SyncQueue.remove_first i l with
  | Some l1 =>
      exists before item after,
        l = (before ++ item :: after)%list /\ SyncQueue.id item = i /\
        SyncQueue.has_id i before = false /\ l1 = (before ++ after)%list
  | None => SyncQueue.has_id i l = false
  end.
Proof.
  induction l as [|x rest IH]; [reflexivity|].
  cbn [SyncQueue.remove_first]. destruct (String.eqb (SyncQueue.id x) i) eqn:Hx.
  - exists [], x, rest. apply String.eqb_eq in Hx. now repeat split.
  - destruct (SyncQueue.remove_first i rest) as [l1|]; cbn [option_map].
    + destruct IH as (before & item & after & -> & Hid & Hb & ->).
      exists (x :: before), item, after. cbn. rewrite Hx. now repeat split.
    + cbn. now rewrite Hx.
Qed.

(** X11. [remove(id)] takes out the first waiting operation with that
    id and answers [true]; when no operation with that id is waiting it
    answers [false] and changes nothing, so the operation that is
    executing cannot be removed.  It settles no promise: the promise of
    the removed operation stays pending for as long as no operation is
    executing or waiting under its id and none is enqueued under it
    again. *)
Theorem remove_takes_the_first_waiting :
  forall (Op Val : Type) (q : SyncQueue.t Op Val) (i : string),
    let removed := fst (SyncQueue.remove i q) in
    let q1 := snd (SyncQueue.remove i q) in
    removed = SyncQueue.has_id i (SyncQueue.queue q) /\
    SyncQueue.drains q1 = SyncQueue.drains q /\
    SyncQueue.waiters q1 = SyncQueue.waiters q /\
    (if removed
     then exists before item after,
            SyncQueue.queue q = (before ++ item :: after)%list /\
            SyncQueue.id item = i /\
            SyncQueue.has_id i before = false /\
            SyncQueue.queue q1 = (before ++ after)%list
     else q1 = q) /\
    forall (w : nat) (es : list (SyncQueue.Turn Op Val)),
      nth_error (SyncQueue.waiters q) w = Some (SyncQueue.mkWaiter i SyncQueue.Pending) ->
      ~ In i (executing_ids (SyncQueue.drains q)) ->
      SyncQueue.has_id i (SyncQueue.queue q1) = false ->
      Forall (fun e => key_of e <> Some i) es ->
      SyncQueue.promise_of w (SyncQueue.run es q1) = SyncQueue.Pending.
Proof.
  intros Op Val q i removed q1.
  assert (Hshape : removed = SyncQueue.has_id i (SyncQueue.queue q) /\
                   SyncQueue.drains q1 = SyncQueue.drains q /\
                   SyncQueue.waiters q1 = SyncQueue.waiters q /\
                   (if removed
                    then exists before item after,
                           SyncQueue.queue q = (before ++ item :: after)%list /\
                           SyncQueue.id item = i /\
                           SyncQueue.has_id i before = false /\
                           SyncQueue.queue q1 = (before ++ after)%list
                    else q1 = q)).
  { subst removed q1. unfold SyncQueue.remove.
    pose proof (remove_first_spec i (SyncQueue.queue q)) as Hspec.
    destruct (SyncQueue.remove_first i (SyncQueue.queue q)) as [l1|]; cbn.
    - destruct Hspec as (before & item & after & Hq & Hid & Hb & ->).
      split.
      + rewrite Hq. unfold SyncQueue.has_id. rewrite existsb_app. cbn.
        rewrite Hid, String.eqb_refl. now rewrite orb_true_r.
      + split; [reflexivity|]. split; [reflexivity|]. now exists before, item, after.
    - now rewrite Hspec. }
  destruct Hshape as (H1 & H2 & H3 & H4).
  split; [exact H1|]. split; [exact H2|]. split; [exact H3|]. split; [exact H4|].
  intros w es Hw Hexec Hgone Hes.
  assert (Hstart : abandoned i w q1).
  { unfold abandoned. rewrite H2, H3. split; [|now split].
    intro Hin. apply has_id_In in Hin. congruence. }
  destruct (abandoned_run i w es q1 Hes Hstart) as (_ & _ & Hend).
  unfold SyncQueue.promise_of. now rewrite Hend.
Qed.

Lemma remove_takes_the_first_waiting_witness :
  fst (SyncQueue.remove "b" b_and_c_waiting) = true /\
  SyncQueue.promise_of 1
    (SyncQueue.run [SyncQueue.TSettles 0 (Return 7%nat); SyncQueue.TSettles 0 (Return 9%nat)]
                   (snd (SyncQueue.remove "b" b_and_c_waiting)))
  = SyncQueue.Pending.
Proof.
  destruct (remove_takes_the_first_waiting nat nat b_and_c_waiting "b")
    as (Hremoved & _ & _ & _ & Hpending).
  split; [exact Hremoved|].
  apply Hpending.
  - reflexivity.
  - cbn. intros [H | []]. discriminate H.
  - reflexivity.
  - repeat constructor; discriminate.
Defined.

(* ===================================================================== *)
(** ** Further properties of the debounced queue *)
(* ===================================================================== *)

Section LostCalls.

Context {Op Val : Type}.
Implicit Types (d : DebouncedSyncQueue.t Op Val).

Import DebouncedSyncQueue.

Lemma lapsed_turn (e : Turn Op Val) d d1 (n : nat) :
  nth_error (calls d) n = Some Lapsed -> turn e d = Some d1 ->
  nth_error (calls d1) n = Some Lapsed.
Proof.
  intros Hn Hturn. destruct e as [operation | m now random | b]; cbn in Hturn.
  - injection Hturn as <-. unfold enqueueDebounced. cbn.
    assert (Hlt : (n < List.length (calls d))%nat) by (apply nth_error_Some; now rewrite Hn).
    destruct (debounceTimer d) as [handle|].
    + rewrite nth_error_app1 by (now rewrite length_clearTimeout).
      apply nth_error_clearTimeout; [exact Hn | discriminate].
    + now rewrite nth_error_app1.
  - unfold timer_fires in Hturn.
    destruct (nth_error (calls d) m) as [[| | | |]|] eqn:Hm; try discriminate.
    assert (Hne : n <> m) by (intros ->; congruence).
    destruct (pendingOperation d) as [operation|].
    + destruct (SyncQueue.enqueue operation 0 (Some reserved_id) now random (base d))
        as [[error | w] b]; injection Hturn as <-; cbn;
        now rewrite nth_error_replace_nth_other.
    + injection Hturn as <-. cbn. now rewrite nth_error_replace_nth_other.
  - unfold base_turn in Hturn.
    destruct (SyncQueue.turn b (base d)) as [b1|]; [|discriminate].
    injection Hturn as <-. unfold run_finally.
    destruct (existsb _ _); [|exact Hn].
    cbn. rewrite nth_error_map. cbn in Hn. rewrite Hn. reflexivity.
Qed.

Lemma lapsed_run (es : list (Turn Op Val)) d (n : nat) :
  nth_error (calls d) n = Some Lapsed ->
  nth_error (calls (run es d)) n = Some Lapsed.
Proof.
  revert d. induction es as [|e es IH]; intros d Hn; [exact Hn|].
  cbn. apply IH. destruct (turn e d) as [d1|] eqn:E; [|exact Hn].
  exact (lapsed_turn e d d1 n Hn E).
Qed.

(** An operation that ends its stay in the queue settles the promises
    that listen to its id. *)
Lemma settled_after_terminal (q : SyncQueue.t Op Val) (k w : nat)
    (item : SyncQueue.QueueItem Op) (outcome : Res Val) :
  nth_error (SyncQueue.waiters q) w
  = Some (SyncQueue.mkWaiter (SyncQueue.id item) SyncQueue.Pending) ->
  terminal q item outcome ->
  SyncQueue.is_pending (SyncQueue.promise_of w (SyncQueue.after_operation k item outcome q))
  = false.
Proof.
  intros Hw Hterminal. unfold SyncQueue.promise_of, SyncQueue.after_operation.
  destruct outcome as [result | error].
  - rewrite drain_next_waiters. cbn.
    rewrite (nth_error_settle _ _ _ _ _ Hw). cbn. now rewrite String.eqb_refl.
  - destruct (SyncQueue.isSpawnError error) eqn:Hspawn.
    + rewrite drain_next_waiters. cbn.
      rewrite (nth_error_settle _ _ _ _ _ Hw). cbn. now rewrite String.eqb_refl.
    + destruct Hterminal as [Habs | Hlast]; [congruence|]. cbn [SyncQueue.retries].
      replace (SyncQueue.retries item + 1 <? SyncQueue.maxRetries q) with false
        by (symmetry; apply Z.ltb_ge; lia).
      rewrite drain_next_waiters. cbn.
      rewrite (nth_error_settle _ _ _ _ _ Hw). cbn. now rewrite String.eqb_refl.
Qed.

End LostCalls.

(** X12. A debounced call made while the previous debounced operation
    is executing is lost when that operation ends before the new timer
    fires: the end of the operation clears [pendingOperation], so the
    timer of the new call finds nothing to enqueue; the queue is left as
    it is, and the promise of the new call is never resolved and never
    rejected. *)
Theorem debounced_call_lost_when_previous_ends :
  forall (Op Val : Type) (d : DebouncedSyncQueue.t Op Val) (n m k w : nat)
         (item : SyncQueue.QueueItem Op) (outcome : Res Val),
    nth_error (DebouncedSyncQueue.calls d) n = Some (DebouncedSyncQueue.Forwarded w false) ->
    nth_error (SyncQueue.waiters (DebouncedSyncQueue.base d)) w
    = Some (SyncQueue.mkWaiter (SyncQueue.id item) SyncQueue.Pending) ->
    nth_error (SyncQueue.drains (DebouncedSyncQueue.base d)) k
    = Some (SyncQueue.AwaitingOperation item) ->
    terminal (DebouncedSyncQueue.base d) item outcome ->
    nth_error (DebouncedSyncQueue.calls d) m = Some DebouncedSyncQueue.Armed ->
    exists d1,
      DebouncedSyncQueue.turn (DebouncedSyncQueue.TBase (SyncQueue.TSettles k outcome)) d
      = Some d1 /\
      DebouncedSyncQueue.pendingOperation d1 = None /\
      forall (now : Z) (random : string),
      exists d2,
        DebouncedSyncQueue.turn (DebouncedSyncQueue.TFire m now random) d1 = Some d2 /\
        DebouncedSyncQueue.base d2 = DebouncedSyncQueue.base d1 /\
        forall es, DebouncedSyncQueue.promise_of m (DebouncedSyncQueue.run es d2)
                   = SyncQueue.Pending.
Proof.
  intros Op Val d n m k w item outcome Hn Hw Hk Hterminal Hm.
  pose proof (settled_after_terminal _ k w item outcome Hw Hterminal) as Hsettled.
  unfold DebouncedSyncQueue.turn, DebouncedSyncQueue.base_turn, SyncQueue.turn,
    SyncQueue.operation_settles. rewrite Hk.
  set (b1 := SyncQueue.after_operation k item outcome (DebouncedSyncQueue.base d)) in *.
  eexists. split; [reflexivity|].
  unfold DebouncedSyncQueue.run_finally. cbn [DebouncedSyncQueue.base DebouncedSyncQueue.calls].
  assert (Hex : existsb (DebouncedSyncQueue.settled_now b1) (DebouncedSyncQueue.calls d) = true).
  { apply existsb_exists. exists (DebouncedSyncQueue.Forwarded w false). split.
    - eapply nth_error_In. exact Hn.
    - cbn. now rewrite Hsettled. }
  rewrite Hex. split; [reflexivity|].
  intros now random. unfold DebouncedSyncQueue.timer_fires.
  cbn [DebouncedSyncQueue.calls DebouncedSyncQueue.pendingOperation DebouncedSyncQueue.base
       DebouncedSyncQueue.debounceMs DebouncedSyncQueue.debounceTimer].
  rewrite nth_error_map, Hm. cbn [option_map DebouncedSyncQueue.settled_now].
  eexists. split; [reflexivity|]. split; [reflexivity|].
  intro es. unfold DebouncedSyncQueue.promise_of.
  rewrite (lapsed_run es _ m); [reflexivity|].
  cbn [DebouncedSyncQueue.calls].
  apply nth_error_replace_nth_same with (x := DebouncedSyncQueue.Armed).
  rewrite nth_error_map, Hm. reflexivity.
Qed.

Lemma debounced_call_lost_when_previous_ends_witness :
  exists d1,
    DebouncedSyncQueue.turn
      (DebouncedSyncQueue.TBase (SyncQueue.TSettles 0 (Return 7%nat))) change_during_sync
    = Some d1 /\
    DebouncedSyncQueue.pendingOperation d1 = None /\
    forall (now : Z) (random : string),
    exists d2,
      DebouncedSyncQueue.turn (DebouncedSyncQueue.TFire 1 now random) d1 = Some d2 /\
      DebouncedSyncQueue.base d2 = DebouncedSyncQueue.base d1 /\
      forall es, DebouncedSyncQueue.promise_of 1 (DebouncedSyncQueue.run es d2)
                 = SyncQueue.Pending.
Proof.
  apply (debounced_call_lost_when_previous_ends nat nat change_during_sync 0 1 0 0
           (SyncQueue.mkItem DebouncedSyncQueue.reserved_id 1%nat 0 5000 0) (Return 7%nat));
    first [reflexivity | exact I].
Defined.

(* ===================================================================== *)
(** ** Further properties of the retry manager and of the classifier *)
(* ===================================================================== *)

Section RetryBounds.

Import RetryManager.

Context {T : Type}.
Variable options : RetryOptions.
Variable operation : M T.
Variable operationName : string.

Lemma loop_bounds (n : nat) :
  callback_returns options ->
  forall (attempt : Z) (last : option GitSyncError) (tally : Tally) (w : World),
    attempt + Z.of_nat n = maxRetries options ->
    exists k,
      (k <= n)%nat /\
      calls (snd (fst (loop (S n) attempt last options operation operationName tally w)))
      = (calls tally + S k)%nat /\
      pauses (snd (fst (loop (S n) attempt last options operation operationName tally w)))
      = (pauses tally ++ map (delay_for options) (count_up attempt k))%list /\
      forall v,
        fst (fst (loop (S n) attempt last options operation operationName tally w)) = Return v ->
        exists w0,
          operation w0
          = (Return v, snd (loop (S n) attempt last options operation operationName tally w)).
Proof.
  intro Hcb. induction n as [|n IH]; intros attempt last tally w Hbound.
  - exists 0%nat. split; [lia|]. cbn [loop count_up map].
    destruct (operation w) as [[v | error] w1] eqn:Hop.
    + cbn. rewrite app_nil_r. split; [lia|]. split; [reflexivity|].
      intros v0 Hv. injection Hv as <-. now exists w.
    + destruct (negb (ErrorHandler.shouldRetry (ErrorHandler.handle error))).
      * cbn. rewrite app_nil_r. split; [lia|]. split; [reflexivity|]. discriminate.
      * replace (attempt =? maxRetries options) with true by (symmetry; apply Z.eqb_eq; lia).
        cbn. rewrite app_nil_r. split; [lia|]. split; [reflexivity|]. discriminate.
  - remember (S n) as m eqn:Hm. cbn [loop].
    destruct (operation w) as [[v | error] w1] eqn:Hop.
    + exists 0%nat. cbn. rewrite app_nil_r. split; [lia|]. split; [lia|].
      split; [reflexivity|]. intros v0 Hv. injection Hv as <-. now exists w.
    + destruct (negb (ErrorHandler.shouldRetry (ErrorHandler.handle error))).
      * exists 0%nat. cbn. rewrite app_nil_r. split; [lia|]. split; [lia|].
        split; [reflexivity|]. discriminate.
      * replace (attempt =? maxRetries options) with false
          by (symmetry; apply Z.eqb_neq; lia).
        assert (Hnote : exists w2,
                   match onRetry options with
                   | Some callback => callback (ErrorHandler.handle error) (attempt + 1) w1
                   | None => (Return tt, w1)
                   end = (Return tt, w2)).
        { unfold callback_returns in Hcb. destruct (onRetry options) as [callback|].
          - apply Hcb.
          - now exists w1. }
        destruct Hnote as (w2 & ->). cbn [sleep]. subst m.
        destruct (IH (attempt + 1) (Some (ErrorHandler.handle error))
                     (mkTally (S (calls tally)) (pauses tally ++ [delay_for options attempt]))
                     (with_clock (record (EvSleep (delay_for options attempt)) w2)
                                 (clock w2 + delay_for options attempt)))
          as (k & Hk & Hcalls & Hpauses & Hvalue); [lia|].
        exists (S k). split; [lia|]. cbn [calls pauses] in *.
        rewrite Hcalls, Hpauses. split; [lia|]. split.
        -- cbn [count_up map]. now rewrite <- app_assoc.
        -- exact Hvalue.
Qed.

End RetryBounds.



(** X14. With a negative [maxRetries] the operation is never called:
    [executeWithRetry] rejects at once with the error
    ["<operationName> failed after <maxRetries> retries"], and nothing
    is slept or changed. *)
Theorem executeWithRetry_negative_bound :
  forall (T : Type) (this_options : RetryManager.RetryOptions)
         (customOptions : RetryManager.PartialRetryOptions)
         (operation : M T) (operationName : string) (w : World),
    let options := RetryManager.merge this_options customOptions in
    RetryManager.maxRetries options < 0 ->
    RetryManager.executeWithRetry_tally this_options operation operationName customOptions w
    = ((Raise (ThrowOther
                 (Some (operationName ++ " failed after "
                        ++ Js.show (RetryManager.maxRetries options) ++ " retries")%string)),
        RetryManager.mkTally 0 []), w).
Proof.
  intros T this_options customOptions operation operationName w options Hneg.
  unfold RetryManager.executeWithRetry_tally. fold options.
  replace (Z.to_nat (RetryManager.maxRetries options + 1)) with 0%nat by lia.
  reflexivity.
Qed.

Lemma executeWithRetry_negative_bound_witness :
  RetryManager.executeWithRetry_tally RetryManager.DEFAULT_RETRY_OPTIONS
    unreachable_remote "Git fetch" negative_bound quiet_world
  = ((Raise (ThrowOther (Some "Git fetch failed after -1 retries")),
      RetryManager.mkTally 0 []), quiet_world).
Proof.
  exact (executeWithRetry_negative_bound unit RetryManager.DEFAULT_RETRY_OPTIONS
           negative_bound unreachable_remote "Git fetch" quiet_world eq_refl).
Defined.

(** X15. A thrown value that is not a [GitSyncError] is retried exactly
    when it has a message that, in lower case, mentions a network
    failure ("could not resolve host", "network is unreachable" or
    "connection refused") and does not read like an authentication
    failure; every other plain error, and a value without a message, is
    classified as not retryable. *)
Theorem plain_error_retried_iff_network :
  forall (msg : option string),
    ErrorHandler.shouldRetry (ErrorHandler.handle (ThrowOther msg))
    = match msg with
      | Some raw =>
          negb (mentions_authentication (Js.toLowerCase raw))
          && mentions_network (Js.toLowerCase raw)
      | None => false
      end.
Proof.
  intros [raw|]; [|reflexivity].
  unfold ErrorHandler.handle.
  destruct (Js.truthy raw) eqn:Htruthy.
  - unfold ErrorHandler.classify_message, mentions_authentication, mentions_network.
    cbv zeta.
    repeat match goal with
           | |- context [if ?b then _ else _] =>
               destruct b; try reflexivity
           end.
  - unfold Js.truthy in Htruthy. apply negb_false_iff, String.eqb_eq in Htruthy.
    subst raw. reflexivity.
Qed.

(* ===================================================================== *)
(** ** Properties of the webhook queue *)
(* ===================================================================== *)

Section WebhookQueueProperties.

Import WebhookQueue.

Lemma count_cons (s : Status) (w : QueuedWebhook) (l : list QueuedWebhook) :
  count s (w :: l) = ((if Status_eqb (status w) s then 1 else 0) + count s l)%nat.
Proof. unfold count. cbn. now destruct (Status_eqb (status w) s). Qed.

Lemma claim_first_pending_spec (l : list QueuedWebhook) :
  match claim_first_pending l with
  | Some (found, l1) =>
      exists before after,
        l = (before ++ found :: after)%list /\
        l1 = (before ++ with_status found in_processing :: after)%list /\
        status found = pending /\
        existsb is_pending before = false
  | None => existsb is_pending l = false
  end.
Proof.
  induction l as [|w rest IH]; [reflexivity|].
  cbn [claim_first_pending]. destruct (is_pending w) eqn:Hw.
  - exists [], rest. repeat split. unfold is_pending in Hw. now destruct (status w).
  - destruct (claim_first_pending rest) as [[found rest1]|].
    + destruct IH as (before & after & -> & -> & Hfound & Hbefore).
      exists (w :: before), after. cbn. rewrite Hw. now repeat split.
    + cbn. now rewrite Hw.
Qed.

Lemma processNext_maxQueueSize (q : t) : maxQueueSize (processNext q) = maxQueueSize q.
Proof.
  unfold processNext. destruct (claim_first_pending (queue q)) as [[found l]|];
    [reflexivity|]. now destruct (existsb is_in_processing (queue q)).
Qed.

Lemma processNext_maxRetries (q : t) : maxRetries (processNext q) = maxRetries q.
Proof.
  unfold processNext. destruct (claim_first_pending (queue q)) as [[found l]|];
    [reflexivity|]. now destruct (existsb is_in_processing (queue q)).
Qed.

Lemma processNext_length (q : t) :
  List.length (queue (processNext q)) = List.length (queue q).
Proof.
  unfold processNext. pose proof (claim_first_pending_spec (queue q)) as Hspec.
  destruct (claim_first_pending (queue q)) as [[found l]|].
  - destruct Hspec as (before & after & -> & -> & _). cbn. now rewrite !length_app.
  - now destruct (existsb is_in_processing (queue q)).
Qed.

Lemma startProcessing_facts (q : t) :
  maxQueueSize (startProcessing q) = maxQueueSize q /\
  maxRetries (startProcessing q) = maxRetries q /\
  List.length (queue (startProcessing q)) = List.length (queue q).
Proof.
  unfold startProcessing. destruct (processing q); [now repeat split|].
  now rewrite processNext_maxQueueSize, processNext_maxRetries, processNext_length.
Qed.

Lemma webhook_turn_maxQueueSize (e : WebhookTurn) (q : t) :
  maxQueueSize (webhook_turn e q) = maxQueueSize q.
Proof.
  destruct e as [p now random | | i outcome roll now | now |]; cbn.
  - unfold enqueue. destruct (maxQueueSize q <=? _); [reflexivity|].
    cbn. now rewrite (proj1 (startProcessing_facts _)).
  - destruct (timer q); [apply processNext_maxQueueSize | reflexivity].
  - destruct (existsb _ _); [|reflexivity].
    unfold processor_settles. now destruct outcome, roll.
  - reflexivity.
  - reflexivity.
Qed.

Lemma webhook_turn_maxRetries (e : WebhookTurn) (q : t) :
  maxRetries (webhook_turn e q) = maxRetries q.
Proof.
  destruct e as [p now random | | i outcome roll now | now |]; cbn.
  - unfold enqueue. destruct (maxQueueSize q <=? _); [reflexivity|].
    cbn. now rewrite (proj1 (proj2 (startProcessing_facts _))).
  - destruct (timer q); [apply processNext_maxRetries | reflexivity].
  - destruct (existsb _ _); [|reflexivity].
    unfold processor_settles. now destruct outcome, roll.
  - reflexivity.
  - reflexivity.
Qed.

Lemma webhook_turn_length (e : WebhookTurn) (q : t) :
  Z.of_nat (List.length (queue q)) <= Z.max 0 (maxQueueSize q) ->
  Z.of_nat (List.length (queue (webhook_turn e q))) <= Z.max 0 (maxQueueSize q).
Proof.
  intro Hq. destruct e as [p now random | | i outcome roll now | now |]; cbn.
  - unfold enqueue. destruct (maxQueueSize q <=? _) eqn:Hfull; [exact Hq|].
    apply Z.leb_gt in Hfull. cbn [snd].
    rewrite (proj2 (proj2 (startProcessing_facts _))). cbn.
    rewrite length_app. cbn. lia.
  - destruct (timer q); [now rewrite processNext_length | exact Hq].
  - destruct (existsb _ _); [|exact Hq].
    unfold processor_settles.
    assert (Hfilter : forall f (l : list QueuedWebhook),
               (List.length (filter f l) <= List.length l)%nat)
      by (intros f l; induction l as [|x l IH]; cbn; [lia | destruct (f x); cbn; lia]).
    destruct outcome as [[]|error], roll; cbn; rewrite ?length_map; try exact Hq.
    match goal with |- context [filter ?f (map ?h ?l)] =>
      specialize (Hfilter f (map h l)); rewrite length_map in Hfilter end.
    lia.
  - assert (Hfilter : forall f (l : list QueuedWebhook),
               (List.length (filter f l) <= List.length l)%nat)
      by (intros f l; induction l as [|x l IH]; cbn; [lia | destruct (f x); cbn; lia]).
    match goal with |- context [filter ?f ?l] => specialize (Hfilter f l) end. lia.
  - exact Hq.
Qed.

Lemma Forall_claimed (P : QueuedWebhook -> Prop) (q : t) :
  (forall w, P w -> P (with_status w in_processing)) ->
  Forall P (queue q) -> Forall P (queue (processNext q)).
Proof.
  intros Hclaim Hq. unfold processNext.
  pose proof (claim_first_pending_spec (queue q)) as Hspec.
  destruct (claim_first_pending (queue q)) as [[found l]|].
  - destruct Hspec as (before & after & Heq & -> & _). cbn. rewrite Heq in Hq.
    apply Forall_app in Hq. destruct Hq as (Hb & Ha). inversion Ha; subst.
    apply Forall_app. split; [exact Hb|]. constructor; [now apply Hclaim | assumption].
  - now destruct (existsb is_in_processing (queue q)).
Qed.

Lemma Forall_filter_keeps {A} (P : A -> Prop) (f : A -> bool) (l : list A) :
  Forall P l -> Forall P (filter f l).
Proof.
  induction 1 as [|x l Hx _ IH]; cbn; [constructor|].
  destruct (f x); [now constructor | exact IH].
Qed.

Lemma webhook_turn_retries (e : WebhookTurn) (q : t) :
  Forall (retries_in_step (maxRetries q)) (queue q) ->
  Forall (retries_in_step (maxRetries q)) (queue (webhook_turn e q)).
Proof.
  intro Hq.
  assert (Hclaim : forall w, retries_in_step (maxRetries q) w ->
                             retries_in_step (maxRetries q) (with_status w in_processing)).
  { intros w (H0 & _). now split. }
  destruct e as [p now random | | i outcome roll now | now |]; cbn.
  - unfold enqueue. destruct (maxQueueSize q <=? _); [exact Hq|]. cbn [snd].
    assert (Hnew : Forall (retries_in_step (maxRetries q))
                          (queue q ++ [mkQueued (generateId now random) p now 0 pending None])).
    { apply Forall_app. split; [exact Hq|]. constructor; [|constructor].
      split; cbn; [lia | now left]. }
    unfold startProcessing. cbn. destruct (processing q); [exact Hnew|].
    now apply (Forall_claimed _ (mk _ true _ _ _ true _)).
  - destruct (timer q); [now apply Forall_claimed | exact Hq].
  - destruct (existsb _ _); [|exact Hq].
    assert (Hmap : Forall (retries_in_step (maxRetries q))
                     (queue (processor_settles i outcome false now q))).
    { unfold processor_settles. destruct outcome as [[]|error]; cbn.
      - apply Forall_map. eapply Forall_impl; [|exact Hq].
        intros w (H0 & Hw). destruct (String.eqb (id w) i && is_in_processing w); [|now split].
        now split.
      - apply Forall_map. eapply Forall_impl; [|exact Hq].
        intros w (H0 & Hw). destruct (String.eqb (id w) i && is_in_processing w); [|now split].
        split; cbn; [lia|].
        destruct (retries w + 1 <? maxRetries q) eqn:Hlt;
          [apply Z.ltb_lt in Hlt; now right | apply Z.ltb_ge in Hlt; exact Hlt]. }
    unfold processor_settles in *. destruct outcome as [[]|error], roll; cbn in *;
      try exact Hmap.
    now apply Forall_filter_keeps.
  - now apply Forall_filter_keeps.
  - exact Hq.
Qed.

End WebhookQueueProperties.

(** X16. In the report of [getStatus()] the four counts (pending,
    processing, completed, failed) add up to the size of the queue, and
    [webhooks] holds the last twenty stored webhooks (all of them when
    there are fewer), in queue order. *)
Theorem getStatus_counts_every_webhook_once :
  forall (q : WebhookQueue.t),
    let report := WebhookQueue.getStatus q in
    (WebhookQueue.status_pending report + WebhookQueue.status_processing report
     + WebhookQueue.status_completed report + WebhookQueue.status_failed report)%nat
    = WebhookQueue.status_size report /\
    WebhookQueue.status_size report = List.length (WebhookQueue.queue q) /\
    List.length (WebhookQueue.status_webhooks report)
    = Nat.min 20 (List.length (WebhookQueue.queue q)) /\
    exists older, WebhookQueue.queue q = (older ++ WebhookQueue.status_webhooks report)%list.
Proof.
  intro q. unfold WebhookQueue.getStatus.
  cbn [WebhookQueue.status_size WebhookQueue.status_pending WebhookQueue.status_processing
       WebhookQueue.status_completed WebhookQueue.status_failed
       WebhookQueue.status_webhooks].
  split; [|split; [reflexivity|split]].
  - induction (WebhookQueue.queue q) as [|w l IH]; [reflexivity|].
    rewrite !count_cons. cbn [List.length]. rewrite <- IH.
    destruct (WebhookQueue.status w); cbn [WebhookQueue.Status_eqb]; lia.
  - unfold WebhookQueue.slice_last. rewrite length_skipn. lia.
  - exists (firstn (List.length (WebhookQueue.queue q) - 20) (WebhookQueue.queue q)).
    unfold WebhookQueue.slice_last. now rewrite firstn_skipn.
Qed.

(** X17. However events are enqueued, processed, retried and cleaned
    up, the webhook queue never stores more than [maxQueueSize]
    webhooks, and [maxQueueSize] stays what the constructor made it
    (100 when the option is absent or zero). *)
Theorem webhook_queue_never_exceeds_capacity :
  forall (es : list WebhookTurn) (maxQueueSize maxRetries processInterval : option Z),
    let q := webhook_run es (WebhookQueue.construct maxQueueSize maxRetries processInterval) in
    WebhookQueue.maxQueueSize q = WebhookQueue.number_or maxQueueSize 100 /\
    Z.of_nat (List.length (WebhookQueue.queue q)) <= Z.max 0 (WebhookQueue.maxQueueSize q).
Proof.
  intros es mq mr pi.
  assert (Hinv : forall q0,
             Z.of_nat (List.length (WebhookQueue.queue q0))
             <= Z.max 0 (WebhookQueue.maxQueueSize q0) ->
             WebhookQueue.maxQueueSize (webhook_run es q0) = WebhookQueue.maxQueueSize q0 /\
             Z.of_nat (List.length (WebhookQueue.queue (webhook_run es q0)))
             <= Z.max 0 (WebhookQueue.maxQueueSize (webhook_run es q0))).
  { induction es as [|e es IH]; intros q0 Hq0; [now split|].
    cbn [webhook_run].
    destruct (IH (webhook_turn e q0)) as (Hm & Hl).
    - rewrite webhook_turn_maxQueueSize. now apply webhook_turn_length.
    - rewrite webhook_turn_maxQueueSize in Hm. now split. }
  apply Hinv. cbn. lia.
Qed.

(** X18. Processed webhooks keep their slot: [cleanup()] removes
    nothing that is less than an hour old, whatever its status, so a
    queue that holds [maxQueueSize] webhooks of the last hour refuses
    every new event, even when all of them are completed or failed. *)
Theorem processed_webhooks_keep_their_slot :
  forall (q : WebhookQueue.t) (p : WebhookPayload) (now : Z) (random : string),
    WebhookQueue.maxQueueSize q <= Z.of_nat (List.length (WebhookQueue.queue q)) ->
    (forall w, In w (WebhookQueue.queue q) -> now - 3600000 < WebhookQueue.timestamp w) ->
    WebhookQueue.cleanup now q = q /\
    WebhookQueue.enqueue p now random (WebhookQueue.cleanup now q) = (None, q).
Proof.
  intros q p now random Hfull Hrecent.
  assert (Hclean : WebhookQueue.cleanup now q = q).
  { unfold WebhookQueue.cleanup, WebhookQueue.set_queue.
    replace (filter _ (WebhookQueue.queue q)) with (WebhookQueue.queue q);
      [now destruct q|].
    symmetry. apply forallb_filter_id. apply forallb_forall. intros w Hw.
    specialize (Hrecent w Hw).
    destruct (WebhookQueue.status w); try reflexivity; apply Z.ltb_lt; lia. }
  split; [exact Hclean|]. rewrite Hclean. unfold WebhookQueue.enqueue.
  now replace (WebhookQueue.maxQueueSize q <=? Z.of_nat (List.length (WebhookQueue.queue q)))
    with true by (symmetry; apply Z.leb_le; exact Hfull).
Qed.

Lemma processed_webhooks_keep_their_slot_witness :
  WebhookQueue.count WebhookQueue.completed (WebhookQueue.queue two_completed) = 2%nat /\
  WebhookQueue.enqueue push_event 2000 "c" (WebhookQueue.cleanup 2000 two_completed)
  = (None, two_completed).
Proof.
  split; [reflexivity|].
  apply (processed_webhooks_keep_their_slot two_completed push_event 2000 "c").
  - vm_compute. discriminate.
  - intros w Hw. vm_compute in Hw. destruct Hw as [<- | [<- | []]]; reflexivity.
Defined.


(* ===================================================================== *)
(** ** Further properties of the webhook listener *)
(* ===================================================================== *)

Section StringFacts.

Lemma length_append (a b : string) :
  String.length (a ++ b) = (String.length a + String.length b)%nat.
Proof. induction a as [|c a IH]; cbn; [reflexivity | now rewrite IH]. Qed.

Lemma substring_all (s : string) : substring 0 (String.length s) s = s.
Proof. induction s as [|c s IH]; cbn; [reflexivity | now rewrite IH]. Qed.

Lemma substring_skip (a b : string) (k : nat) :
  substring (String.length a) k (a ++ b) = substring 0 k b.
Proof. induction a as [|c a IH]; cbn; [reflexivity | exact IH]. Qed.

Lemma substring_head (a b : string) : substring 0 (String.length a) (a ++ b) = a.
Proof.
  induction a as [|c a IH]; cbn; [now destruct b | now rewrite IH].
Qed.

Lemma prefix_append (a b : string) : String.prefix a (a ++ b) = true.
Proof.
  induction a as [|c a IH]; cbn; [now destruct b|].
  destruct (ascii_dec c c) as [_ | Hne]; [exact IH | now contradiction Hne].
Qed.

Lemma endsWith_append (a b : string) : Js.endsWith (a ++ b) b = true.
Proof.
  unfold Js.endsWith. rewrite length_append.
  replace (String.length a + String.length b - String.length b)%nat
    with (String.length a) by lia.
  rewrite substring_skip, substring_all, String.eqb_refl.
  replace (String.length b <=? String.length a + String.length b)%nat with true
    by (symmetry; apply Nat.leb_le; lia).
  reflexivity.
Qed.

Lemma replace_first_absent (s pattern replacement : string) :
  Js.includes s pattern = false ->
  WebhookServer.replace_first s pattern replacement = s.
Proof.
  induction s as [|c s IH]; intro H.
  - cbn [Js.includes] in H. cbn [WebhookServer.replace_first].
    destruct (String.prefix pattern ""); [discriminate | reflexivity].
  - cbn [Js.includes] in H. cbn [WebhookServer.replace_first].
    destruct (String.prefix pattern (String c s)); [discriminate|].
    now rewrite (IH H).
Qed.

End StringFacts.

(** X20. Bitbucket events are not verified: a request that is
    recognised as a Bitbucket event passes the signature check whatever
    secret is configured and whatever headers it carries, so it is never
    answered 401; with no filters and no ingest queue it is answered
    200 and a sync is set in motion. *)
Theorem bitbucket_events_are_not_verified :
  forall (pf : WebhookServer.Platform) (srv : WebhookServer.t)
         (req : WebhookServer.Request) (now : Z) (random : string)
         (payload : Json.json) (p : WebhookPayload),
    WebhookServer.JSON_parse pf (WebhookServer.body req) = Some payload ->
    WebhookServer.parseWebhookPayload (WebhookServer.headers req) payload = Some p ->
    provider p = bitbucket ->
    WebhookServer.verifySignature pf (WebhookServer.options srv) (WebhookServer.headers req)
                                  (WebhookServer.body req) (provider p) = Some true /\
    WebhookServer.statusCode (fst (WebhookServer.handleWebhook pf req now random srv)) <> 401 /\
    (WebhookServer.filterOptions (WebhookServer.options srv) = None ->
     WebhookServer.webhookQueue srv = None ->
     WebhookServer.statusCode (fst (WebhookServer.handleWebhook pf req now random srv)) = 200 /\
     WebhookServer.scheduled (snd (WebhookServer.handleWebhook pf req now random srv))
     = (WebhookServer.scheduled srv ++ [p])%list).
Proof.
  intros pf srv req now random payload p Hparse Hnorm Hprov.
  assert (Hsig : WebhookServer.verifySignature pf (WebhookServer.options srv)
                   (WebhookServer.headers req) (WebhookServer.body req) (provider p)
                 = Some true).
  { unfold WebhookServer.verifySignature. rewrite Hprov.
    now destruct (negb (Js.truthy (WebhookServer.secret (WebhookServer.options srv)))). }
  split; [exact Hsig|]. split.
  - destruct (WebhookServer.shouldProcessWebhook pf (WebhookServer.options srv) p)
      as [pass|] eqn:Hfilter.
    + rewrite (handleWebhook_after_verification pf srv req now random payload p pass
                 Hparse Hnorm Hsig Hfilter).
      destruct pass; [|discriminate].
      destruct (WebhookServer.webhookQueue srv) as [q|]; [|discriminate].
      destruct (queue_is_full q); discriminate.
    + unfold WebhookServer.handleWebhook. rewrite Hparse, Hnorm, Hsig, Hfilter. discriminate.
  - intros Hnofilter Hnoqueue. unfold WebhookServer.handleWebhook.
    rewrite Hparse, Hnorm, Hsig. unfold WebhookServer.shouldProcessWebhook.
    rewrite Hnofilter. cbn. rewrite Hnoqueue. now split.
Qed.

Lemma bitbucket_events_are_not_verified_witness :
  WebhookServer.statusCode
    (fst (WebhookServer.handleWebhook stub_platform bitbucket_request 5 "r" (listener None)))
  = 200 /\
  List.length (WebhookServer.scheduled
                 (snd (WebhookServer.handleWebhook stub_platform bitbucket_request 5 "r"
                                                   (listener None)))) = 1%nat.
Proof.
  destruct (bitbucket_events_are_not_verified stub_platform (listener None) bitbucket_request
              5 "r" (Json.JObject [])
              (mkWebhookPayload bitbucket "repo:push" None None None (Json.JObject []))
              eq_refl eq_refl eq_refl) as (_ & _ & Hopen).
  destruct (Hopen eq_refl eq_refl) as (Hstatus & Hscheduled).
  split; [exact Hstatus|]. now rewrite Hscheduled.
Defined.

(** X21. A request with valid JSON that names no provider (neither
    [X-GitHub-Event] nor [X-Event-Key]) is answered 401, with no sync
    set in motion, exactly when a secret is configured; without a
    secret it passes the signature check, and with no filters and no
    ingest queue it is answered 200 and a sync is set in motion. *)
Theorem unrecognised_sender_needs_no_secret :
  forall (pf : WebhookServer.Platform) (srv : WebhookServer.t)
         (req : WebhookServer.Request) (now : Z) (random : string) (payload : Json.json),
    WebhookServer.JSON_parse pf (WebhookServer.body req) = Some payload ->
    WebhookServer.header_truthy "x-github-event" (WebhookServer.headers req) = None ->
    WebhookServer.header_truthy "x-event-key" (WebhookServer.headers req) = None ->
    let response := fst (WebhookServer.handleWebhook pf req now random srv) in
    let srv1 := snd (WebhookServer.handleWebhook pf req now random srv) in
    if Js.truthy (WebhookServer.secret (WebhookServer.options srv))
    then WebhookServer.statusCode response = 401 /\
         WebhookServer.syncs_triggered srv1 = WebhookServer.syncs_triggered srv
    else WebhookServer.statusCode response <> 401 /\
         (WebhookServer.filterOptions (WebhookServer.options srv) = None ->
          WebhookServer.webhookQueue srv = None ->
          WebhookServer.statusCode response = 200 /\
          WebhookServer.scheduled srv1
          = (WebhookServer.scheduled srv
             ++ [mkWebhookPayload unknown "unknown" None None None payload])%list).
Proof.
  intros pf srv req now random payload Hparse Hgithub Hbitbucket response srv1.
  set (p := mkWebhookPayload unknown "unknown" None None None payload).
  assert (Hnorm : WebhookServer.parseWebhookPayload (WebhookServer.headers req) payload
                  = Some p).
  { unfold WebhookServer.parseWebhookPayload. now rewrite Hgithub, Hbitbucket. }
  destruct (Js.truthy (WebhookServer.secret (WebhookServer.options srv))) eqn:Hsecret.
  - assert (Hsig : WebhookServer.verifySignature pf (WebhookServer.options srv)
                     (WebhookServer.headers req) (WebhookServer.body req) (provider p)
                   = Some false).
    { unfold WebhookServer.verifySignature. now rewrite Hsecret. }
    pose proof (handleWebhook_unauthorized pf srv req now random payload p Hparse Hnorm Hsig)
      as H.
    subst response srv1. now destruct (WebhookServer.handleWebhook pf req now random srv).
  - assert (Hsig : WebhookServer.verifySignature pf (WebhookServer.options srv)
                     (WebhookServer.headers req) (WebhookServer.body req) (provider p)
                   = Some true).
    { unfold WebhookServer.verifySignature. now rewrite Hsecret. }
    subst response srv1. split.
    + destruct (WebhookServer.shouldProcessWebhook pf (WebhookServer.options srv) p)
        as [pass|] eqn:Hfilter.
      * rewrite (handleWebhook_after_verification pf srv req now random payload p pass
                   Hparse Hnorm Hsig Hfilter).
        destruct pass; [|discriminate].
        destruct (WebhookServer.webhookQueue srv) as [q|]; [|discriminate].
        destruct (queue_is_full q); discriminate.
      * unfold WebhookServer.handleWebhook. rewrite Hparse, Hnorm, Hsig, Hfilter.
        discriminate.
    + intros Hnofilter Hnoqueue. unfold WebhookServer.handleWebhook.
      rewrite Hparse, Hnorm, Hsig. unfold WebhookServer.shouldProcessWebhook.
      rewrite Hnofilter. cbn. rewrite Hnoqueue. now split.
Qed.

Lemma unrecognised_sender_needs_no_secret_witness :
  WebhookServer.statusCode
    (fst (WebhookServer.handleWebhook stub_platform anonymous_request 5 "r" (listener None)))
  = 401.
Proof.
  exact (proj1 (unrecognised_sender_needs_no_secret stub_platform (listener None)
                  anonymous_request 5 "r" (Json.JObject []) eq_refl eq_refl eq_refl)).
Defined.

Section Bookkeeping.

Import WebhookServer.

Lemma books_logWebhook (now : Z) (ip : string) (p : WebhookPayload) (s : LogStatus)
    (err : option string) (srv : t) :
  books_in_order srv -> books_in_order (logWebhook now ip p s err srv).
Proof.
  intros (Hlog & Hstats). split; [|exact Hstats].
  unfold logWebhook. cbn [webhookLog].
  match goal with |- context [(?l ++ [?e])%list] => set (log := (l ++ [e])%list) end.
  assert (Hlen : List.length log = S (List.length (webhookLog srv)))
    by (subst log; rewrite length_app; cbn; lia).
  destruct (100 <? List.length log)%nat eqn:Hover.
  - destruct log as [|x rest]; cbn in *; lia.
  - apply Nat.ltb_ge in Hover. exact Hover.
Qed.

Lemma books_set_stats (st : Stats) (srv : t) :
  books_in_order srv ->
  0 <= queued st <= total st -> 0 <= filtered st ->
  (lastWebhook st = None <-> total st = 0) ->
  books_in_order (set_stats st srv).
Proof.
  intros (Hlog & _) H1 H2 H3. unfold books_in_order. cbn.
  split; [exact Hlog|]. split; [exact H1|]. split; [exact H2 | exact H3].
Qed.

Ltac books :=
  unfold books_in_order in *; cbn;
  repeat match goal with
         | |- _ /\ _ => split
         | |- _ <-> _ => split
         end;
  first [assumption | lia | discriminate | intro; lia].

Lemma books_handleWebhook (pf : Platform) (req : Request) (now : Z) (random : string)
    (srv : t) :
  books_in_order srv -> books_in_order (snd (handleWebhook pf req now random srv)).
Proof.
  intro Hsrv. pose proof Hsrv as (Hlog & (Hq0 & Hqt) & Hf & Hlast).
  unfold handleWebhook.
  destruct (JSON_parse pf (body req)) as [payload|]; [|exact Hsrv].
  destruct (parseWebhookPayload (headers req) payload) as [p|]; [|exact Hsrv].
  destruct (verifySignature pf (options srv) (headers req) (body req) (provider p))
    as [[|]|]; [| now apply books_logWebhook | exact Hsrv].
  destruct (shouldProcessWebhook pf (options srv) p) as [[|]|]; [| | exact Hsrv].
  - cbn [webhookQueue set_stats].
    destruct (webhookQueue srv) as [q|].
    + destruct (WebhookQueue.enqueue p now random q) as [[queueId|] q1]; cbn [snd].
      * apply books_logWebhook. books.
      * books.
    + books.
  - cbn [snd]. apply books_logWebhook. apply books_set_stats; cbn; try lia; [exact Hsrv|].
    exact Hlast.
Qed.

Lemma books_after_onWebhook (now : Z) (ip : string) (p : WebhookPayload)
    (error : option string) (srv : t) :
  books_in_order srv -> books_in_order (after_onWebhook now ip p error srv).
Proof.
  intro Hsrv. pose proof Hsrv as (Hlog & (Hq0 & Hqt) & Hf & Hlast).
  unfold after_onWebhook.
  destruct error; apply books_logWebhook; apply books_set_stats; cbn; try lia;
    try exact Hsrv; exact Hlast.
Qed.

End Bookkeeping.


(** X23. A path pattern [dir/**] matches a file exactly when the path
    of the file starts with [dir]; no slash need follow, so the pattern
    also matches the files of every directory whose name merely begins
    with [dir]. *)
Theorem double_star_matches_by_prefix :
  forall (pf : WebhookServer.Platform) (dir file rest : string),
    WebhookServer.matchPath pf (Json.JString file) (dir ++ "/**")
    = Some (Js.startsWith file dir) /\
    WebhookServer.matchPath pf (Json.JString (dir ++ rest)) (dir ++ "/**") = Some true.
Proof.
  intros pf dir file rest.
  assert (Hgeneral : forall f, WebhookServer.matchPath pf (Json.JString f) (dir ++ "/**")
                               = Some (Js.startsWith f dir)).
  { intro f. unfold WebhookServer.matchPath. rewrite endsWith_append, length_append.
    replace (String.length dir + String.length "/**" - 3)%nat with (String.length dir)
      by (cbn; lia).
    now rewrite substring_head. }
  split; [apply Hgeneral|].
  rewrite Hgeneral. unfold Js.startsWith. now rewrite prefix_append.
Qed.

Section BitbucketFiles.

Import WebhookServer.

Lemma bitbucket_commit_lists_no_file (c : Json.json) (parsed : Commit) :
  bitbucket_commit c = Some parsed -> commit_files parsed = [].
Proof.
  unfold bitbucket_commit. intro H.
  repeat match type of H with
         | match ?x with _ => _ end = Some _ => destruct x; try discriminate H
         end.
  now injection H as <-.
Qed.

Lemma map_or_throw_lists_no_file (items : list Json.json) (cs : list Commit) :
  map_or_throw bitbucket_commit items = Some cs ->
  flat_map commit_files cs = [].
Proof.
  revert cs. induction items as [|c items IH]; intros cs H; cbn in H.
  - now injection H as <-.
  - destruct (bitbucket_commit c) as [parsed|] eqn:Hc; [|discriminate].
    destruct (map_or_throw bitbucket_commit items) as [rest|]; [|discriminate].
    injection H as <-. cbn.
    now rewrite (bitbucket_commit_lists_no_file c parsed Hc), (IH rest eq_refl).
Qed.

Lemma bitbucket_payload_lists_no_file (hs : list (string * string)) (payload : Json.json)
    (p : WebhookPayload) (cs : list Commit) :
  parseWebhookPayload hs payload = Some p -> provider p = bitbucket ->
  commits p = Some cs -> flat_map commit_files cs = [].
Proof.
  unfold parseWebhookPayload. intros H Hprov Hcs.
  destruct (header_truthy "x-github-event" hs).
  - repeat match type of H with
           | match ?x with _ => _ end = Some _ => destruct x; try discriminate H
           end;
      injection H as <-; discriminate Hprov.
  - destruct (header_truthy "x-event-key" hs);
      [|injection H as <-; discriminate Hprov].
    repeat match type of H with
           | match ?x with _ => _ end = Some _ =>
               destruct x eqn:?; try discriminate H
           end.
    injection H as <-. cbn in Hcs. subst.
    match goal with
    | Hmap : opt_map_commits bitbucket_commit ?v = Some (Some cs) |- _ =>
        unfold opt_map_commits in Hmap;
        destruct v as [[| | | | items |]|]; try discriminate Hmap;
        destruct (map_or_throw bitbucket_commit items) as [parsed|] eqn:Hitems;
        [|discriminate Hmap];
        injection Hmap as <-; exact (map_or_throw_lists_no_file items parsed Hitems)
    end.
Qed.

End BitbucketFiles.

(** X24. A path filter rejects every Bitbucket push that carries
    commits: the listener records no file for a Bitbucket commit, so no
    file can match a pattern, and the event is answered as filtered
    whatever its branch and whatever the patterns are. *)
Theorem path_filter_rejects_bitbucket_pushes :
  forall (pf : WebhookServer.Platform) (o : WebhookServer.Options)
         (f : WebhookServer.FilterOptions) (hs : list (string * string))
         (payload : Json.json) (p : WebhookPayload) (cs : list Commit)
         (pattern : string) (more : list string),
    WebhookServer.parseWebhookPayload hs payload = Some p ->
    provider p = bitbucket ->
    commits p = Some cs ->
    WebhookServer.filterOptions o = Some f ->
    WebhookServer.paths f = Some (pattern :: more) ->
    WebhookServer.shouldProcessWebhook pf o p = Some false.
Proof.
  intros pf o f hs payload p cs pattern more Hparse Hprov Hcs Hf Hpaths.
  pose proof (bitbucket_payload_lists_no_file hs payload p cs Hparse Hprov Hcs) as Hnone.
  unfold WebhookServer.shouldProcessWebhook. rewrite Hf, Hpaths, Hcs.
  cbn [WebhookServer.non_empty]. rewrite Hnone. cbn [WebhookServer.some_or_throw].
  repeat match goal with
         | |- context [if ?b then _ else _] => destruct b; try reflexivity
         end.
Qed.

Lemma path_filter_rejects_bitbucket_pushes_witness :
  WebhookServer.responseBody
    (fst (WebhookServer.handleWebhook
            (WebhookServer.mkPlatform (fun _ => Some bitbucket_push) (fun _ _ => "")
                                      (fun p => p) (fun _ _ => Some true))
            bitbucket_request 5 "r" docs_only_listener)) = "Filtered" /\
  WebhookServer.shouldProcessWebhook
    (WebhookServer.mkPlatform (fun _ => Some bitbucket_push) (fun _ _ => "")
                              (fun p => p) (fun _ _ => Some true))
    (WebhookServer.options docs_only_listener)
    (mkWebhookPayload bitbucket "repo:push" (Some (Json.JString "main")) None
       (Some [mkCommit (Some (Json.JString "abc123")) (Some (Json.JString "Update docs"))
                       None []])
       bitbucket_push)
  = Some false.
Proof.
  split; [reflexivity|].
  exact (path_filter_rejects_bitbucket_pushes _ (WebhookServer.options docs_only_listener)
           (WebhookServer.mkFilter None None (Some ["docs/**"]))
           [("x-event-key", "repo:push")] bitbucket_push _ _ "docs/**" []
           eq_refl eq_refl eq_refl eq_refl eq_refl).
Defined.

(** X25. For a GitHub event without commits the normalised branch is
    the [ref] of the payload with its first occurrence of
    ["refs/heads/"] taken out: a ref [refs/heads/b] yields the branch
    [b], and a ref that does not contain ["refs/heads/"], such as a tag
    ref, is kept as it is and is what the branch filter is compared
    with. *)
Theorem github_branch_is_ref_without_heads :
  forall (hs : list (string * string)) (fields : list (string * Json.json))
         (github_event ref : string),
    WebhookServer.header_truthy "x-github-event" hs = Some github_event ->
    Json.lookup "ref" fields = Some (Json.JString ref) ->
    Json.lookup "commits" fields = None ->
    exists p,
      WebhookServer.parseWebhookPayload hs (Json.JObject fields) = Some p /\
      provider p = github /\ event p = github_event /\ commits p = None /\
      (forall b, ref = ("refs/heads/" ++ b)%string ->
                 payload_branch p = Some (Json.JString b)) /\
      (Js.includes ref "refs/heads/" = false ->
       payload_branch p = Some (Json.JString ref)).
Proof.
  intros hs fields github_event ref Hevent Href Hcommits.
  unfold WebhookServer.parseWebhookPayload. rewrite Hevent.
  cbn [Json.prop]. rewrite Href, Hcommits. cbn [WebhookServer.opt_map_commits].
  destruct (Json.opt_prop (Json.lookup "repository" fields) "full_name") as [full_name|] eqn:Hrepo.
  - eexists. split; [reflexivity|]. cbn. repeat split.
    + intros b ->. cbn.
      replace (String.prefix "" b) with true by (now destruct b).
      now rewrite Nat.sub_0_r, substring_all.
    + intro Habsent. now rewrite (replace_first_absent ref "refs/heads/" "" Habsent).
  - exfalso. unfold Json.opt_prop, Json.prop in Hrepo.
    destruct (Json.lookup "repository" fields) as [[| | | | |]|]; discriminate Hrepo.
Qed.

Lemma github_branch_is_ref_without_heads_witness :
  exists p,
    WebhookServer.parseWebhookPayload [("x-github-event", "push")]
      (Json.JObject [("ref", Json.JString "refs/heads/main")]) = Some p /\
    payload_branch p = Some (Json.JString "main").
Proof.
  destruct (github_branch_is_ref_without_heads [("x-github-event", "push")]
              [("ref", Json.JString "refs/heads/main")] "push" "refs/heads/main"
              eq_refl eq_refl eq_refl) as (p & Hparse & _ & _ & _ & Hbranch & _).
  exists p. split; [exact Hparse | exact (Hbranch "main" eq_refl)].
Defined.

(* ===================================================================== *)
(** ** Path sanitising and the token check *)
(* ===================================================================== *)

Section PathProperties.

Import ValidationUtils.

Lemma split_nonempty : forall sep s, split sep s <> [].
Proof.
  intros sep s. destruct s as [|c s]; cbn; [discriminate|].
  destruct (Ascii.eqb c sep); [discriminate|].
  destruct (split sep s); discriminate.
Qed.

Lemma split_segments_free :
  forall sep s, Forall (fun segment => free_of sep segment = true) (split sep s).
Proof.
  intros sep s. induction s as [|c s IH]; cbn.
  - now constructor.
  - destruct (Ascii.eqb c sep) eqn:E.
    + now constructor.
    + destruct (split sep s) as [|segment others].
      * constructor; [cbn; now rewrite E | constructor].
      * inversion IH; subst. constructor; [cbn; now rewrite E | assumption].
Qed.

Lemma split_app_sep :
  forall sep x y, split sep (x ++ String sep y) = (split sep x ++ split sep y)%list.
Proof.
  intros sep x y. induction x as [|c x IH]; cbn.
  - now rewrite Ascii.eqb_refl.
  - rewrite IH. destruct (Ascii.eqb c sep); [reflexivity|].
    destruct (split sep x) eqn:E; [|reflexivity].
    exfalso. exact (split_nonempty _ _ E).
Qed.

Lemma split_of_free : forall sep x, free_of sep x = true -> split sep x = [x].
Proof.
  intros sep x. induction x as [|c x IH]; cbn; [reflexivity|].
  intros H. apply andb_prop in H as [Hc Hx].
  destruct (Ascii.eqb c sep); [discriminate|]. now rewrite IH.
Qed.

Lemma split_concat :
  forall sep l,
    l <> [] -> Forall (fun segment => free_of sep segment = true) l ->
    split sep (String.concat (String sep EmptyString) l) = l.
Proof.
  intros sep l. induction l as [|x l IH]; [congruence|].
  intros _ Hf. inversion Hf as [|? ? Hx Hl]; subst.
  destruct l as [|y l].
  - cbn. now apply split_of_free.
  - change (String.concat (String sep EmptyString) (x :: y :: l))
      with (x ++ String sep (String.concat (String sep EmptyString) (y :: l))).
    rewrite split_app_sep, split_of_free by assumption.
    rewrite IH by (assumption || discriminate). reflexivity.
Qed.

Lemma filter_filter : forall {A} (f : A -> bool) l, filter f (filter f l) = filter f l.
Proof.
  intros A f l. induction l as [|a l IH]; cbn; [reflexivity|].
  destruct (f a) eqn:E; cbn; [rewrite E; now f_equal | assumption].
Qed.

Lemma Forall_filter_sub :
  forall {A} (P : A -> Prop) f l, Forall P l -> Forall P (filter f l).
Proof.
  intros A P f l H. induction H; cbn; [constructor|].
  destruct (f x); [now constructor | assumption].
Qed.

Lemma kept_segments_free :
  forall path,
    Forall (fun segment => free_of "/" segment = true)
           (filter kept_segment (split "/" path)).
Proof. intros path. apply Forall_filter_sub, split_segments_free. Qed.

Lemma sanitizePath_segments :
  forall path,
    (sanitizePath path = "" /\ filter kept_segment (split "/" path) = [])
    \/ split "/" (sanitizePath path) = filter kept_segment (split "/" path).
Proof.
  intros path. unfold sanitizePath.
  destruct (filter kept_segment (split "/" path)) eqn:E.
  - left. now split.
  - right. rewrite <- E. apply split_concat; [rewrite E; discriminate|].
    apply kept_segments_free.
Qed.

Lemma sanitizePath_app :
  forall x y,
    sanitizePath (x ++ String "/" y)
    = String.concat "/" (filter kept_segment (split "/" x)
                         ++ filter kept_segment (split "/" y))%list.
Proof. intros x y. unfold sanitizePath. now rewrite split_app_sep, filter_app. Qed.

End PathProperties.

(** X26.  [sanitizePath] splits the path at "/", drops the empty, "."
    and ".." segments and joins the rest: the segments of the result
    are exactly the kept ones, so none of them is "." or "..", the
    result never starts with "/", and sanitising a second time changes
    nothing.  A ".." segment is dropped, not resolved: it does not
    remove the segment before it. *)
Theorem sanitizePath_drops_dot_segments :
  forall path : string,
    let kept := filter ValidationUtils.kept_segment (ValidationUtils.split "/" path) in
    let clean := ValidationUtils.sanitizePath path in
    (clean = "" /\ kept = [] \/ ValidationUtils.split "/" clean = kept) /\
    Forall (fun segment => segment <> ".." /\ segment <> ".")
           (ValidationUtils.split "/" clean) /\
    Js.startsWith clean "/" = false /\
    ValidationUtils.sanitizePath clean = clean /\
    (forall rest,
        ValidationUtils.sanitizePath (path ++ "/../" ++ rest)
        = ValidationUtils.sanitizePath (path ++ "/" ++ rest)).
Proof.
  intros path kept clean.
  assert (Hkept : Forall (fun segment => segment <> ".." /\ segment <> "." /\ segment <> "")
                         kept).
  { apply Forall_forall. intros segment Hin. apply filter_In in Hin as [_ Hk].
    unfold ValidationUtils.kept_segment in Hk.
    apply andb_prop in Hk as [Hk H3]. apply andb_prop in Hk as [H1 H2].
    repeat split; intros ->; discriminate. }
  pose proof (sanitizePath_segments path) as Hseg. fold kept clean in Hseg.
  split; [exact Hseg|]. split; [|split; [|split]].
  - destruct Hseg as [[-> _] | ->].
    + constructor; [split; discriminate | constructor].
    + eapply Forall_impl; [|exact Hkept]. cbn. tauto.
  - destruct Hseg as [[-> _] | Hs]; [reflexivity|].
    pose proof (kept_segments_free path) as Hfree. fold kept in Hfree.
    unfold clean, ValidationUtils.sanitizePath. fold kept.
    destruct kept as [|x rest]; [reflexivity|].
    inversion Hkept as [|? ? (_ & _ & Hx) _]; subst.
    inversion Hfree as [|? ? Hf _]; subst.
    destruct x as [|c x]; [congruence|].
    cbn in Hf. apply andb_prop in Hf as [Hc _].
    unfold Js.startsWith.
    assert (Hhead : forall tail, String.prefix "/" (String c tail) = false).
    { intros tail. cbn [String.prefix].
      destruct (ascii_dec "/" c) as [<-|]; [discriminate | reflexivity]. }
    destruct rest; cbn [String.concat append]; apply Hhead.
  - destruct Hseg as [[-> _] | Hs]; [reflexivity|].
    unfold ValidationUtils.sanitizePath at 1. rewrite Hs.
    unfold kept. rewrite filter_filter. reflexivity.
  - intros rest.
    change (path ++ "/../" ++ rest)%string with (path ++ String "/" (".." ++ String "/" rest))%string.
    change (path ++ "/" ++ rest)%string with (path ++ String "/" rest)%string.
    rewrite !sanitizePath_app, split_app_sep, filter_app. reflexivity.
Qed.

Section TokenProperties.

Lemma substring_length_le :
  forall s n m, (String.length (substring n m s) <= m)%nat.
Proof.
  intros s. induction s as [|c s IH]; intros n m.
  - destruct n, m; cbn; lia.
  - destruct n as [|n]; [destruct m as [|m]|]; cbn; [lia | | apply IH].
    specialize (IH 0%nat m). lia.
Qed.

Lemma token_format_is_long :
  forall token,
    ValidationUtils.has_token_format token = true -> (40 <= String.length token)%nat.
Proof.
  intros token H. unfold ValidationUtils.has_token_format, ValidationUtils.token_prefixes in H.
  cbn [existsb] in H.
  repeat (apply orb_prop in H as [H|H]); try discriminate;
    apply andb_prop in H as [H _]; apply andb_prop in H as [_ H];
    apply Nat.leb_le in H;
    match type of H with
    | (_ <= String.length (substring ?n ?m _))%nat =>
        pose proof (substring_length_le token n m) as Hle
    end; cbn [String.length] in *; lia.
Qed.

End TokenProperties.

(** X27.  The GitHub token check is a pure length check: the pattern
    for the known token prefixes never decides, because every token it
    accepts has at least 40 characters.  [isValidGitHubToken] accepts
    exactly the tokens of 40 characters or more, and
    [validateCredentials] reports the format error exactly when token
    authentication is chosen with a non-empty token shorter than 40
    characters. *)
Theorem github_token_check_is_a_length_check :
  (forall token : string,
      ValidationUtils.isValidGitHubToken token = (40 <=? String.length token)%nat) /\
  (forall options : CredentialManager.Credentials,
      In CredentialManager.token_malformed (CredentialManager.validateCredentials options)
      <-> CredentialManager.authMethod options = Some "token"
          /\ exists token,
               CredentialManager.githubToken options = Some token
               /\ (0 < String.length token < 40)%nat).
Proof.
  split.
  - intros token. unfold ValidationUtils.isValidGitHubToken.
    destruct (ValidationUtils.has_token_format token) eqn:E; [|reflexivity].
    apply token_format_is_long in E. cbn [orb]. symmetry. now apply Nat.leb_le.
  - intros [method token username webhook secret].
    unfold CredentialManager.validateCredentials, CredentialManager.is_method.
    cbn [CredentialManager.authMethod CredentialManager.githubToken
         CredentialManager.githubUsername CredentialManager.enableWebhook
         CredentialManager.webhookSecret].
    assert (Hother : forall (b : bool) (e : string),
               e <> CredentialManager.token_malformed ->
               ~ In CredentialManager.token_malformed (if b then [e] else [])).
    { intros [] e He; cbn; [intros [->|[]]; congruence | tauto]. }
    assert (Hsecret : CredentialManager.secret_required <> CredentialManager.token_malformed)
      by discriminate.
    assert (Huser : CredentialManager.username_required <> CredentialManager.token_malformed)
      by discriminate.
    assert (Hrequired : CredentialManager.token_required <> CredentialManager.token_malformed)
      by discriminate.
    rewrite in_app_iff.
    destruct method as [method|]; [destruct (String.eqb method "token") eqn:Em|].
    + apply String.eqb_eq in Em. subst method. rewrite in_app_iff.
      destruct token as [token|].
      * unfold Js.truthy.
        destruct token as [|c token].
        -- cbn [String.eqb negb]. split.
           ++ intros [[[H|[]]|H]|H]; [congruence | |]; exfalso; (eapply Hother; [|eassumption]; assumption).
           ++ intros (_ & token & [= <-] & Hlen). cbn in Hlen. lia.
        -- cbn [String.eqb negb].
           destruct (ValidationUtils.has_token_format (String c token)) eqn:Ef.
           ++ apply token_format_is_long in Ef. cbn [negb andb]. split.
              ** intros [[[]|H]|H]; exfalso; (eapply Hother; [|eassumption]; assumption).
              ** intros (_ & t & [= <-] & Hlen). lia.
           ++ cbn [negb andb].
              destruct (String.length (String c token) <? 40)%nat eqn:El.
              ** apply Nat.ltb_lt in El. split.
                 --- intros _. split; [reflexivity|]. exists (String c token).
                     split; [reflexivity|]. cbn [String.length] in *. lia.
                 --- intros _. left. left. now left.
              ** apply Nat.ltb_ge in El. split.
                 --- intros [[[]|H]|H]; exfalso; (eapply Hother; [|eassumption]; assumption).
                 --- intros (_ & t & [= <-] & Hlen). lia.
      * split.
        -- intros [[[H|[]]|H]|H]; [congruence | |]; exfalso; (eapply Hother; [|eassumption]; assumption).
        -- intros (_ & t & [=] & _).
    + apply String.eqb_neq in Em. split.
      * intros [[]|H]. exfalso; (eapply Hother; [|eassumption]; assumption).
      * intros ([= ->] & _). congruence.
    + split.
      * intros [[]|H]. exfalso; (eapply Hother; [|eassumption]; assumption).
      * intros ([=] & _).
Qed.

(* ===================================================================== *)
(** ** The placeholder singleton *)
(* ===================================================================== *)

Section PlaceholderProperties.

Import PlaceholderStateManager.

Lemma In_add : forall x l f, In f (add x l) <-> In f l \/ f = x.
Proof.
  intros x l f. unfold add. destruct (existsb (String.eqb x) l) eqn:E.
  - split; [tauto|]. intros [H| ->]; [assumption|].
    apply existsb_exists in E as (y & Hy & Heq). apply String.eqb_eq in Heq. now subst.
  - rewrite in_app_iff. cbn. split; [intros [H|[H|[]]] | intros [H|H]]; auto.
Qed.

Lemma NoDup_add : forall x l, NoDup l -> NoDup (add x l).
Proof.
  intros x l H. unfold add. destruct (existsb (String.eqb x) l) eqn:E; [assumption|].
  apply NoDup_app; [assumption | repeat constructor; intros [] |].
  intros y Hy [Heq|[]]. subst y.
  assert (existsb (String.eqb x) l = true); [|congruence].
  apply existsb_exists. exists x. split; [assumption | apply String.eqb_refl].
Qed.

Lemma In_delete : forall x l f, In f (delete x l) <-> In f l /\ f <> x.
Proof.
  intros x l f. unfold delete. rewrite filter_In. split; intros [H1 H2]; split; auto.
  - intros ->. now rewrite String.eqb_refl in H2.
  - apply Bool.negb_true_iff, String.eqb_neq. congruence.
Qed.

Lemma In_add_all :
  forall files l f,
    In f (fold_left (fun l x => add x l) files l) <-> In f l \/ In f files.
Proof.
  intros files. induction files as [|x files IH]; intros l f; cbn.
  - tauto.
  - rewrite IH, In_add. intuition auto.
Qed.

Lemma NoDup_add_all :
  forall files l, NoDup l -> NoDup (fold_left (fun l x => add x l) files l).
Proof.
  intros files. induction files as [|x files IH]; intros l H; cbn; [assumption|].
  now apply IH, NoDup_add.
Qed.

Lemma In_delete_all :
  forall files l f,
    In f (fold_left (fun l x => delete x l) files l) <-> In f l /\ ~ In f files.
Proof.
  intros files. induction files as [|x files IH]; intros l f; cbn.
  - tauto.
  - rewrite IH, In_delete. intuition auto.
Qed.

Lemma NoDup_delete_all :
  forall files l, NoDup l -> NoDup (fold_left (fun l x => delete x l) files l).
Proof.
  intros files. induction files as [|x files IH]; intros l H; cbn; [assumption|].
  apply IH. unfold delete. now apply NoDup_filter.
Qed.

Lemma placeholder_call_keeps :
  forall c s,
    (NoDup (placeholderFiles s) /\
     (placeholderFiles s <> [] -> hasActivePlaceholders s = true)) ->
    NoDup (placeholderFiles (placeholder_call c s)) /\
    (placeholderFiles (placeholder_call c s) <> [] ->
     hasActivePlaceholders (placeholder_call c s) = true).
Proof.
  intros c s [Hnd Hflag]. destruct c as [files|files|]; cbn.
  - split; [now apply NoDup_add_all | reflexivity].
  - split; [now apply NoDup_delete_all|].
    destruct (fold_left (fun l x => delete x l) files (placeholderFiles s))
      as [|f rest] eqn:E; [congruence|].
    intros _. apply Hflag. intros Hnil.
    assert (Hin : In f (fold_left (fun l x => delete x l) files (placeholderFiles s)))
      by (rewrite E; now left).
    apply In_delete_all in Hin as [Hin _]. rewrite Hnil in Hin. destruct Hin.
  - split; [constructor | congruence].
Qed.

Lemma placeholder_calls_keep :
  forall calls s,
    (NoDup (placeholderFiles s) /\
     (placeholderFiles s <> [] -> hasActivePlaceholders s = true)) ->
    let s1 := fold_left (fun s c => placeholder_call c s) calls s in
    NoDup (placeholderFiles s1) /\
    (placeholderFiles s1 <> [] -> hasActivePlaceholders s1 = true).
Proof.
  intros calls. induction calls as [|c calls IH]; intros s H; cbn; [exact H|].
  apply IH, placeholder_call_keeps, H.
Qed.

End PlaceholderProperties.

(** X28.  After any sequence of [setPlaceholdersActive],
    [setPlaceholdersInactive] and [reset] calls the placeholder
    singleton lists no file twice and reports placeholders whenever it
    lists a file.  Activating adds the given files, deactivating removes
    them, and activating and then deactivating the same files leaves
    the flag set exactly when a file from before remains. *)
Theorem placeholder_state_tracks_files :
  forall calls : list PlaceholderCall,
    let s := placeholder_calls calls in
    NoDup (PlaceholderStateManager.getPlaceholderFiles s) /\
    (PlaceholderStateManager.getPlaceholderFiles s <> [] ->
     PlaceholderStateManager.hasPlaceholders s = true) /\
    (forall files f,
        In f (PlaceholderStateManager.getPlaceholderFiles
                (PlaceholderStateManager.setPlaceholdersActive files s))
        <-> In f (PlaceholderStateManager.getPlaceholderFiles s) \/ In f files) /\
    (forall files f,
        In f (PlaceholderStateManager.getPlaceholderFiles
                (PlaceholderStateManager.setPlaceholdersInactive files s))
        <-> In f (PlaceholderStateManager.getPlaceholderFiles s) /\ ~ In f files) /\
    (forall files,
        PlaceholderStateManager.hasPlaceholders
          (PlaceholderStateManager.setPlaceholdersInactive files
             (PlaceholderStateManager.setPlaceholdersActive files s)) = true
        <-> exists f, In f (PlaceholderStateManager.getPlaceholderFiles s) /\ ~ In f files).
Proof.
  intros calls s.
  assert (Hinv : NoDup (PlaceholderStateManager.placeholderFiles s) /\
                 (PlaceholderStateManager.placeholderFiles s <> [] ->
                  PlaceholderStateManager.hasActivePlaceholders s = true)).
  { apply placeholder_calls_keep. split; [constructor | intros H; now contradiction H]. }
  destruct Hinv as [Hnd Hflag].
  unfold PlaceholderStateManager.getPlaceholderFiles, PlaceholderStateManager.hasPlaceholders.
  split; [exact Hnd|]. split; [exact Hflag|]. split; [|split].
  - intros files f. cbn. apply In_add_all.
  - intros files f. cbn. apply In_delete_all.
  - intros files. cbn.
    set (added := fold_left (fun l x => PlaceholderStateManager.add x l) files
                            (PlaceholderStateManager.placeholderFiles s)).
    assert (Hrem : forall f,
               In f (fold_left (fun l x => PlaceholderStateManager.delete x l) files added)
               <-> In f (PlaceholderStateManager.placeholderFiles s) /\ ~ In f files).
    { intros f. rewrite In_delete_all. unfold added. rewrite In_add_all. tauto. }
    destruct (fold_left (fun l x => PlaceholderStateManager.delete x l) files added)
      as [|f rest].
    + split; [discriminate|]. intros (f & Hf). apply Hrem in Hf. destruct Hf.
    + split; [|reflexivity]. intros _. exists f. apply Hrem. now left.
Qed.
